(** * An embedding of the embedded X11 protocol server of Guitar RackCraft

    Source: [app/src/main/cpp/x11/X11NativeDisplay.cpp] together with
    [X11Protocol.h], [DisplayState.h] and [plugin/PluginUIGuard.h].

    Conventions of the embedding.
    - A C++ [int], [uint16_t] or [uint32_t] is a [Z]; where the source
      truncates (a cast to [uint16_t], a [uint32_t] counter) the wrap-around
      is written out.  Signed [int] arithmetic is taken without overflow
      (overflow of a signed [int] is undefined behaviour in C++).
    - A byte is a [Z] in [0, 256); byte buffers and [std::string] values are
      [list Z].
    - [std::unordered_map] is a [gmap], [std::unordered_set] a [gset],
      [std::vector] a [list].
    - The host is little-endian (Android on ARM or x86), which fixes what the
      source's [memcpy] and [reinterpret_cast] between [uint32_t] and bytes
      do.
    - Every handler is split as the source is: the first lines decode the
      fields of the request from the buffer ([parse...]), the rest works on
      the decoded values.  A handler returns the new state and the packets
      it wrote to the client socket.
    - The protocol thread alone touches the state modelled here; the
      compositor, the touch queue and logging are left out.

    The file has two parts: the embedding (definitions only), then the
    properties proved about it. *)

From Stdlib Require Import ZArith Lia List.
From Stdlib Require SpecFloat.
From stdpp Require Import gmap list fin_maps sorting.

#[local] Set Warnings "-clear-no-such-hyp".

Local Open Scope Z_scope.

(** ** Protocol constants ([X11Protocol.h]) *)

Definition kX11ConnectionAccepted : Z := 1.
Definition kX11Major : Z := 11.
Definition kX11Minor : Z := 0.
Definition kRootWindowId : Z := 1.
Definition kDefaultColormapId : Z := 1.
Definition kWhitePixel : Z := 0xffffff.
Definition kBlackPixel : Z := 0x000000.
Definition kDefaultVisualId : Z := 0x21.

Module X11Op.
Definition CreateWindow : Z := 1.
Definition ChangeWindowAttributes : Z := 2.
Definition GetWindowAttributes : Z := 3.
Definition DestroyWindow : Z := 4.
Definition MapWindow : Z := 8.
Definition UnmapWindow : Z := 10.
Definition ConfigureWindow : Z := 12.
Definition GetGeometry : Z := 14.
Definition InternAtom : Z := 16.
Definition GetAtomName : Z := 17.
Definition QueryPointer : Z := 38.
Definition PutImage : Z := 72.
Definition GetImage : Z := 73.
Definition SendEvent : Z := 25.
Definition QueryExtension : Z := 98.
Definition ListExtensions : Z := 100.
Definition kGLXMajorOpcode : Z := 128.
End X11Op.

Module X11Event.
Definition Expose : Z := 12.
Definition ConfigureNotify : Z := 22.
Definition DestroyNotify : Z := 17.
End X11Event.

(** ** Wire codec: [read16], [read32], [write16], [write32] *)

(** [p[i]] of a byte buffer; the source never reads outside its buffers on
    the paths modelled here, and the default is only there to make the
    function total. *)
Definition byteAt (p : list Z) (i : nat) : Z := default 0 (p !! i).

Definition u8 (v : Z) : Z := Z.land v 0xff.
Definition u16 (v : Z) : Z := v mod 65536.
Definition u32 (v : Z) : Z := v mod 4294967296.
(** [(int)(int16_t)v] for a [uint16_t] value [v]. *)
Definition s16 (v : Z) : Z := if decide (u16 v < 32768) then u16 v else u16 v - 65536.
(** [(int)v] for a [uint32_t] value [v]. *)
Definition s32 (v : Z) : Z :=
  if decide (u32 v < 2147483648) then u32 v else u32 v - 4294967296.

Section codec.
Variable msbFirst_ : bool.

Definition read16 (p : list Z) (off : nat) : Z :=
    if msbFirst_
    then u16 (Z.lor (Z.shiftl (byteAt p off) 8) (byteAt p (off + 1)))
    else u16 (Z.lor (byteAt p off) (Z.shiftl (byteAt p (off + 1)) 8)).

Definition read32 (p : list Z) (off : nat) : Z :=
    if msbFirst_
    then u32 (Z.lor (Z.lor (Z.lor (Z.shiftl (byteAt p off) 24)
                                   (Z.shiftl (byteAt p (off + 1)) 16))
                            (Z.shiftl (byteAt p (off + 2)) 8))
                     (byteAt p (off + 3)))
    else u32 (Z.lor (Z.lor (Z.lor (byteAt p off)
                                   (Z.shiftl (byteAt p (off + 1)) 8))
                            (Z.shiftl (byteAt p (off + 2)) 16))
                     (Z.shiftl (byteAt p (off + 3)) 24)).

Definition write16 (p : list Z) (off : nat) (val : Z) : list Z :=
    if msbFirst_
    then <[(off + 1)%nat := u8 val]> (<[off := u8 (Z.shiftr val 8)]> p)
    else <[(off + 1)%nat := u8 (Z.shiftr val 8)]> (<[off := u8 val]> p).

Definition write32 (p : list Z) (off : nat) (val : Z) : list Z :=
    if msbFirst_
    then <[(off + 3)%nat := u8 val]>
           (<[(off + 2)%nat := u8 (Z.shiftr val 8)]>
              (<[(off + 1)%nat := u8 (Z.shiftr val 16)]>
                 (<[off := u8 (Z.shiftr val 24)]> p)))
    else <[(off + 3)%nat := u8 (Z.shiftr val 24)]>
           (<[(off + 2)%nat := u8 (Z.shiftr val 16)]>
              (<[(off + 1)%nat := u8 (Z.shiftr val 8)]>
                 (<[off := u8 val]> p))).
End codec.

(** ** Connection setup reply ([Impl::sendConnectionReply]) *)

(** The source builds every reply and event as a straight line of writes
    into a local byte array, in [sendConnectionReply] through a running
    offset [off].  Each such source statement is one [BufStep]. *)
Inductive BufStep :=
| PutByte (v : Z)                     (* body[off++] = v;                 *)
| PutAt (rel : nat) (v : Z)           (* body[off + rel] = v;             *)
| W16 (rel : nat) (v : Z)             (* write16(body + off, rel, v);     *)
| W32 (rel : nat) (v : Z)             (* write32(body + off, rel, v);     *)
| Memset0 (rel n : nat)               (* memset(body + off + rel, 0, n);  *)
| Advance (n : nat).                  (* off += n;                        *)

Fixpoint memset0 (p : list Z) (start n : nat) : list Z :=
  match n with
  | O => p
  | S n' => memset0 (<[start := 0]> p) (S start) n'
  end.

Definition runBufStep (msb : bool) (st : list Z * nat) (s : BufStep)
  : list Z * nat :=
  let '(body, off) := st in
  match s with
  | PutByte v => (<[off := u8 v]> body, S off)
  | PutAt rel v => (<[(off + rel)%nat := u8 v]> body, off)
  | W16 rel v => (write16 msb body (off + rel) v, off)
  | W32 rel v => (write32 msb body (off + rel) v, off)
  | Memset0 rel n => (memset0 body (off + rel) n, off)
  | Advance n => (body, (off + n)%nat)
  end.

Definition b2z (b : bool) : Z := if b then 1 else 0.

Definition connectionReplySteps (msb : bool) (width height : Z) : list BufStep :=
  [ (* 0) reply header (8 bytes) *)
    PutByte kX11ConnectionAccepted; PutByte 0;
    W16 0 kX11Major; Advance 2;
    W16 0 kX11Minor; Advance 2;
    W16 0 28; Advance 2;
    (* 1) fixed setup prefix (18 bytes) *)
    W32 0 0; W32 4 0x00200000; W32 8 0x001FFFFF; W32 12 256; W16 16 0;
    Advance 18;
    (* 2) max_request_length, counts, orders, scanline, keycodes, pad *)
    W16 0 32767; Advance 2;
    PutByte 1; PutByte 1;
    PutByte (b2z msb); PutByte (b2z msb);
    PutByte 8; PutByte 8;
    PutByte 8; PutByte 255;
    PutByte 0; PutByte 0; PutByte 0; PutByte 0;
    (* 4) PixmapFormat (8) *)
    PutByte 24; PutByte 32;
    W16 0 32; Advance 2;
    Memset0 0 4; Advance 4;
    (* 5) WindowRoot (40) *)
    W32 0 kRootWindowId; W32 4 kDefaultColormapId;
    W32 8 kWhitePixel; W32 12 kBlackPixel; W32 16 0;
    W16 20 (u16 width); W16 22 (u16 height);
    W16 24 (u16 (Z.quot (width * 254) 100));
    W16 26 (u16 (Z.quot (height * 254) 100));
    W16 28 0; W16 30 0;
    W32 32 kDefaultVisualId;
    PutAt 36 0; PutAt 37 0; PutAt 38 24; PutAt 39 1;
    Advance 40;
    (* 6) Depth (8) + VisualType (24) *)
    PutByte 24; PutByte 0;
    W16 0 1; Advance 2;
    Memset0 0 4; Advance 4;
    W32 0 kDefaultVisualId;
    PutAt 4 4; PutAt 5 32;
    W16 6 256;
    W32 8 0xff0000; W32 12 0x00ff00; W32 16 0x0000ff;
    Memset0 20 4;
    Advance 24 ].

(** [sendConnectionReply]: [body0] is the indeterminate initial content of
    the local array; the result is what [sendAllLocked(clientFd, body, off)]
    is asked to write, namely the first [off] bytes of [body]. *)
Definition sendConnectionReply (msb : bool) (width height : Z) (body0 : list Z)
  : list Z :=
  let '(body, off) :=
    foldl (runBufStep msb) (body0, O) (connectionReplySteps msb width height) in
  take off body.

(** Handshake of [serverLoop]: [msbFirst_ = (req[0] == 0x42)], then the
    reply is sent.  [req] is the 12-byte connection request. *)
Definition negotiateByteOrder (req : list Z) : bool :=
  bool_decide (byteAt req 0 = 0x42).

Definition handshakeReply (req : list Z) (width height : Z) (body0 : list Z)
  : list Z :=
  sendConnectionReply (negotiateByteOrder req) width height body0.

(** Value of a byte string read most-significant-byte first, respectively
    least-significant-byte first: the two byte orders of the X11 wire
    format, written independently of [write16] and [write32]. *)
Definition decode_be (bs : list Z) : Z := foldl (fun acc b => acc * 256 + b) 0 bs.
Definition decode_le (bs : list Z) : Z := decode_be (reverse bs).
Definition fieldBytes (p : list Z) (off n : nat) : list Z := take n (drop off p).
Definition decodeField (msb : bool) (p : list Z) (off n : nat) : Z :=
  if msb then decode_be (fieldBytes p off n) else decode_le (fieldBytes p off n).

(** The multi-byte integer fields of the setup reply, as (offset, size in
    bytes, value), in the order [sendConnectionReply] writes them. *)
Definition fld (off n : nat) (v : Z) : nat * nat * Z := (off, n, v).

Definition setupFields (width height : Z) : list (nat * nat * Z) :=
  [ fld 2 2 kX11Major; fld 4 2 kX11Minor; fld 6 2 28;
    fld 8 4 0; fld 12 4 0x00200000; fld 16 4 0x001FFFFF; fld 20 4 256;
    fld 24 2 0; fld 26 2 32767;
    fld 42 2 32;
    fld 48 4 kRootWindowId; fld 52 4 kDefaultColormapId;
    fld 56 4 kWhitePixel; fld 60 4 kBlackPixel; fld 64 4 0;
    fld 68 2 (u16 width); fld 70 2 (u16 height);
    fld 72 2 (u16 (Z.quot (width * 254) 100));
    fld 74 2 (u16 (Z.quot (height * 254) 100));
    fld 76 2 0; fld 78 2 0;
    fld 80 4 kDefaultVisualId;
    fld 90 2 1;
    fld 96 4 kDefaultVisualId; fld 102 2 256;
    fld 104 4 0xff0000; fld 108 4 0x00ff00; fld 112 4 0x0000ff ].

(** A reply or event built in a zero-filled array of [n] bytes
    ([uint8_t buf[n]; memset(buf, 0, n);] followed by the writes). *)
Definition buildPacket (msb : bool) (n : nat) (steps : list BufStep) : list Z :=
  fst (foldl (runBufStep msb) (repeat 0 n, O) steps).

(** ** Server state ([X11NativeDisplay::Impl]) *)

Record WindowPos := mkWindowPos { wp_x : Z; wp_y : Z; wp_parent : Z }.

Record PixmapData := mkPixmapData { pm_w : Z; pm_h : Z; pm_pixels : list Z }.

(** The window bookkeeping, guarded in the source by [windowMapMutex]. *)
Record WindowTable := mkWindowTable {
  childWindows : list Z;
  windowSizes : gmap Z (Z * Z);
  windowPositions : gmap Z WindowPos;
  unmappedWindows : gset Z;
  windowEventMasks : gmap Z Z
}.

(** The pixel state, guarded in the source by [bufferMutex]. *)
Record Surface := mkSurface {
  width : Z;
  height : Z;
  framebuffer : list Z;
  dirty : bool;
  originalChildW : Z;
  originalChildH : Z;
  pluginWidth : Z;
  pluginHeight : Z;
  pixmaps : gmap Z PixmapData
}.

Record AtomTable := mkAtomTable {
  atomNameToId : gmap (list Z) Z;
  atomIdToName : gmap Z (list Z);
  nextAtomId : Z
}.

Record Impl := mkImpl {
  wins : WindowTable;
  surf : Surface;
  atoms : AtomTable;
  msbFirst_ : bool;
  lastReplySeq_ : Z
}.

Definition setWins (w : WindowTable) (s : Impl) : Impl :=
  mkImpl w (surf s) (atoms s) (msbFirst_ s) (lastReplySeq_ s).
Definition setSurf (f : Surface) (s : Impl) : Impl :=
  mkImpl (wins s) f (atoms s) (msbFirst_ s) (lastReplySeq_ s).
Definition setAtoms (a : AtomTable) (s : Impl) : Impl :=
  mkImpl (wins s) (surf s) a (msbFirst_ s) (lastReplySeq_ s).
Definition setLastReplySeq (q : Z) (s : Impl) : Impl :=
  mkImpl (wins s) (surf s) (atoms s) (msbFirst_ s) q.

(** State at the start of a connection on a freshly attached display:
    [attachSurface] fills the framebuffer with the background colour at the
    surface size, and [serverLoop] clears the window and pixmap tables on
    accept. *)
Definition bgX11 : Z := 0xFF302020.

Definition emptyWindowTable : WindowTable := mkWindowTable [] ∅ ∅ ∅ ∅.

Definition initialImpl (w h : Z) (msb : bool) : Impl :=
  mkImpl emptyWindowTable
         (mkSurface w h (repeat bgX11 (Z.to_nat (w * h))) true 0 0 0 0 ∅)
         (mkAtomTable ∅ ∅ 1)
         msb 0.

(** A handler returns the new state and the packets it wrote to the client
    socket, oldest first. *)
Definition Packets := list (list Z).

(** [sendReply]: the reply is written and [lastReplySeq_] records its
    sequence number. *)
Definition sendReply (data : list Z) (replySeq : Z) (s : Impl) : Impl * Packets :=
  (setLastReplySeq replySeq s, [data]).

(** ** [Impl::getAbsolutePos] *)

(** [!childWindows.empty() && cur == childWindows[0]], then
    [cur == kRootWindowId || cur == 0]. *)
Definition walkStops (t : WindowTable) (cur : Z) : bool :=
  match childWindows t with
  | top :: _ => bool_decide (cur = top)
  | [] => false
  end
  || bool_decide (cur = kRootWindowId) || bool_decide (cur = 0).

(** The loop [for (int depth = 0; depth < 32; depth++)], the remaining
    number of iterations being the structural argument. *)
Fixpoint absWalk (t : WindowTable) (remaining : nat) (ax ay cur : Z) : Z * Z :=
  match remaining with
  | O => (ax, ay)
  | S remaining' =>
      match windowPositions t !! cur with
      | None => (ax, ay)
      | Some p =>
          let ax' := ax + wp_x p in
          let ay' := ay + wp_y p in
          let cur' := wp_parent p in
          if walkStops t cur' then (ax', ay')
          else absWalk t remaining' ax' ay' cur'
      end
  end.

Definition getAbsolutePos (t : WindowTable) (wid : Z) : Z * Z :=
  absWalk t 32 0 0 wid.

(** The same loop as a transition system on its variables, with no bound
    other than the source's own test [depth < 32]; used to state that the
    loop terminates. *)
Record WalkVars := mkWalkVars { wv_ax : Z; wv_ay : Z; wv_cur : Z; wv_depth : Z }.

Inductive WalkNext :=
| WalkAgain (v : WalkVars)       (* the body ran to its end; depth++      *)
| WalkBreak (ax ay : Z)          (* a [break] inside the body             *)
| WalkDone (ax ay : Z).          (* the test [depth < 32] failed          *)

Definition walkIter (t : WindowTable) (v : WalkVars) : WalkNext :=
  if decide (wv_depth v < 32) then
    match windowPositions t !! wv_cur v with
    | None => WalkBreak (wv_ax v) (wv_ay v)
    | Some p =>
        let ax' := wv_ax v + wp_x p in
        let ay' := wv_ay v + wp_y p in
        let cur' := wp_parent p in
        if walkStops t cur' then WalkBreak ax' ay'
        else WalkAgain (mkWalkVars ax' ay' cur' (wv_depth v + 1))
    end
  else WalkDone (wv_ax v) (wv_ay v).

(** [walkRuns t v n r]: started with variables [v], the loop enters its body
    [n] times and then returns [r]. *)
Inductive walkRuns (t : WindowTable) : WalkVars -> nat -> Z * Z -> Prop :=
| walkRuns_done v ax ay :
    walkIter t v = WalkDone ax ay -> walkRuns t v 0 (ax, ay)
| walkRuns_break v ax ay :
    walkIter t v = WalkBreak ax ay -> walkRuns t v 1 (ax, ay)
| walkRuns_again v v' n r :
    walkIter t v = WalkAgain v' -> walkRuns t v' n r -> walkRuns t v (S n) r.

Definition walkStart (wid : Z) : WalkVars := mkWalkVars 0 0 wid 0.

(** ** [Impl::hitTestChildWindow] *)

Record HitResult := mkHitResult { hr_wid : Z; hr_localX : Z; hr_localY : Z }.

(** The body of the loop for one candidate: [Some] is [best = ...; break],
    [None] is [continue] or falling off the end of the body. *)
Definition hitCandidate (t : WindowTable) (x y wid : Z) : option HitResult :=
  if decide (wid ∈ unmappedWindows t) then None
  else
    match windowPositions t !! wid, windowSizes t !! wid with
    | Some _, Some (ww, wh) =>
        let '(wx, wy) := getAbsolutePos t wid in
        if decide (x >= wx /\ x < wx + ww /\ y >= wy /\ y < wy + wh)
        then Some (mkHitResult wid (x - wx) (y - wy))
        else None
    | _, _ => None
    end.

(** The candidates in visiting order. *)
Fixpoint hitScan (t : WindowTable) (x y : Z) (cands : list Z) : option HitResult :=
  match cands with
  | [] => None
  | wid :: rest =>
      match hitCandidate t x y wid with
      | Some r => Some r
      | None => hitScan t x y rest
      end
  end.

Definition topWindow (t : WindowTable) : Z :=
  match childWindows t with
  | [] => kRootWindowId
  | top :: _ => top
  end.

(** [for (int i = size - 1; i >= 1; i--)] visits [childWindows] from its
    last element down to its second one. *)
Definition hitTestChildWindow (t : WindowTable) (x y : Z) : HitResult :=
  default (mkHitResult (topWindow t) x y)
          (hitScan t x y (reverse (tail (childWindows t)))).

(** ** Events *)

(** The 32-byte Expose event as every handler builds it: type, sequence
    number, window, x = y = 0, width, height, count = 0. *)
Definition exposeEvent (msb : bool) (evtSeq wid w h : Z) : list Z :=
  buildPacket msb 32
    [ PutAt 0 X11Event.Expose; W16 2 evtSeq; W32 4 wid;
      W16 8 0; W16 10 0; W16 12 (u16 w); W16 14 (u16 h); W16 16 0 ].

Definition configureNotifyEvent (msb : bool) (evtSeq wid w h : Z) : list Z :=
  buildPacket msb 32
    [ PutAt 0 22; W16 2 evtSeq; W32 4 wid; W32 8 wid; W32 12 0;
      W16 16 0; W16 18 0; W16 20 (u16 w); W16 22 (u16 h); W16 24 0;
      PutAt 26 0 ].

Definition isExpose (pkt : list Z) : bool := bool_decide (byteAt pkt 0 = X11Event.Expose).
Definition isConfigureNotify (pkt : list Z) : bool :=
  bool_decide (byteAt pkt 0 = X11Event.ConfigureNotify).

(** ** CreateWindow *)

Record CreateWindowReq := mkCreateWindowReq {
  cw_wid : Z; cw_parent : Z; cw_x : Z; cw_y : Z; cw_width : Z; cw_height : Z
}.

Definition parseCreateWindow (msb : bool) (buf : list Z) : CreateWindowReq :=
  mkCreateWindowReq (read32 msb buf 4) (read32 msb buf 8)
                    (s16 (read16 msb buf 12)) (s16 (read16 msb buf 14))
                    (read16 msb buf 16) (read16 msb buf 18).

Definition createWindow (r : CreateWindowReq) (s : Impl) : Impl * Packets :=
  let t := wins s in
  let t' := mkWindowTable
              (childWindows t ++ [cw_wid r])
              (<[cw_wid r := (cw_width r, cw_height r)]> (windowSizes t))
              (<[cw_wid r := mkWindowPos (cw_x r) (cw_y r) (cw_parent r)]>
                 (windowPositions t))
              ({[cw_wid r]} ∪ unmappedWindows t)
              (windowEventMasks t) in
  let f := surf s in
  let f' :=
    if decide (pluginWidth f = 0 /\ cw_width r > 0 /\ cw_height r > 0)
    then mkSurface (width f) (height f)
                   (repeat bgX11 (Z.to_nat (cw_width r * cw_height r)))
                   (dirty f)
                   (cw_width r) (cw_height r) (cw_width r) (cw_height r)
                   (pixmaps f)
    else f in
  (setSurf f' (setWins t' s),
   [exposeEvent (msbFirst_ s) (lastReplySeq_ s) (cw_wid r) (cw_width r) (cw_height r)]).

(** The handler's test [length == 0] cannot succeed: the request loop has
    taken the BigRequests branch for such a header. *)
Definition handleCreateWindow (buf : list Z) (s : Impl) : Impl * Packets :=
  createWindow (parseCreateWindow (msbFirst_ s) buf) s.

(** ** MapWindow *)

(** One pass of [for (auto& [cw, pos] : windowPositions)] inside the
    [while (changed)] loop that collects the subtree of a popup.  The
    iteration order of an [unordered_map] is unspecified; the pass is taken
    in the order of [map_to_list]. *)
Definition subtreePass (positions : gmap Z WindowPos) (subtree : gset Z)
  : gset Z * bool :=
  foldl (fun '(st, changed) '(cw, pos) =>
           if decide (wp_parent pos ∈ st /\ cw ∉ st)
           then ({[cw]} ∪ st, true)
           else (st, changed))
        (subtree, false) (map_to_list positions).

(** [while (changed) { changed = false; ... }], with the number of passes
    still allowed as structural argument; [collectSubtree] below allows one
    pass more than there are windows, which is enough to reach the fixed
    point (lemma [collectSubtree_closed]). *)
Fixpoint subtreeLoop (positions : gmap Z WindowPos) (passes : nat) (subtree : gset Z)
  : gset Z :=
  match passes with
  | O => subtree
  | S passes' =>
      let '(st, changed) := subtreePass positions subtree in
      if changed then subtreeLoop positions passes' st else st
  end.

Definition collectSubtree (positions : gmap Z WindowPos) (wid : Z) : gset Z :=
  subtreeLoop positions (S (size positions)) {[wid]}.

(** The reordering of [childWindows] when a popup (a child of the root other
    than the top-level window) is mapped. *)
Definition raiseSubtree (t : WindowTable) (wid : Z) : list Z :=
  match childWindows t with
  | top :: _ =>
      if decide (wid ≠ top) then
        match windowPositions t !! wid with
        | Some pos =>
            if decide (wp_parent pos = kRootWindowId) then
              let subtree := collectSubtree (windowPositions t) wid in
              let toMove := merge_sort Z.le (elements subtree) in
              filter (fun w => w ∉ subtree) (childWindows t) ++ toMove
            else childWindows t
        | None => childWindows t
        end
      else childWindows t
  | [] => []
  end.

Definition mapWindow (wid : Z) (s : Impl) : Impl * Packets :=
  let t := wins s in
  let unmapped' := unmappedWindows t ∖ {[wid]} in
  let t' := mkWindowTable (raiseSubtree t wid) (windowSizes t) (windowPositions t)
                          unmapped' (windowEventMasks t) in
  let '(expW, expH) :=
    match windowSizes t !! wid with
    | Some sz => sz
    | None => (width (surf s), height (surf s))
    end in
  (setWins t' s, [exposeEvent (msbFirst_ s) (lastReplySeq_ s) wid expW expH]).

Definition handleMapWindow (buf : list Z) (s : Impl) : Impl * Packets :=
  mapWindow (read32 (msbFirst_ s) buf 4) s.

(** ** UnmapWindow *)

Definition unmapWindow (umWid : Z) (s : Impl) : Impl * Packets :=
  let t := wins s in
  let t' := mkWindowTable (childWindows t) (windowSizes t) (windowPositions t)
                          ({[umWid]} ∪ unmappedWindows t) (windowEventMasks t) in
  let evts :=
    match childWindows t with
    | topWin :: _ =>
        if decide (umWid ≠ topWin) then
          match windowPositions t !! umWid with
          | Some pos =>
              if decide (wp_parent pos = kRootWindowId) then
                match windowSizes t !! topWin with
                | Some (tw, th) =>
                    [exposeEvent (msbFirst_ s) (lastReplySeq_ s) topWin tw th]
                | None => []
                end
              else []
          | None => []
          end
        else []
    | [] => []
    end in
  (setWins t' s, evts).

Definition handleUnmapWindow (buf : list Z) (s : Impl) : Impl * Packets :=
  unmapWindow (read32 (msbFirst_ s) buf 4) s.

(** ** DestroyWindow *)

Definition destroyWindow (window : Z) (s : Impl) : Impl * Packets :=
  let t := wins s in
  let t' := mkWindowTable
              (filter (fun w => w ≠ window) (childWindows t))
              (delete window (windowSizes t))
              (delete window (windowPositions t))
              (unmappedWindows t ∖ {[window]})
              (delete window (windowEventMasks t)) in
  (setWins t' s, []).

Definition handleDestroyWindow (buf : list Z) (s : Impl) : Impl * Packets :=
  destroyWindow (read32 (msbFirst_ s) buf 4) s.

(** ** ConfigureWindow *)

(** The fields the handler extracts from the request: the window, and for
    each of the value-mask bits X, Y, Width, Height the value that follows
    when the bit is set ([None] when it is clear). *)
Record ConfigureReq := mkConfigureReq {
  cfg_wid : Z;
  cfg_x : option Z;
  cfg_y : option Z;
  cfg_w : option Z;
  cfg_h : option Z
}.

(** Values follow the mask in bit order; [valOff] starts at byte 12 and
    advances by 4 for every value read. *)
Definition parseConfigureWindow (msb : bool) (buf : list Z) : ConfigureReq :=
  let cfgWid := read32 msb buf 4 in
  let vmask := read16 msb buf 8 in
  let valOff := 12%nat in
  let '(vx, valOff) :=
    if Z.testbit vmask 0 then (Some (s32 (read32 msb buf valOff)), (valOff + 4)%nat)
    else (None, valOff) in
  let '(vy, valOff) :=
    if Z.testbit vmask 1 then (Some (s32 (read32 msb buf valOff)), (valOff + 4)%nat)
    else (None, valOff) in
  let '(vw, valOff) :=
    if Z.testbit vmask 2 && bool_decide (valOff + 4 <= 256)%nat
    then (Some (s32 (read32 msb buf valOff)), (valOff + 4)%nat)
    else (None, valOff) in
  let '(vh, valOff) :=
    if Z.testbit vmask 3 && bool_decide (valOff + 4 <= 256)%nat
    then (Some (s32 (read32 msb buf valOff)), (valOff + 4)%nat)
    else (None, valOff) in
  mkConfigureReq cfgWid vx vy vw vh.

(** [posIt->second.x = newX] when the window has a position entry and the
    value differs; the flag is [posChanged]. *)
Definition configureX (cfgWid newX : Z) (positions : gmap Z WindowPos)
  : gmap Z WindowPos * bool :=
  match positions !! cfgWid with
  | Some pos =>
      if decide (wp_x pos ≠ newX)
      then (<[cfgWid := mkWindowPos newX (wp_y pos) (wp_parent pos)]> positions, true)
      else (positions, false)
  | None => (positions, false)
  end.

Definition configureY (cfgWid newY : Z) (positions : gmap Z WindowPos)
  : gmap Z WindowPos * bool :=
  match positions !! cfgWid with
  | Some pos =>
      if decide (wp_y pos ≠ newY)
      then (<[cfgWid := mkWindowPos (wp_x pos) newY (wp_parent pos)]> positions, true)
      else (positions, false)
  | None => (positions, false)
  end.

(** [std::vector::resize(n, v)]: existing elements are kept, new ones are
    [v]. *)
Definition resizeVec (n : nat) (v : Z) (l : list Z) : list Z :=
  take n l ++ repeat v (n - length l).

(** The X and Y part of the handler: the new position table and
    [posChanged]. *)
Definition configurePos (r : ConfigureReq) (positions : gmap Z WindowPos)
  : gmap Z WindowPos * bool :=
  let '(pos1, chX) :=
    match cfg_x r with
    | Some newX => configureX (cfg_wid r) newX positions
    | None => (positions, false)
    end in
  let '(pos2, chY) :=
    match cfg_y r with
    | Some newY => configureY (cfg_wid r) newY pos1
    | None => (pos1, false)
    end in
  (pos2, chX || chY).

(** [exposeTopWid], [exposeTopW], [exposeTopH]: captured when the position
    changed and there is a window, before any size is updated. *)
Definition exposeTopInfo (t : WindowTable) (posChanged : bool) : Z * Z * Z :=
  match childWindows t with
  | top :: _ =>
      if posChanged then
        match windowSizes t !! top with
        | Some (tw, th) => (top, tw, th)
        | None => (top, 0, 0)
        end
      else (0, 0, 0)
  | [] => (0, 0, 0)
  end.

(** [isTopLevel]: [!childWindows.empty() && cfgWid == childWindows[0]]. *)
Definition isTopLevelWindow (t : WindowTable) (wid : Z) : bool :=
  match childWindows t with
  | top :: _ => bool_decide (wid = top)
  | [] => false
  end.

(** [newW] and [newH] are -1 when the value-mask bit is clear; the size part
    of the handler runs when the window is in the window list and one of
    them is positive. *)
Definition cfgSizing (r : ConfigureReq) (t : WindowTable) : bool :=
  bool_decide (cfg_wid r ∈ childWindows t)
  && (bool_decide (default (-1) (cfg_w r) > 0) || bool_decide (default (-1) (cfg_h r) > 0)).

(** [stored] is [windowSizes[cfgWid]], which inserts (0, 0) when there is no
    entry. *)
Definition cfgStored (r : ConfigureReq) (t : WindowTable) : Z * Z :=
  default (0, 0) (windowSizes t !! cfg_wid r).

Definition cfgFinalW (r : ConfigureReq) (t : WindowTable) : Z :=
  if decide (default (-1) (cfg_w r) > 0) then default (-1) (cfg_w r)
  else (cfgStored r t).1.

Definition cfgFinalH (r : ConfigureReq) (t : WindowTable) : Z :=
  if decide (default (-1) (cfg_h r) > 0) then default (-1) (cfg_h r)
  else (cfgStored r t).2.

Definition cfgSizeChanged (r : ConfigureReq) (s : Impl) : bool :=
  let t := wins s in
  cfgSizing r t &&
  (if isTopLevelWindow t (cfg_wid r)
   then bool_decide (cfgFinalW r t ≠ pluginWidth (surf s)
                     \/ cfgFinalH r t ≠ pluginHeight (surf s))
   else bool_decide (cfgFinalW r t ≠ (cfgStored r t).1
                     \/ cfgFinalH r t ≠ (cfgStored r t).2)).

Definition configureWindow (r : ConfigureReq) (s : Impl) : Impl * Packets :=
  let t := wins s in
  let f := surf s in
  let cfgWid := cfg_wid r in
  (* position *)
  let '(positions', posChanged) := configurePos r (windowPositions t) in
  let '(exposeTopWid, exposeTopW, exposeTopH) := exposeTopInfo t posChanged in
  (* size *)
  let finalW := cfgFinalW r t in
  let finalH := cfgFinalH r t in
  let sizeChanged := cfgSizeChanged r s in
  let sizes' :=
    if cfgSizing r t then <[cfgWid := (finalW, finalH)]> (windowSizes t)
    else windowSizes t in
  let f' :=
    if sizeChanged && isTopLevelWindow t cfgWid
    then mkSurface (width f) (height f)
                   (resizeVec (Z.to_nat (finalW * finalH)) bgX11 (framebuffer f))
                   (dirty f) (originalChildW f) (originalChildH f)
                   finalW finalH (pixmaps f)
    else f in
  let sizeEvts :=
    if sizeChanged
    then [ configureNotifyEvent (msbFirst_ s) (lastReplySeq_ s) cfgWid finalW finalH;
           exposeEvent (msbFirst_ s) (lastReplySeq_ s) cfgWid finalW finalH ]
    else [] in
  let posEvts :=
    if posChanged && bool_decide (exposeTopWid ≠ 0)
       && bool_decide (exposeTopW > 0) && bool_decide (exposeTopH > 0)
    then [ exposeEvent (msbFirst_ s) (lastReplySeq_ s) exposeTopWid exposeTopW exposeTopH ]
    else [] in
  let t' := mkWindowTable (childWindows t) sizes' positions'
                          (unmappedWindows t) (windowEventMasks t) in
  (setSurf f' (setWins t' s), sizeEvts ++ posEvts).

Definition handleConfigureWindow (buf : list Z) (s : Impl) : Impl * Packets :=
  configureWindow (parseConfigureWindow (msbFirst_ s) buf) s.

(** ** GetGeometry *)

Section geometry.
  (** [uiScale] is a [float]; the only use the source makes of it is
      [(int)(n * uiScale)], which the handlers take as the function
      [scaleToInt].  [scaleByUiScale uiScale], defined behind this section,
      is that function for a given value of [uiScale]. *)
Variable scaleToInt : Z -> Z.

  (** The size the handler reports, then the position. *)
Definition geometrySize (drawable : Z) (s : Impl) : Z * Z :=
    match windowSizes (wins s) !! drawable with
    | Some sz => sz
    | None =>
        if decide (drawable = kRootWindowId /\ originalChildW (surf s) > 0) then
          let geoWidth := scaleToInt (originalChildW (surf s)) in
          let geoHeight := scaleToInt (originalChildH (surf s)) in
          (if decide (geoWidth < 1) then 1 else geoWidth,
           if decide (geoHeight < 1) then 1 else geoHeight)
        else (width (surf s), height (surf s))
    end.

Definition geometryPos (drawable : Z) (s : Impl) : Z * Z :=
    match windowPositions (wins s) !! drawable with
    | Some pos => (wp_x pos, wp_y pos)
    | None => (0, 0)
    end.

Definition replyGetGeometry (msb : bool) (seq root x y w h : Z) : list Z :=
    buildPacket msb 32
      [ PutAt 0 1; PutAt 1 24; W16 2 seq; W32 4 0; W32 8 root;
        W16 12 (u16 x); W16 14 (u16 y); W16 16 (u16 w); W16 18 (u16 h);
        W16 20 0 ].

Definition getGeometry (seq drawable : Z) (s : Impl) : Impl * Packets :=
    let '(geoWidth, geoHeight) := geometrySize drawable s in
    let '(geoX, geoY) := geometryPos drawable s in
    sendReply (replyGetGeometry (msbFirst_ s) seq kRootWindowId geoX geoY geoWidth geoHeight)
              seq s.

Definition handleGetGeometry (seq : Z) (buf : list Z) (s : Impl) : Impl * Packets :=
    getGeometry seq (read32 (msbFirst_ s) buf 4) s.
End geometry.

(** *** The UI scale factor *)

(** A [float] is an IEEE 754 binary32 number: a [spec_float] of precision 24
    and maximal exponent 128, with the operations of the Standard Library's
    [SpecFloat] (round to nearest, ties to even).  [f32 m e] is the [float]
    nearest to [m * 2^e]. *)
Definition f32 (m e : Z) : SpecFloat.spec_float :=
  SpecFloat.binary_normalize 24 128 m e false.

(** [impl_->uiScale = 1.0f], the value the constructor sets. *)
Definition uiScaleDefault : SpecFloat.spec_float := f32 1 0.

(** The conversion of an [int] operand to [float]. *)
Definition intToFloat (n : Z) : SpecFloat.spec_float := f32 n 0.

(** [(int)x]: the value of a finite [float] truncated toward zero.  The
    language leaves the conversion undefined for a NaN, an infinity and a
    value outside the range of [int]; the model gives 0 for the first two
    and the truncated value for the last. *)
Definition floatToInt (x : SpecFloat.spec_float) : Z :=
  match x with
  | SpecFloat.S754_finite sign m e =>
      let magnitude := if 0 <=? e then Z.pos m * 2 ^ e else Z.pos m / 2 ^ (- e) in
      if sign then - magnitude else magnitude
  | _ => 0
  end.

(** [(int)(n * uiScale)] for an [int n]: [n] is converted to [float], the
    product is a [float] multiplication, the result is truncated. *)
Definition scaleByUiScale (uiScale : SpecFloat.spec_float) (n : Z) : Z :=
  floatToInt (SpecFloat.SFmul 24 128 (intToFloat n) uiScale).

(** ** InternAtom and GetAtomName *)

(** [name.assign(buf + 8, nameLen)] when [0 < nameLen <= 256], the empty
    string otherwise.  The request buffer holds 256 bytes, so a name longer
    than 248 bytes does not fit behind offset 8; the source then reads past
    the array, the model stops at its end. *)
Definition internAtomName (msb : bool) (buf : list Z) : list Z :=
  let nameLen := read16 msb buf 4 in
  if decide (nameLen > 0 /\ nameLen <= 256)
  then take (Z.to_nat nameLen) (drop 8 buf)
  else [].

(** The table update; the result is the atom of the reply. *)
Definition internAtom (onlyIfExists : Z) (name : list Z) (a : AtomTable)
  : AtomTable * Z :=
  match atomNameToId a !! name with
  | Some atomId => (a, atomId)
  | None =>
      if decide (onlyIfExists = 0 /\ name ≠ []) then
        let atomId := nextAtomId a in
        (mkAtomTable (<[name := atomId]> (atomNameToId a))
                     (<[atomId := name]> (atomIdToName a))
                     (u32 (nextAtomId a + 1)),
         atomId)
      else (a, 0)
  end.

Definition replyInternAtom (msb : bool) (seq atomId : Z) : list Z :=
  buildPacket msb 32 [ PutAt 0 1; W16 2 seq; W32 8 atomId ].

Definition handleInternAtom (seq : Z) (buf : list Z) (s : Impl) : Impl * Packets :=
  let onlyIfExists := byteAt buf 1 in
  let name := internAtomName (msbFirst_ s) buf in
  let '(a', atomId) := internAtom onlyIfExists name (atoms s) in
  sendReply (replyInternAtom (msbFirst_ s) seq atomId) seq (setAtoms a' s).

(** The name [GetAtomName] looks up. *)
Definition getAtomName (atomId : Z) (a : AtomTable) : list Z :=
  default [] (atomIdToName a !! atomId).

(** [memcpy(p + off, src, length src)]. *)
Definition copyInto (p : list Z) (off : nat) (src : list Z) : list Z :=
  take off p ++ src ++ drop (off + length src) p.

Definition replyGetAtomName (msb : bool) (seq : Z) (name : list Z) : list Z :=
  let nameLen := u16 (Z.of_nat (length name)) in
  let pad := (4 - nameLen mod 4) mod 4 in
  let replyLen := (nameLen + pad) / 4 in
  let replySize := 32 + nameLen + pad in
  let reply :=
    buildPacket msb (Z.to_nat replySize)
      [ PutAt 0 1; W16 2 seq; W32 4 replyLen; W16 8 nameLen ] in
  if decide (nameLen > 0) then copyInto reply 32 (take (Z.to_nat nameLen) name)
  else reply.

(** The name carried by a [GetAtomName] reply: [nameLen] at bytes 8-9, the
    string from byte 32 on. *)
Definition replyAtomName (msb : bool) (reply : list Z) : list Z :=
  take (Z.to_nat (read16 msb reply 8)) (drop 32 reply).

Definition handleGetAtomName (seq : Z) (buf : list Z) (s : Impl) : Impl * Packets :=
  let atomId := read32 (msbFirst_ s) buf 4 in
  sendReply (replyGetAtomName (msbFirst_ s) seq (getAtomName atomId (atoms s))) seq s.

(** ** Pixmaps *)

Definition createPixmap (pid pw ph : Z) (s : Impl) : Impl * Packets :=
  let f := surf s in
  let pd := mkPixmapData pw ph (resizeVec (Z.to_nat (pw * ph)) bgX11 []) in
  (setSurf (mkSurface (width f) (height f) (framebuffer f) (dirty f)
                      (originalChildW f) (originalChildH f)
                      (pluginWidth f) (pluginHeight f)
                      (<[pid := pd]> (pixmaps f))) s, []).

Definition handleCreatePixmap (buf : list Z) (s : Impl) : Impl * Packets :=
  createPixmap (read32 (msbFirst_ s) buf 4)
               (read16 (msbFirst_ s) buf 12) (read16 (msbFirst_ s) buf 14) s.

Definition freePixmap (pid : Z) (s : Impl) : Impl * Packets :=
  let f := surf s in
  (setSurf (mkSurface (width f) (height f) (framebuffer f) (dirty f)
                      (originalChildW f) (originalChildH f)
                      (pluginWidth f) (pluginHeight f)
                      (delete pid (pixmaps f))) s, []).

Definition handleFreePixmap (buf : list Z) (s : Impl) : Impl * Packets :=
  freePixmap (read32 (msbFirst_ s) buf 4) s.

(** ** Pixels and loops *)

(** [for (int i = 0; i < n; i++) acc = body(i, acc)]. *)
Definition forRange {A : Type} (n : Z) (body : Z -> A -> A) (init : A) : A :=
  foldl (fun acc i => body i acc) init (seqZ 0 n).

(** A [uint32_t] read from, or written to, four consecutive bytes by
    [memcpy] or through a [reinterpret_cast] on the little-endian host. *)
Definition load32 (p : list Z) (i : nat) : Z :=
  Z.lor (Z.lor (Z.lor (byteAt p i) (Z.shiftl (byteAt p (i + 1)) 8))
               (Z.shiftl (byteAt p (i + 2)) 16))
        (Z.shiftl (byteAt p (i + 3)) 24).

Definition store32 (v : Z) : list Z :=
  [ u8 v; u8 (Z.shiftr v 8); u8 (Z.shiftr v 16); u8 (Z.shiftr v 24) ].

(** [dst[i] = v] on a pixel buffer ([i] is in range wherever the source
    performs the write). *)
Definition setPixel (dst : list Z) (i : Z) (v : Z) : list Z :=
  <[Z.to_nat i := v]> dst.

Definition pixelAt (src : list Z) (i : Z) : Z := default 0 (src !! Z.to_nat i).

Definition forceOpaque (pixel : Z) : Z := Z.lor pixel 0xFF000000.

(** [swapRB_neon] on one pixel. *)
Definition swapRB (p : Z) : Z :=
  Z.lor (Z.lor (Z.land p 0xFF00FF00) (Z.shiftl (Z.land p 0xFF) 16))
        (Z.land (Z.shiftr p 16) 0xFF).

(** ** The client socket *)

(** The client socket is the sequence of bytes the client wrote and the
    server has not read yet.  [recvAll] returns the next [n] bytes, or fails
    when the peer stops before sending them. *)
Definition recvAll (n : nat) (stream : list Z) : option (list Z * list Z) :=
  if decide (n <= length stream)%nat
  then Some (take n stream, drop n stream)
  else None.

(** A [recvAll] whose result the source ignores: the bytes that arrive are
    consumed, and the handler goes on in either case. *)
Definition recvIgnoringResult (n : nat) (stream : list Z) : list Z * list Z :=
  (take n stream, drop n stream).

(** ** PutImage *)

Record PutImageReq := mkPutImageReq {
  pi_drawable : Z; pi_w : Z; pi_h : Z; pi_x : Z; pi_y : Z
}.

Definition parsePutImage (msb : bool) (buf : list Z) : PutImageReq :=
  mkPutImageReq (read32 msb buf 4) (read16 msb buf 12) (read16 msb buf 14)
                (s16 (read16 msb buf 16)) (s16 (read16 msb buf 18)).

Record ClipRect := mkClipRect { cr_x1 : Z; cr_y1 : Z; cr_x2 : Z; cr_y2 : Z }.

(** The rectangles of the mapped children of [drawable] that have a size
    entry, at their absolute positions. *)
Definition collectChildClip (t : WindowTable) (drawable : Z) : list ClipRect :=
  omap (fun '(cwid, cpos) =>
          if decide (wp_parent cpos = drawable /\ cwid ∉ unmappedWindows t) then
            match windowSizes t !! cwid with
            | Some (cw, ch) =>
                let '(cx, cy) := getAbsolutePos t cwid in
                Some (mkClipRect cx cy (cx + cw) (cy + ch))
            | None => None
            end
          else None)
       (map_to_list (windowPositions t)).

Definition inClip (dstX dstY : Z) (cr : ClipRect) : bool :=
  bool_decide (dstX >= cr_x1 cr /\ dstX < cr_x2 cr /\ dstY >= cr_y1 cr /\ dstY < cr_y2 cr).

Definition clipped (childClip : list ClipRect) (dstX dstY : Z) : bool :=
  existsb (inClip dstX dstY) childClip.

(** The three copy loops of the handler on a destination buffer of
    [dW] x [dH] pixels. *)
Definition putFast (pixels dst : list Z) (dW x y w h : Z) : list Z :=
  forRange h (fun row dst =>
    forRange w (fun col dst =>
      setPixel dst ((y + row) * dW + x + col)
               (forceOpaque (load32 pixels (Z.to_nat ((row * w + col) * 4)))))
      dst) dst.

Definition putFastClip (childClip : list ClipRect) (pixels dst : list Z)
    (dW x y w h : Z) : list Z :=
  forRange h (fun row dst =>
    let dstY := y + row in
    forRange w (fun col dst =>
      let dstX := x + col in
      if clipped childClip dstX dstY then dst
      else setPixel dst (dstY * dW + x + col)
                    (forceOpaque (load32 pixels (Z.to_nat ((row * w + col) * 4)))))
      dst) dst.

Definition putSlow (msb : bool) (childClip : list ClipRect) (pixels dst : list Z)
    (dW dH x y w h : Z) : list Z :=
  let maxPixelIdx := Z.of_nat (length pixels) in
  forRange h (fun row dst =>
    let dstY := y + row in
    if decide (dstY < 0 \/ dstY >= dH) then dst else
    forRange w (fun col dst =>
      let dstX := x + col in
      if decide (dstX < 0 \/ dstX >= dW) then dst else
      if clipped childClip dstX dstY then dst else
      let srcIdx := (row * w + col) * 4 in
      if decide (srcIdx + 3 >= maxPixelIdx) then dst else
      let i := Z.to_nat srcIdx in
      let pixel :=
        if msb then
          u32 (Z.lor (Z.lor (Z.lor (Z.shiftl (byteAt pixels i) 24)
                                    (Z.shiftl (byteAt pixels (i + 1)) 16))
                             (Z.shiftl (byteAt pixels (i + 2)) 8))
                      (byteAt pixels (i + 3)))
        else load32 pixels i in
      setPixel dst (dstY * dW + dstX) (forceOpaque pixel))
      dst) dst.

Definition putPixels (msb : bool) (childClip : list ClipRect) (pixels dst : list Z)
    (dW dH x y w h : Z) : list Z :=
  let fullyCovered :=
    bool_decide (x >= 0 /\ y >= 0 /\ x + w <= dW /\ y + h <= dH
                 /\ Z.of_nat (length pixels) >= w * h * 4) in
  if fullyCovered && negb msb && bool_decide (childClip = [])
  then putFast pixels dst dW x y w h
  else if fullyCovered && negb msb
  then putFastClip childClip pixels dst dW x y w h
  else putSlow msb childClip pixels dst dW dH x y w h.

Definition fbWidth (f : Surface) : Z :=
  if decide (pluginWidth f > 0) then pluginWidth f else width f.
Definition fbHeight (f : Surface) : Z :=
  if decide (pluginHeight f > 0) then pluginHeight f else height f.

(** Which buffer a PutImage writes. *)
Inductive PutTarget :=
| ToFramebuffer
| ToPixmap (pd : PixmapData)
| NoTarget.

(** The handler once the pixel data ([pixelDataLen = length pixels] bytes)
    has been received; the caller has checked [0 < w, h <= 4096] and
    [pixelDataLen > 0]. *)
Definition putImage (r : PutImageReq) (pixels : list Z) (s : Impl) : Impl :=
  let t := wins s in
  let f := surf s in
  let drawable := pi_drawable r in
  let inList := bool_decide (drawable ∈ childWindows t) in
  let isRoot := negb inList && bool_decide (drawable = kRootWindowId) in
  let isWindow := inList || isRoot in
  let isTopLevel :=
    isRoot || (isWindow && match childWindows t with
                           | top :: _ => bool_decide (drawable = top)
                           | [] => false
                           end) in
  (* unmapped child windows are not painted *)
  let isWindow :=
    if isWindow && negb isTopLevel && bool_decide (drawable ∈ unmappedWindows t)
    then false else isWindow in
  let '(x, y) :=
    if isWindow && negb isTopLevel
    then let '(ax, ay) := getAbsolutePos t drawable in (pi_x r + ax, pi_y r + ay)
    else (pi_x r, pi_y r) in
  let childClip := if isWindow then collectChildClip t drawable else [] in
  let fbw := fbWidth f in
  let fbh := fbHeight f in
  let target :=
    if isWindow && bool_decide (Z.of_nat (length (framebuffer f)) = fbw * fbh)
    then ToFramebuffer
    else match pixmaps f !! drawable with
         | Some pd => ToPixmap pd
         | None => NoTarget
         end in
  match target with
  | ToFramebuffer =>
      let fb' := putPixels (msbFirst_ s) childClip pixels (framebuffer f)
                           fbw fbh x y (pi_w r) (pi_h r) in
      setSurf (mkSurface (width f) (height f) fb' (isWindow || dirty f)
                         (originalChildW f) (originalChildH f)
                         (pluginWidth f) (pluginHeight f) (pixmaps f)) s
  | ToPixmap pd =>
      let px' := putPixels (msbFirst_ s) childClip pixels (pm_pixels pd)
                           (pm_w pd) (pm_h pd) x y (pi_w r) (pi_h r) in
      setSurf (mkSurface (width f) (height f) (framebuffer f) (isWindow || dirty f)
                         (originalChildW f) (originalChildH f)
                         (pluginWidth f) (pluginHeight f)
                         (<[drawable := mkPixmapData (pm_w pd) (pm_h pd) px']> (pixmaps f))) s
  | NoTarget => s
  end.

(** The PutImage branch of the request loop after the 24 fixed bytes: the
    sanity checks on the size, the read of the [pixelDataLen] bytes of pixel
    data, and the handler; or the discard of the payload.  The result is
    the new state and the rest of the stream. *)
Definition receivePutImage (r : PutImageReq) (pixelDataLen : Z) (stream : list Z)
    (s : Impl) : Impl * list Z :=
  if decide (pi_w r > 0 /\ pi_h r > 0 /\ pi_w r <= 4096 /\ pi_h r <= 4096
             /\ pixelDataLen > 0) then
    match recvAll (Z.to_nat pixelDataLen) stream with
    | Some (pixels, stream) => (putImage r pixels s, stream)
    | None => (s, [])
    end
  else if decide (pixelDataLen > 0) then
    (* image too large or invalid dimensions: discard *)
    (s, (recvIgnoringResult (Z.to_nat pixelDataLen) stream).2)
  else (s, stream).

(** ** GetImage *)

Record GetImageReq := mkGetImageReq {
  gi_drawable : Z; gi_x : Z; gi_y : Z; gi_w : Z; gi_h : Z
}.

Definition parseGetImage (msb : bool) (buf : list Z) : GetImageReq :=
  mkGetImageReq (read32 msb buf 4) (s16 (read16 msb buf 8)) (s16 (read16 msb buf 10))
                (read16 msb buf 12) (read16 msb buf 14).

(** [gw] pixels of the source starting at pixel index [start] (one
    [memcpy(dst, srcBuf + start, gw * 4)]). *)
Definition pixelRun (src : list Z) (start gw : Z) : list Z :=
  (fun col => pixelAt src (start + col)) <$> seqZ 0 gw.

(** The pixel array of the reply as bytes in host order. *)
Definition pixelBytes (img : list Z) : list Z := flat_map store32 img.

(** Fast path: row [row] of the reply is copied from row [gy + row] of the
    source; the rows are consecutive in the reply and cover it entirely, so
    the earlier content of the reused reply buffer does not show. *)
Definition getFast (src : list Z) (srcW gx gy gw gh : Z) : list Z :=
  pixelBytes (flat_map (fun row => pixelRun src ((gy + row) * srcW + gx) gw) (seqZ 0 gh)).

(** Fully covered, [!useShadow], LSB first: the same rows through
    [swapRB_neon]. *)
Definition getFastSwap (src : list Z) (srcW gx gy gw gh : Z) : list Z :=
  pixelBytes (flat_map (fun row => swapRB <$> pixelRun src ((gy + row) * srcW + gx) gw)
                       (seqZ 0 gh)).

(** Partially covered, LSB first: the reply is zeroed, then the overlapping
    part of every overlapping row is copied. *)
Definition getPartial (useShadow : bool) (src : list Z) (srcW srcH gx gy gw gh : Z)
  : list Z :=
  let zero := repeat 0 (Z.to_nat (gw * gh)) in
  let startRow := Z.max 0 (- gy) in
  let endRow := Z.min gh (srcH - gy) in
  let startCol := Z.max 0 (- gx) in
  let endCol := Z.min gw (srcW - gx) in
  pixelBytes
    (if decide (startRow < endRow /\ startCol < endCol) then
       let copyW := endCol - startCol in
       forRange (endRow - startRow) (fun i img =>
         let row := startRow + i in
         let run := pixelRun src ((gy + row) * srcW + (gx + startCol)) copyW in
         copyInto img (Z.to_nat (row * gw + startCol))
                  (if useShadow then run else swapRB <$> run))
         zero
     else zero).

(** MSB-first slow path: the reply is zeroed, then written byte by byte. *)
Definition getSlowMsb (src : list Z) (srcW srcH gx gy gw gh : Z) : list Z :=
  forRange gh (fun row dst =>
    forRange gw (fun col dst =>
      let sx := gx + col in
      let sy := gy + row in
      if decide (sx >= 0 /\ sx < srcW /\ sy >= 0 /\ sy < srcH) then
        let pixel := pixelAt src (sy * srcW + sx) in
        let off := Z.to_nat ((row * gw + col) * 4) in
        <[(off + 3)%nat := u8 (Z.shiftr pixel 16)]>
          (<[(off + 2)%nat := u8 (Z.shiftr pixel 8)]>
             (<[(off + 1)%nat := u8 (Z.shiftr pixel 0)]>
                (<[off := u8 (Z.shiftr pixel 24)]> dst)))
      else dst)
      dst)
    (repeat 0 (Z.to_nat (gw * gh * 4))).

(** The image bytes of the reply (everything after the 32-byte header). *)
Definition getImageData (r : GetImageReq) (s : Impl) : list Z :=
  let t := wins s in
  let f := surf s in
  let drawable := gi_drawable r in
  let gx := gi_x r in let gy := gi_y r in
  let gw := gi_w r in let gh := gi_h r in
  let isWindow :=
    bool_decide (drawable ∈ childWindows t) || bool_decide (drawable = kRootWindowId) in
  (* source buffer, its size, and [useShadow] *)
  let source :=
    if isWindow && negb (bool_decide (framebuffer f = []))
    then Some (framebuffer f, fbWidth f, fbHeight f, true)
    else match pixmaps f !! drawable with
         | Some pd => Some (pm_pixels pd, pm_w pd, pm_h pd, true)
         | None => None
         end in
  match source with
  | Some (src, srcW, srcH, useShadow) =>
      if decide (gw > 0 /\ gh > 0) then
        let fullyCovered :=
          bool_decide (gx >= 0 /\ gy >= 0 /\ gx + gw <= srcW /\ gy + gh <= srcH) in
        if fullyCovered && useShadow then getFast src srcW gx gy gw gh
        else if fullyCovered && negb (msbFirst_ s) then getFastSwap src srcW gx gy gw gh
        else if negb (msbFirst_ s) then getPartial useShadow src srcW srcH gx gy gw gh
        else getSlowMsb src srcW srcH gx gy gw gh
      else repeat 0 (Z.to_nat (gw * gh * 4))
  | None => repeat 0 (Z.to_nat (gw * gh * 4))
  end.

Definition replyGetImageHeader (msb : bool) (seq imgWords : Z) : list Z :=
  buildPacket msb 32 [ PutAt 0 1; PutAt 1 24; W16 2 seq; W32 4 (u32 imgWords); W32 8 0 ].

Definition getImage (seq : Z) (r : GetImageReq) (s : Impl) : Impl * Packets :=
  let imgBytes := gi_w r * gi_h r * 4 in
  let imgWords := (imgBytes + 3) / 4 in
  sendReply (replyGetImageHeader (msbFirst_ s) seq imgWords ++ getImageData r s) seq s.

Definition handleGetImage (seq : Z) (buf : list Z) (s : Impl) : Impl * Packets :=
  getImage seq (parseGetImage (msbFirst_ s) buf) s.

(** The image bytes carried by a [GetImage] reply. *)
Definition replyImageData (reply : list Z) : list Z := drop 32 reply.

(** What the round trip is expected to return for data written by an
    LSB-first client: the bytes written with the fourth byte of every pixel
    (the alpha, or padding, byte of the BGRA layout) replaced by 0xFF. *)
Fixpoint opaqueLsb (data : list Z) : list Z :=
  match data with
  | b :: g :: r :: _ :: rest => b :: g :: r :: 0xFF :: opaqueLsb rest
  | _ => []
  end.

(** The same for an MSB-first client, whose pixels are [A][R][G][B]. *)
Fixpoint opaqueMsb (data : list Z) : list Z :=
  match data with
  | _ :: r :: g :: b :: rest => 0xFF :: r :: g :: b :: opaqueMsb rest
  | _ => []
  end.

(** ** The request loop of [serverLoop]: framing and dispatch *)

(** Void requests the source accepts and ignores ([break] with no effect),
    PolyFillRectangle included. *)
Definition voidOpcodes : list Z :=
  [ 18; 19; 22; 24; 42; 51; 55; 56; 57; 58; 59; 60; 61; 63; 64; 65; 66; 67;
    68; 69; 70; 71; 78; 79; 101 ].

(** Requests answered with the generic 32-byte reply. *)
Definition genericReplyOpcodes : list Z :=
  [ 20; 15; 21; 23; 26; 31; 39; 43; 44; 47; 49; 52; 83; 84; 91; 97; 102; 103;
    104; 106 ].

(** Requests whose handlers are outside this development: they have a
    [case] of their own in the source (ChangeWindowAttributes,
    GetWindowAttributes, SendEvent, QueryPointer, TranslateCoordinates,
    CopyArea, QueryExtension, ListExtensions, GLX). *)
Definition notEmbeddedOpcodes : list Z := [ 2; 3; 25; 38; 40; 62; 98; 100; 128 ].

Definition genericReply (msb : bool) (seq : Z) : list Z :=
  buildPacket msb 32 [ PutAt 0 1; W16 2 seq ].

Inductive StepOutcome :=
| Closed                                            (* the loop is left *)
| Next (s : Impl) (seq : Z) (stream : list Z) (out : Packets)
| NotEmbedded.

Section dispatch.
Variable scaleToInt : Z -> Z.

  (** The [switch (opcode)] for the requests whose body, if any, is already
      in [buf]. *)
Definition dispatch (opcode seq : Z) (buf stream : list Z) (s : Impl) : StepOutcome :=
    let ret (r : Impl * Packets) := Next r.1 seq stream r.2 in
    if decide (opcode = X11Op.CreateWindow) then ret (handleCreateWindow buf s)
    else if decide (opcode = X11Op.MapWindow) then ret (handleMapWindow buf s)
    else if decide (opcode = X11Op.UnmapWindow) then ret (handleUnmapWindow buf s)
    else if decide (opcode = X11Op.DestroyWindow) then
      (* the handler reads its own 4-byte body *)
      match recvAll 4 stream with
      | Some (body, stream') =>
          let r := handleDestroyWindow (copyInto buf 4 body) s in
          Next r.1 seq stream' r.2
      | None => Next s seq [] []
      end
    else if decide (opcode = 5 \/ opcode = 9 \/ opcode = X11Op.ConfigureWindow)
    then ret (handleConfigureWindow buf s)
    else if decide (opcode = X11Op.GetGeometry) then ret (handleGetGeometry scaleToInt seq buf s)
    else if decide (opcode = X11Op.InternAtom) then ret (handleInternAtom seq buf s)
    else if decide (opcode = X11Op.GetAtomName) then ret (handleGetAtomName seq buf s)
    else if decide (opcode = X11Op.GetImage) then ret (handleGetImage seq buf s)
    else if decide (opcode = 53) then ret (handleCreatePixmap buf s)
    else if decide (opcode = 54) then ret (handleFreePixmap buf s)
    else if decide (opcode ∈ genericReplyOpcodes)
    then ret (sendReply (genericReply (msbFirst_ s) seq) seq s)
    else if decide (opcode ∈ notEmbeddedOpcodes) then NotEmbedded
    else (* void requests and unknown opcodes: ignored, no reply *)
      Next s seq stream [].

  (** One turn of the request loop once [poll] reports data: header, the
      BigRequests guard, PutImage, the generic body read, the dispatch.
      [buf0] is the indeterminate content of the fresh [uint8_t buf[256]];
      [seq] is the request counter.  Touch events and teardown are left
      out. *)
Definition serverStep (buf0 : list Z) (s : Impl) (seq : Z) (stream : list Z)
    : StepOutcome :=
    let msb := msbFirst_ s in
    match recvAll 4 stream with
    | None => Closed
    | Some (hdr, stream) =>
        let buf := copyInto buf0 0 hdr in
        let opcode := byteAt buf 0 in
        let length := read16 msb buf 2 in
        if decide (length = 0) then
          (* BigRequests: drained and discarded *)
          match recvAll 4 stream with
          | None => Closed
          | Some (extLenBuf, stream) =>
              let bigLength := read32 msb extLenBuf 0 in
              let stream :=
                if decide (bigLength > 2)
                then drop (Z.to_nat ((bigLength - 2) * 4)) stream
                else stream in
              Next s (u16 (seq + 1)) stream []
          end
        else
          let seq := u16 (seq + 1) in
          if decide (opcode = X11Op.PutImage) then
            match recvAll 20 stream with
            | None => Closed
            | Some (body, stream) =>
                let buf := copyInto buf 4 body in
                let r := parsePutImage msb buf in
                let pixelDataLen := if decide (length >= 6) then length * 4 - 24 else 0 in
                let '(s', stream) := receivePutImage r pixelDataLen stream s in
                Next s' seq stream []
            end
          else
            let '(buf, stream) :=
              if decide (length > 0 /\ opcode ≠ 2 /\ opcode ≠ 4 /\ opcode ≠ 38) then
                let extra := (length - 1) * 4 in
                (* cap to avoid huge allocations *)
                let extra := if decide (extra > 65536) then 65536 else extra in
                let '(body, stream) := recvIgnoringResult (Z.to_nat extra) stream in
                if decide (extra > 256 - 4)
                then (buf, stream)                       (* read into [discard] *)
                else (copyInto buf 4 body, stream)
              else (buf, stream) in
            dispatch opcode seq buf stream s
    end.
End dispatch.

(** The request buffer as a turn of [serverStep] leaves it: it holds the
    header, then the 20 fixed bytes of a PutImage, or the body where the
    generic read stores it in the buffer, or the 4-byte body that
    DestroyWindow reads.  A body that goes to the discard vector leaves the
    bytes behind the header as they were. *)
Definition bufferAfterStep (msb : bool) (buf0 stream : list Z) : list Z :=
  match recvAll 4 stream with
  | None => buf0
  | Some (hdr, stream) =>
      let buf := copyInto buf0 0 hdr in
      let opcode := byteAt buf 0 in
      let length := read16 msb buf 2 in
      if decide (length = 0) then buf
      else if decide (opcode = X11Op.PutImage) then
        match recvAll 20 stream with
        | Some (body, _) => copyInto buf 4 body
        | None => buf
        end
      else
        let '(buf, stream) :=
          if decide (length > 0 /\ opcode ≠ 2 /\ opcode ≠ 4 /\ opcode ≠ 38) then
            let extra := (length - 1) * 4 in
            let extra := if decide (extra > 65536) then 65536 else extra in
            let '(body, stream) := recvIgnoringResult (Z.to_nat extra) stream in
            if decide (extra > 256 - 4)
            then (buf, stream)
            else (copyInto buf 4 body, stream)
          else (buf, stream) in
        if decide (opcode = X11Op.DestroyWindow) then
          match recvAll 4 stream with
          | Some (body, _) => copyInto buf 4 body
          | None => buf
          end
        else buf
  end.

(** A run of the loop over the requests in [stream]; [turns] bounds the
    number of turns.  [buf] is declared in the body of the loop, so the
    language leaves its content at the start of a turn indeterminate; the
    compiled loop keeps the array in one place, and every turn starts with
    the bytes the turn before left there.  [buf0] is the content before the
    first turn. *)
Fixpoint serverRun (scaleToInt : Z -> Z) (buf0 : list Z) (turns : nat)
    (s : Impl) (seq : Z) (stream : list Z) (out : Packets)
  : Impl * list Z * Packets :=
  match turns with
  | O => (s, stream, out)
  | S turns' =>
      match serverStep scaleToInt buf0 s seq stream with
      | Next s' seq' stream' out' =>
          serverRun scaleToInt (bufferAfterStep (msbFirst_ s) buf0 stream) turns'
                    s' seq' stream' (out ++ out')
      | _ => (s, stream, out)
      end
  end.

(** ** Teardown: [X11NativeDisplay::signalDetach] and [detachSurface] *)

(** [DisplayState] of [DisplayState.h]. *)
Inductive Phase := PhaseNone | Attached | Creating | Ready | Destroying.

Record DisplayState := mkDisplayState {
  phase : Phase;
  pluginIndex : Z;
  detachPending : bool
}.

(** Modelled from the spec: [isCreatingPluginUIForDisplay] is declared in
    [PluginUIGuard.h] ("Check if plugin UI creation is in progress for a
    specific display number") but its definition is not part of the sources;
    following the display-state machine of the specification, creation is in
    progress for a display number exactly while its state record is in phase
    [Creating]. *)
Definition isCreatingPluginUIForDisplay (displayStates : gmap Z DisplayState)
    (displayNumber : Z) : bool :=
  match displayStates !! displayNumber with
  | Some ds => match phase ds with Creating => true | _ => false end
  | None => false
  end.

(** The part of [Impl] and of the process that teardown touches: the flags,
    the two sockets (an open descriptor is [>= 0]), which threads have been
    joined, and whether the presentation window has been released. *)
Record Lifecycle := mkLifecycle {
  detachDeferred : bool;
  closingGracefully : bool;
  closeStartTime : Z;
  running : bool;
  renderThreadRunning : bool;
  pluginUIRunning : bool;
  serverThreadJoinable : bool;
  renderThreadJoinable : bool;
  pluginUIThreadJoinable : bool;
  windowAttached : bool;
  clientFd : Z;
  serverFd : Z
}.

(** [signalDetach]: the result is the new state and the return value
    ([true] = deferred).  [now] is the reading of the steady clock. *)
Definition signalDetach (creating : bool) (now : Z) (l : Lifecycle) : Lifecycle * bool :=
  if creating then
    (mkLifecycle true (closingGracefully l) (closeStartTime l) (running l)
                 (renderThreadRunning l) (pluginUIRunning l)
                 (serverThreadJoinable l) (renderThreadJoinable l)
                 (pluginUIThreadJoinable l) (windowAttached l)
                 (clientFd l) (serverFd l), true)
  else if closingGracefully l then (l, false)
  else
    (mkLifecycle (detachDeferred l) true now (running l)
                 (renderThreadRunning l) (pluginUIRunning l)
                 (serverThreadJoinable l) (renderThreadJoinable l)
                 (pluginUIThreadJoinable l) (windowAttached l)
                 (clientFd l) (serverFd l), false).

(** [detachSurface]: nothing when already detached; otherwise
    [signalDetach], and unless that was deferred, [pluginUIRunning] is
    cleared, every joinable thread is joined, the window is released and the
    sockets are closed.  A [join()] returns when its thread has left its
    loop.  The plugin UI thread does so once [pluginUIRunning] is clear.
    Nothing in the source clears [running], and this function does not clear
    [renderThreadRunning]: whether the server thread and the render thread
    come to an end is given by [serverThreadEnds] and [renderThreadEnds].  A
    joinable thread that does not end blocks the call for good, which is the
    result [None]. *)
Definition detachSurface (creating : bool) (serverThreadEnds renderThreadEnds : bool)
    (now : Z) (l : Lifecycle) : option Lifecycle :=
  if bool_decide (clientFd l < 0) && negb (serverThreadJoinable l) then Some l
  else
    let '(l1, deferred) := signalDetach creating now l in
    if deferred then Some l1
    else if serverThreadJoinable l1 && negb serverThreadEnds then None
    else if renderThreadJoinable l1 && negb renderThreadEnds then None
    else
      Some (mkLifecycle (detachDeferred l1) (closingGracefully l1) (closeStartTime l1)
                        (running l1) (renderThreadRunning l1)
                        false false false false false
                        (if decide (clientFd l1 >= 0) then -1 else clientFd l1)
                        (if decide (serverFd l1 >= 0) then -1 else serverFd l1)).

(** A detach request for display [displayNumber] as [signalDetach] sees it. *)
Definition signalDetachFor (displayStates : gmap Z DisplayState) (displayNumber now : Z)
    (l : Lifecycle) : Lifecycle * bool :=
  signalDetach (isCreatingPluginUIForDisplay displayStates displayNumber) now l.

(** ** Sequences of window requests *)

Inductive WindowRequest :=
| ReqCreateWindow (r : CreateWindowReq)
| ReqMapWindow (wid : Z)
| ReqUnmapWindow (wid : Z)
| ReqDestroyWindow (wid : Z)
| ReqConfigureWindow (r : ConfigureReq).

Definition applyWindowRequest (q : WindowRequest) (s : Impl) : Impl * Packets :=
  match q with
  | ReqCreateWindow r => createWindow r s
  | ReqMapWindow wid => mapWindow wid s
  | ReqUnmapWindow wid => unmapWindow wid s
  | ReqDestroyWindow wid => destroyWindow wid s
  | ReqConfigureWindow r => configureWindow r s
  end.

(** The state after a sequence of window requests, oldest first. *)
Definition runWindowRequests (qs : list WindowRequest) (s : Impl) : Impl :=
  foldl (fun s q => (applyWindowRequest q s).1) s qs.

(** ** The life of a display: connections and their window requests *)

Definition setMsbFirst (b : bool) (s : Impl) : Impl :=
  mkImpl (wins s) (surf s) (atoms s) b (lastReplySeq_ s).

(** On [accept] the window list, the size and position tables, the set of
    unmapped windows and the pixmaps are cleared; the atoms, the event
    masks, the original and the plugin size and the framebuffer stay. *)
Definition acceptClient (s : Impl) : Impl :=
  let t := wins s in
  let f := surf s in
  setSurf (mkSurface (width f) (height f) (framebuffer f) (dirty f)
                     (originalChildW f) (originalChildH f)
                     (pluginWidth f) (pluginHeight f) ∅)
          (setWins (mkWindowTable [] ∅ ∅ ∅ (windowEventMasks t)) s).

(** What happens to a display, in order: a client is accepted and
    negotiates its byte order, or the connected client sends a window
    request. *)
Inductive DisplayEvent :=
| EvAccept (msb : bool)
| EvRequest (q : WindowRequest).

Definition applyDisplayEvent (e : DisplayEvent) (s : Impl) : Impl :=
  match e with
  | EvAccept msb => setMsbFirst msb (acceptClient s)
  | EvRequest q => (applyWindowRequest q s).1
  end.

(** The state of the display after a history of events, oldest first. *)
Definition runDisplay (es : list DisplayEvent) (s : Impl) : Impl :=
  foldl (fun s e => applyDisplayEvent e s) s es.

(** ** Predicates used in the statements *)

(** [wid] is a mapped window with a position and a size whose absolute
    rectangle contains the point: the test of the hit-test loop. *)
Definition containsPoint (t : WindowTable) (x y wid : Z) : Prop :=
  (wid ∉ unmappedWindows t)
  /\ is_Some (windowPositions t !! wid)
  /\ exists ww wh, windowSizes t !! wid = Some (ww, wh)
       /\ (getAbsolutePos t wid).1 <= x < (getAbsolutePos t wid).1 + ww
       /\ (getAbsolutePos t wid).2 <= y < (getAbsolutePos t wid).2 + wh.

(** Every window of the list stands after its parent in the list, as it
    does when each window is created after its parent. *)
Definition parentsFirst (t : WindowTable) : Prop :=
  forall i j w p pos,
    childWindows t !! i = Some w -> childWindows t !! j = Some p ->
    windowPositions t !! w = Some pos -> wp_parent pos = p -> (j < i)%nat.

(** The window list, the size table and the position table hold the same
    window IDs. *)
Definition tablesInSync (t : WindowTable) : Prop :=
  forall wid,
    (wid ∈ childWindows t <-> is_Some (windowSizes t !! wid))
    /\ (wid ∈ childWindows t <-> is_Some (windowPositions t !! wid)).

(** Windows are created with a positive width and height (a zero size is
    a [BadValue] error in X11; this server does not check it). *)
Definition positiveCreate (q : WindowRequest) : Prop :=
  match q with
  | ReqCreateWindow r => cw_width r > 0 /\ cw_height r > 0
  | _ => True
  end.

(** The event creates no window. *)
Definition noCreate (e : DisplayEvent) : Prop :=
  match e with
  | EvRequest (ReqCreateWindow _) => False
  | _ => True
  end.

(** A window created by the event has a positive width and height. *)
Definition positiveCreateEvent (e : DisplayEvent) : Prop :=
  match e with
  | EvRequest q => positiveCreate q
  | EvAccept _ => True
  end.

(** Every stored window size is positive, and so is the plugin size. *)
Definition sizesPositive (s : Impl) : Prop :=
  pluginWidth (surf s) > 0
  /\ forall wid sz, windowSizes (wins s) !! wid = Some sz -> sz.1 > 0 /\ sz.2 > 0.

(** [d] names the top-level window for PutImage: the first entry of the
    window list, or the root window when the root ID is not in the list. *)
Definition isTopLevelDrawable (t : WindowTable) (d : Z) : Prop :=
  (exists rest, childWindows t = d :: rest)
  \/ (d = kRootWindowId /\ d ∉ childWindows t).

(** The drawables of the round trip and the size of their buffer: the
    top-level window, drawn in a framebuffer laid out for the plugin size,
    and a pixmap (an ID that is no window) holding [pm_w] x [pm_h] pixels. *)
Inductive roundTripTarget (s : Impl) (d : Z) : Z -> Z -> Prop :=
| rt_window :
    isTopLevelDrawable (wins s) d ->
    Z.of_nat (length (framebuffer (surf s))) = fbWidth (surf s) * fbHeight (surf s) ->
    roundTripTarget s d (fbWidth (surf s)) (fbHeight (surf s))
| rt_pixmap pd :
    d ∉ childWindows (wins s) -> d ≠ kRootWindowId ->
    pixmaps (surf s) !! d = Some pd ->
    Z.of_nat (length (pm_pixels pd)) = pm_w pd * pm_h pd ->
    roundTripTarget s d (pm_w pd) (pm_h pd).

(** The rectangles PutImage clips against when it draws on [d]: those of
    the mapped children when [d] is a window, none when it is a pixmap. *)
Definition drawableClip (s : Impl) (d : Z) : list ClipRect :=
  if bool_decide (d ∈ childWindows (wins s)) || bool_decide (d = kRootWindowId)
  then collectChildClip (wins s) d
  else [].

(** The atom table is a bijection between names and the IDs handed out so
    far, which are exactly 1 .. nextAtomId - 1. *)
Definition atomsWf (a : AtomTable) : Prop :=
  (forall name id, atomNameToId a !! name = Some id <-> atomIdToName a !! id = Some name)
  /\ (forall id, is_Some (atomIdToName a !! id) <-> 1 <= id < nextAtomId a)
  /\ 1 <= nextAtomId a < 4294967296.

(** ** Example states *)

(** A table whose second window is its own parent (and is not the top-level
    window): the walk of [getAbsolutePos] goes round the cycle. *)
Definition cyclicTable : WindowTable :=
  mkWindowTable [7; 9] {[9 := (10, 10)]} {[9 := mkWindowPos 3 5 9]} ∅ ∅.

Definition createReq (wid parent x y w h : Z) : WindowRequest :=
  ReqCreateWindow (mkCreateWindowReq wid parent x y w h).

(** A client that creates a 40x30 top-level window and never maps it. *)
Definition stateUnmappedTop : Impl :=
  runWindowRequests [ createReq 100 kRootWindowId 0 0 40 30 ] (initialImpl 64 48 false).

(** A client that creates a top-level window and a child of it, then
    destroys the top-level window. *)
Definition stateOrphan : Impl :=
  runWindowRequests
    [ createReq 100 kRootWindowId 0 0 40 30; createReq 200 100 5 5 20 10; ReqDestroyWindow 100 ]
    (initialImpl 64 48 false).

(** A client that creates a 40x30 top-level window and resizes it to
    20x15. *)
Definition stateResized : Impl :=
  runWindowRequests
    [ createReq 100 kRootWindowId 0 0 40 30;
      ReqConfigureWindow (mkConfigureReq 100 None None (Some 20) (Some 15)) ]
    (initialImpl 64 48 false).

Definition lifecycleRunning : Lifecycle :=
  mkLifecycle false false 0 true true true true true true true 5 4.

Definition displaysCreating : gmap Z DisplayState :=
  {[ 0 := mkDisplayState Creating 2 false ]}.

(** A top-level window with a mapped child at (5,5), 20x10. *)
Definition stateChild : Impl :=
  runWindowRequests
    [ createReq 100 kRootWindowId 0 0 40 30; createReq 200 100 5 5 20 10;
      ReqMapWindow 100; ReqMapWindow 200 ]
    (initialImpl 64 48 false).

(** A client that creates window 400 as a child of window 900 before it
    creates window 900 (CreateWindow does not look the parent up), and maps
    all three windows: the child stands before its parent in the list. *)
Definition stateChildFirst : Impl :=
  runWindowRequests
    [ createReq 100 kRootWindowId 0 0 40 30; createReq 400 900 2 2 10 10;
      createReq 900 100 5 5 20 20;
      ReqMapWindow 100; ReqMapWindow 400; ReqMapWindow 900 ]
    (initialImpl 64 48 false).

(** A display with two clients, one after the other: the first creates a
    40x30 window and resizes it to 20x15; the second creates a 20x15
    window. *)
Definition historyTwoClients : list DisplayEvent :=
  [ EvAccept false;
    EvRequest (createReq 100 kRootWindowId 0 0 40 30);
    EvRequest (ReqConfigureWindow (mkConfigureReq 100 None None (Some 20) (Some 15)));
    EvAccept false;
    EvRequest (createReq 300 kRootWindowId 0 0 20 15) ].

(** An InternAtom request for the name FOO (three words), followed by an
    InternAtom request of 77 words whose body (name length 300, the name 300
    times the letter A) does not fit in the request buffer. *)
Definition internFooThenLong : list Z :=
  [16; 0; 3; 0;  3; 0; 0; 0;  70; 79; 79; 0]
  ++ [16; 0; 77; 0;  44; 1; 0; 0] ++ repeat 65 300.

(** ** Sequences of InternAtom requests *)

(** The atom table after a sequence of InternAtom requests, each given by
    its [only_if_exists] byte and its name. *)
Definition internRun (reqs : list (Z * list Z)) (a : AtomTable) : AtomTable :=
  foldl (fun a '(onlyIfExists, name) => (internAtom onlyIfExists name a).1) a reqs.

Definition initialAtoms : AtomTable := mkAtomTable ∅ ∅ 1.

(** The request buffer of an InternAtom for the name "FOO" from an
    LSB-first client: opcode 16, only_if_exists 0, length 3, name length 3,
    padding, the name; the rest of the 256-byte array is zero. *)
Definition bufInternFoo : list Z :=
  [16; 0; 3; 0; 3; 0; 0; 0; 70; 79; 79; 0] ++ repeat 0 244.

(** InternAtom request buffers announcing an empty name, and a name of 300
    bytes (which [serverStep] reads into its discard vector, so that the
    buffer holds nothing of it). *)
Definition bufInternEmpty : list Z := [16; 0; 2; 0; 0; 0; 0; 0] ++ repeat 0 248.
Definition bufInternLong : list Z := [16; 0; 77; 0; 44; 1; 0; 0] ++ repeat 65 248.

(** A single ChangeProperty request (opcode 18, mode Replace) of 20000 words
    from an LSB-first client: the 4-byte header, then window 200, property
    atom 1, type atom 2, format 8, a data length of 79976, and 79976 bytes of
    property data.  The data is zero up to byte 65536 of the request body;
    at that offset it happens to read like a DestroyWindow request for
    window 200, followed by 3613 four-byte groups that read like requests
    with opcode 127 and length 1. *)
Definition oversizedChangeProperty : list Z :=
  [18; 0; 0x20; 0x4E]
  ++ [200; 0; 0; 0;  1; 0; 0; 0;  2; 0; 0; 0;  8; 0; 0; 0;  0x68; 0x38; 1; 0]
  ++ repeat 0 (Z.to_nat 65516)
  ++ [4; 0; 2; 0; 200; 0; 0; 0]
  ++ mjoin (repeat [127; 0; 1; 0] 3613).

(** A PutImage of 5000 x 1 pixels at (0,0) on pixmap 300 from an LSB-first
    client: header, the 20 bytes that follow it, and 20000 bytes of pixel
    data with the value 9. *)
Definition widePutImage : list Z :=
  [72; 2; 0x8E; 0x13]
  ++ [44; 1; 0; 0;  0; 0; 0; 0;  0x88; 0x13; 1; 0;  0; 0; 0; 0;  0; 24; 0; 0]
  ++ repeat 9 (Z.to_nat 20000).

(** A pixmap 300 of 5000 x 1 pixels (LSB-first client), and a pixmap 300 of
    2 x 1 pixels on an MSB-first connection. *)
Definition statePixmapWide : Impl :=
  (createPixmap 300 5000 1 (initialImpl 64 48 false)).1.

Definition statePixmapMsb : Impl :=
  (createPixmap 300 2 1 (initialImpl 64 48 true)).1.
(** * More of the protocol server

    The definitions below embed parts of [X11NativeDisplay.cpp] that the
    first part left out: the socket loops, the handshake, the pixel swap,
    the remaining request handlers of the request loop and its teardown
    branch; and from [jni/NativeBridge.cpp] the bookkeeping of the display
    states. *)

(** ** The socket loops: [Impl::sendAll] and [Impl::recvAll] *)

(** What the successive calls of [recv] on the client socket meet.  An
    [Arrive bytes] stands for data waiting in the receive queue: a call
    [recv(fd, p, len, 0)] takes [min len (length bytes)] of them and leaves
    the others at the head of the queue (an [Arrive] without bytes is a call
    that returns 0).  [WouldBlock ready] is an empty queue on the
    non-blocking socket: [recv] fails with [EAGAIN], and [ready] tells
    whether the [poll] that follows reports data within its five seconds. *)
Inductive SockEvent :=
| Arrive (bytes : list Z)
| WouldBlock (ready : bool)
| PeerClosed
| RecvError.

(** [recvAll(fd, data, len)]: the result is the return value, the bytes
    stored in [data] so far, and what is left of the socket's future.  A
    socket with no event left is one whose peer has closed. *)
Fixpoint recvAllChunks (len : nat) (sock : list SockEvent) {struct sock}
  : bool * list Z * list SockEvent :=
  match len with
  | O => (true, [], sock)
  | S _ =>
      match sock with
      | [] => (false, [], [])
      | Arrive [] :: rest => (false, [], rest)
      | Arrive bytes :: rest =>
          if decide (len <= length bytes)%nat then
            (true, take len bytes,
             match drop len bytes with
             | [] => rest
             | remaining => Arrive remaining :: rest
             end)
          else
            let '(ok, data, sock') := recvAllChunks (len - length bytes) rest in
            (ok, bytes ++ data, sock')
      | WouldBlock true :: rest => recvAllChunks len rest
      | WouldBlock false :: rest => (false, [], rest)
      | PeerClosed :: rest => (false, [], rest)
      | RecvError :: rest => (false, [], rest)
      end
  end.

(** The bytes a socket still delivers, in order: the stream that
    [recvAll] and [serverStep] work on. *)
Fixpoint pendingBytes (sock : list SockEvent) : list Z :=
  match sock with
  | Arrive bytes :: rest => bytes ++ pendingBytes rest
  | _ :: rest => pendingBytes rest
  | [] => []
  end.

(** A socket whose peer keeps sending: data arrives in non-empty chunks,
    possibly after a wait. *)
Definition healthy (sock : list SockEvent) : Prop :=
  Forall (fun e => match e with
                   | Arrive bytes => bytes <> []
                   | WouldBlock ready => ready = true
                   | _ => False
                   end) sock.

(** What the successive calls of [send] do: [Accepts n] takes the first
    [min n len] bytes ([n = 0] is a call that returns 0), [SendFails] is a
    call that returns a negative value. *)
Inductive SendEvent :=
| Accepts (n : nat)
| SendFails.

(** [sendAll(fd, data, len)]: the return value, the bytes that went on the
    wire, and the rest of the socket's future. *)
Fixpoint sendAll (data : list Z) (sock : list SendEvent) {struct sock}
  : bool * list Z * list SendEvent :=
  match data with
  | [] => (true, [], sock)
  | _ :: _ =>
      match sock with
      | [] => (false, [], [])
      | Accepts O :: rest => (false, [], rest)
      | Accepts n :: rest =>
          let '(ok, sent, sock') := sendAll (drop n data) rest in
          (ok, take n data ++ sent, sock')
      | SendFails :: rest => (false, [], rest)
      end
  end.

(** ** Accepting a client: the handshake of [serverLoop] *)

(** [uint16_t authNamePadded = authNameLen + ((4 - (authNameLen % 4)) % 4)]. *)
Definition authPadded (n : Z) : Z := u16 (n + (4 - n mod 4) mod 4).

(** From the 12-byte connection request to the setup reply: the byte order
    is taken from the first byte, the authorization name and data are
    skipped (whatever the reads return), the reply is sent.  [None] is the
    [continue] taken when the request does not arrive. *)
Definition handshake (body0 stream : list Z) (s : Impl)
  : option (Impl * list Z * Packets) :=
  match recvAll 12 stream with
  | None => None
  | Some (req, stream) =>
      let msb := negotiateByteOrder req in
      let authNameLen := read16 msb req 6 in
      let authDataLen := read16 msb req 8 in
      let authNamePadded := authPadded authNameLen in
      let authDataPadded := authPadded authDataLen in
      let stream :=
        if decide (authNamePadded > 0)
        then (recvIgnoringResult (Z.to_nat authNamePadded) stream).2
        else stream in
      let stream :=
        if decide (authDataPadded > 0)
        then (recvIgnoringResult (Z.to_nat authDataPadded) stream).2
        else stream in
      Some (setMsbFirst msb s, stream,
            [sendConnectionReply msb (width (surf s)) (height (surf s)) body0])
  end.

(** ** [swapRB_neon] *)

(** The index table of the NEON branch. *)
Definition neonTbl : list nat := [2; 1; 0; 3; 6; 5; 4; 7; 10; 9; 8; 11; 14; 13; 12; 15]%nat.

(** [vqtbl1q_u8(v, idx)]: byte [i] of the result is byte [idx[i]] of [v]. *)
Definition vqtbl1q_u8 (v : list Z) (idx : list nat) : list Z :=
  (fun i => byteAt v i) <$> idx.

(** The branch compiled for ARM: four pixels at a time through the byte
    table, the remaining ones by the scalar formula [swapRB].  The other
    branch of the [#if] is [swapRB] on every pixel. *)
Fixpoint swapRB_neon (src : list Z) : list Z :=
  match src with
  | p0 :: p1 :: p2 :: p3 :: rest =>
      let v := flat_map store32 [p0; p1; p2; p3] in
      let swapped := vqtbl1q_u8 v neonTbl in
      [ load32 swapped 0; load32 swapped 4; load32 swapped 8; load32 swapped 12 ]
      ++ swapRB_neon rest
  | _ => swapRB <$> src
  end.

Definition swapRB_scalar (src : list Z) : list Z := swapRB <$> src.

(** ** The pointer state *)

(** The pointer state of [Impl]: what [QueryPointer] reports, and the
    bookkeeping of [drainTouchQueue]. *)
Record Pointer := mkPointer {
  lastPointerX : Z;
  lastPointerY : Z;
  pointerButton1Down : bool;
  hasPendingDrag : bool;
  pendingDragX : Z;
  pendingDragY : Z;
  grabWindow : Z;
  lastExposeFlush : Z
}.

Definition initialPointer (start : Z) : Pointer :=
  mkPointer 0 0 false false 0 0 0 start.

(** ** The remaining request handlers *)

(** *** GetWindowAttributes *)

Definition replyGetWindowAttributes (msb : bool) (seq : Z) (isUnmapped : bool) : list Z :=
  buildPacket msb 44
    [ PutAt 0 1; PutAt 1 0; W16 2 seq; W32 4 3; W32 8 kDefaultVisualId; W16 12 1;
      PutAt 14 0; PutAt 15 0; W32 16 0; W32 20 kBlackPixel;
      PutAt 24 0; PutAt 25 1; PutAt 26 (if isUnmapped then 0 else 2); PutAt 27 0;
      W32 28 kDefaultColormapId; W32 32 0x00ffffff; W32 36 0x00ffffff;
      W16 40 0; W16 42 0 ].

Definition getWindowAttributes (seq gwaWid : Z) (s : Impl) : Impl * Packets :=
  let isUnmapped := bool_decide (gwaWid ∈ unmappedWindows (wins s)) in
  sendReply (replyGetWindowAttributes (msbFirst_ s) seq isUnmapped) seq s.

Definition handleGetWindowAttributes (seq : Z) (buf : list Z) (s : Impl) : Impl * Packets :=
  getWindowAttributes seq (read32 (msbFirst_ s) buf 4) s.

(** *** QueryExtension and ListExtensions *)

(** "GLX" *)
Definition glxName : list Z := [71; 76; 88].

(** [nameLen == 3 && strncmp(extName, "GLX", 3) == 0], where [extName] is
    the request buffer from byte 8 on. *)
Definition isGLXQuery (msb : bool) (buf : list Z) : bool :=
  bool_decide (read16 msb buf 4 = 3)
  && bool_decide (take 3 (drop 8 buf) = glxName).

Definition replyQueryExtension (msb : bool) (seq : Z) (isGLX : bool) : list Z :=
  buildPacket msb 32
    ([ PutAt 0 1; W16 2 seq ]
     ++ if isGLX
        then [ PutAt 8 1; PutAt 9 X11Op.kGLXMajorOpcode; PutAt 10 0; PutAt 11 0 ]
        else []).

Definition handleQueryExtension (seq : Z) (buf : list Z) (s : Impl) : Impl * Packets :=
  sendReply (replyQueryExtension (msbFirst_ s) seq (isGLXQuery (msbFirst_ s) buf)) seq s.

(** The names [ListExtensions] announces. *)
Definition extNames : list (list Z) := [ glxName ].

Definition replyListExtensions (msb : bool) (seq : Z) : list Z :=
  let numExt := Z.of_nat (length extNames) in
  let bodySize := foldl (fun acc name => acc + 1 + Z.of_nat (length name)) 0 extNames in
  let padded := (bodySize + 3) / 4 * 4 in
  let replySize := 32 + padded in
  let reply :=
    buildPacket msb (Z.to_nat replySize)
      [ PutAt 0 1; PutAt 1 numExt; W16 2 seq; W32 4 (padded / 4) ] in
  fst (foldl (fun '(reply, off) name =>
                (copyInto (<[off := u8 (Z.of_nat (length name))]> reply) (S off) name,
                 (S off + length name)%nat))
             (reply, 32%nat) extNames).

Definition handleListExtensions (seq : Z) (s : Impl) : Impl * Packets :=
  sendReply (replyListExtensions (msbFirst_ s) seq) seq s.

(** *** TranslateCoordinates *)

Definition translateCoordinates (t : WindowTable) (srcWin dstWin srcX srcY : Z) : Z * Z :=
  let srcAbs := if decide (srcWin ≠ kRootWindowId) then getAbsolutePos t srcWin else (0, 0) in
  let dstAbs := if decide (dstWin ≠ kRootWindowId) then getAbsolutePos t dstWin else (0, 0) in
  (srcX + srcAbs.1 - dstAbs.1, srcY + srcAbs.2 - dstAbs.2).

Definition replyTranslateCoordinates (msb : bool) (seq dstX dstY : Z) : list Z :=
  buildPacket msb 32
    [ PutAt 0 1; PutAt 1 1; W16 2 seq; W32 4 0; W32 8 0;
      W16 12 (u16 dstX); W16 14 (u16 dstY) ].

Definition handleTranslateCoordinates (seq : Z) (buf : list Z) (s : Impl) : Impl * Packets :=
  let msb := msbFirst_ s in
  let srcWin := read32 msb buf 4 in
  let dstWin := read32 msb buf 8 in
  let srcX := s16 (read16 msb buf 12) in
  let srcY := s16 (read16 msb buf 14) in
  let '(dstX, dstY) := translateCoordinates (wins s) srcWin dstWin srcX srcY in
  sendReply (replyTranslateCoordinates msb seq dstX dstY) seq s.

(** *** QueryPointer *)

Definition replyQueryPointer (msb : bool) (seq : Z) (ptr : Pointer) : list Z :=
  let mask := if pointerButton1Down ptr then 256 else 0 in
  buildPacket msb 32
    [ PutAt 0 1; PutAt 1 1; W16 2 seq; W32 8 kRootWindowId;
      W16 16 (u16 (lastPointerX ptr)); W16 18 (u16 (lastPointerY ptr));
      W16 20 (u16 (lastPointerX ptr)); W16 22 (u16 (lastPointerY ptr));
      W16 24 mask ].

(** The handler reads its own body; when the body does not arrive it leaves
    the [switch] without a reply.  The result is the state, the rest of the
    stream and the packets. *)
Definition queryPointer (length seq : Z) (stream : list Z) (ptr : Pointer) (s : Impl)
  : Impl * list Z * Packets :=
  let qpBody := if decide (length > 1) then (length - 1) * 4 else 0 in
  let reply (stream : list Z) :=
    let r := sendReply (replyQueryPointer (msbFirst_ s) seq ptr) seq s in
    (r.1, stream, r.2) in
  if decide (qpBody > 0) then
    match recvAll (Z.to_nat qpBody) stream with
    | Some (_, stream') => reply stream'
    | None => (s, [], [])
    end
  else reply stream.

(** *** ChangeWindowAttributes *)

(** [for (int bit = 0; bit < 32 && attrOffset + 4 <= (int)(4 + cwBodyBytes);
    ++bit)]: [bits] are the values of [bit] still to come, [limit] is
    [4 + cwBodyBytes]. *)
Fixpoint cwaScan (msb : bool) (buf : list Z) (valueMask window : Z) (limit : nat)
    (bits : list Z) (attrOffset : nat) (masks : gmap Z Z) : gmap Z Z :=
  match bits with
  | [] => masks
  | bit :: bits' =>
      if decide (attrOffset + 4 <= limit)%nat then
        if Z.testbit valueMask bit then
          let masks' :=
            if decide (bit = 11) then <[window := read32 msb buf attrOffset]> masks
            else masks in
          cwaScan msb buf valueMask window limit bits' (attrOffset + 4) masks'
        else cwaScan msb buf valueMask window limit bits' attrOffset masks
      else masks
  end.

(** The handler reads its own body: a body shorter than 8 bytes or longer
    than 256 bytes is read and dropped; otherwise it is read into the
    request buffer behind the header and the event mask (bit 11 of the value
    mask) is recorded.  A body of exactly 256 bytes ends four bytes behind
    the 256-byte buffer of the source; the model keeps those bytes where the
    source writes them.  The result is the state and the rest of the
    stream. *)
Definition changeWindowAttributes (length : Z) (buf stream : list Z) (s : Impl)
  : Impl * list Z :=
  let msb := msbFirst_ s in
  let cwBodyBytes := if decide (length > 1) then (length - 1) * 4 else 0 in
  if decide (cwBodyBytes < 8) then
    (s, if decide (cwBodyBytes > 0)
        then (recvIgnoringResult (Z.to_nat cwBodyBytes) stream).2
        else stream)
  else if decide (cwBodyBytes > 256) then
    (s, (recvIgnoringResult (Z.to_nat cwBodyBytes) stream).2)
  else
    match recvAll (Z.to_nat cwBodyBytes) stream with
    | None => (s, [])
    | Some (body, stream') =>
        let buf := copyInto buf 4 body in
        let window := read32 msb buf 4 in
        let valueMask := read32 msb buf 8 in
        let t := wins s in
        let masks := cwaScan msb buf valueMask window (Z.to_nat (4 + cwBodyBytes))
                             (seqZ 0 32) 12 (windowEventMasks t) in
        (setWins (mkWindowTable (childWindows t) (windowSizes t) (windowPositions t)
                                (unmappedWindows t) masks) s,
         stream')
    end.

(** *** SendEvent *)

(** The 32 bytes of the event stand at byte 12 of the request buffer; the
    handler stamps them with the sequence number of the last reply, sets the
    top bit of the first byte and sends them back. *)
Definition handleSendEvent (buf : list Z) (s : Impl) : Impl * Packets :=
  let evt := take 32 (drop 12 buf) in
  let evt := write16 (msbFirst_ s) evt 2 (lastReplySeq_ s) in
  let evt := <[0%nat := u8 (Z.lor (byteAt evt 0) 0x80)]> evt in
  (s, [evt]).

(** *** CopyArea *)

Record CopyAreaReq := mkCopyAreaReq {
  ca_srcId : Z; ca_dstId : Z;
  ca_srcX : Z; ca_srcY : Z; ca_dstX : Z; ca_dstY : Z;
  ca_w : Z; ca_h : Z
}.

Definition parseCopyArea (msb : bool) (buf : list Z) : CopyAreaReq :=
  mkCopyAreaReq (read32 msb buf 4) (read32 msb buf 8)
                (s16 (read16 msb buf 16)) (s16 (read16 msb buf 18))
                (s16 (read16 msb buf 20)) (s16 (read16 msb buf 22))
                (read16 msb buf 24) (read16 msb buf 26).

(** The pixel buffer a drawable resolves to: the framebuffer, or the pixel
    vector of a pixmap.  Source and destination may be the same buffer, so
    the copy loop reads and writes through the [Surface] that owns both. *)
Inductive PixelBuf :=
| FbBuf
| PixmapBuf (id : Z).

Definition bufPixels (f : Surface) (b : PixelBuf) : list Z :=
  match b with
  | FbBuf => framebuffer f
  | PixmapBuf id =>
      match pixmaps f !! id with
      | Some pd => pm_pixels pd
      | None => []
      end
  end.

Definition setBufPixel (b : PixelBuf) (i v : Z) (f : Surface) : Surface :=
  match b with
  | FbBuf =>
      mkSurface (width f) (height f) (setPixel (framebuffer f) i v) (dirty f)
                (originalChildW f) (originalChildH f)
                (pluginWidth f) (pluginHeight f) (pixmaps f)
  | PixmapBuf id =>
      match pixmaps f !! id with
      | Some pd =>
          mkSurface (width f) (height f) (framebuffer f) (dirty f)
                    (originalChildW f) (originalChildH f)
                    (pluginWidth f) (pluginHeight f)
                    (<[id := mkPixmapData (pm_w pd) (pm_h pd) (setPixel (pm_pixels pd) i v)]>
                       (pixmaps f))
      | None => f
      end
  end.

(** [srcIsWindow], [dstIsWindow]: the root ID or a member of the window
    list. *)
Definition isWindowDrawable (t : WindowTable) (id : Z) : bool :=
  bool_decide (id = kRootWindowId) || bool_decide (id ∈ childWindows t).

(** The pointer, width and height a drawable resolves to; [None] is the
    null pointer (no such drawable, or a pixmap whose pixel vector is empty,
    for which [data()] is null). *)
Definition resolvePixels (s : Impl) (id : Z) : option PixelBuf * Z * Z :=
  let f := surf s in
  if isWindowDrawable (wins s) id && negb (bool_decide (framebuffer f = []))
  then (Some FbBuf, fbWidth f, fbHeight f)
  else
    match pixmaps f !! id with
    | Some pd =>
        (if bool_decide (pm_pixels pd = []) then None else Some (PixmapBuf id),
         pm_w pd, pm_h pd)
    | None => (None, 0, 0)
    end.

(** The offset added to requests on a window other than the root and the
    top-level window. *)
Definition drawableOffset (t : WindowTable) (id : Z) : Z * Z :=
  if isWindowDrawable t id && bool_decide (id ≠ kRootWindowId)
     && negb (isTopLevelWindow t id)
  then getAbsolutePos t id
  else (0, 0).

Definition copyAreaLoop (src dst : PixelBuf) (sW sH dW dH srcX srcY dstX dstY cw ch : Z)
    (f : Surface) : Surface :=
  forRange ch (fun row f =>
    let sy := srcY + row in
    let dy := dstY + row in
    if decide (sy < 0 \/ sy >= sH \/ dy < 0 \/ dy >= dH) then f else
    forRange cw (fun col f =>
      let sx := srcX + col in
      let dx := dstX + col in
      if decide (sx < 0 \/ sx >= sW \/ dx < 0 \/ dx >= dW) then f else
      setBufPixel dst (dy * dW + dx) (pixelAt (bufPixels f src) (sy * sW + sx)) f)
      f) f.

Definition copyArea (r : CopyAreaReq) (s : Impl) : Impl :=
  let t := wins s in
  let f := surf s in
  let '(srcPixels, sW, sH) := resolvePixels s (ca_srcId r) in
  let '(dstPixels, dW, dH) := resolvePixels s (ca_dstId r) in
  let '(sox, soy) := drawableOffset t (ca_srcId r) in
  let '(dox, doy) := drawableOffset t (ca_dstId r) in
  let srcX := ca_srcX r + sox in
  let srcY := ca_srcY r + soy in
  let dstX := ca_dstX r + dox in
  let dstY := ca_dstY r + doy in
  match srcPixels, dstPixels with
  | Some src, Some dst =>
      if decide (ca_w r > 0 /\ ca_h r > 0) then
        let f' := copyAreaLoop src dst sW sH dW dH srcX srcY dstX dstY (ca_w r) (ca_h r) f in
        let f'' :=
          if isWindowDrawable t (ca_dstId r)
          then mkSurface (width f') (height f') (framebuffer f') true
                         (originalChildW f') (originalChildH f')
                         (pluginWidth f') (pluginHeight f') (pixmaps f')
          else f' in
        setSurf f'' s
      else s
  | _, _ => s
  end.

Definition handleCopyArea (buf : list Z) (s : Impl) : Impl * Packets :=
  (copyArea (parseCopyArea (msbFirst_ s) buf) s, []).

(** *** GLX *)

(** The properties of the one visual configuration, and the attribute
    pairs of the one framebuffer configuration; both are stored through a
    [uint32_t*], in host byte order. *)
Definition glxVisualProps : list Z :=
  [ kDefaultVisualId; 4; 1; 8; 8; 8; 8; 0; 0; 0; 0; 1; 0; 32; 24; 8; 0; 0 ].

Definition glxFBConfigAttribs : list (Z * Z) :=
  [ (0x8013, 1); (0x8010, 32); (0x8011, 0); (0x8012, 1); (0x8014, 4);
    (0x8015, 8); (0x8016, 8); (0x8017, 8); (0x8018, 8); (0x8019, 24);
    (0x801A, 8); (0x8020, 0x8002); (0x8021, 0x8001); (0x8022, 0); (0x8023, 0);
    (0x20, 0) ].

Definition glxVoidMinors : list Z := [ 1; 2; 3; 4; 8; 9; 10; 11; 18; 20; 21; 22 ].

(** The reply to the GLX request with sub-opcode [glxMinor]; [None] for the
    requests without reply. *)
Definition glxReply (msb : bool) (seq glxMinor : Z) : option (list Z) :=
  if decide (glxMinor = 7) then
    Some (buildPacket msb 32 [ PutAt 0 1; W16 2 seq; W32 8 1; W32 12 4 ])
  else if decide (glxMinor = 5 \/ glxMinor = 24) then
    Some (buildPacket msb 32 [ PutAt 0 1; W16 2 seq; W32 8 1 ])
  else if decide (glxMinor = 6) then
    Some (buildPacket msb 32 [ PutAt 0 1; W16 2 seq; PutAt 8 0 ])
  else if decide (glxMinor = 14) then
    let numConfigs := 1 in
    let numProps := 28 in
    let dataBytes := numConfigs * numProps * 4 in
    let padded := (dataBytes + 3) / 4 * 4 in
    let reply :=
      buildPacket msb (Z.to_nat (32 + padded))
        [ PutAt 0 1; W16 2 seq; W32 4 (padded / 4); W32 8 numConfigs; W32 12 numProps ] in
    Some (copyInto reply 32 (flat_map store32 glxVisualProps))
  else if decide (glxMinor = 19) then
    let numConfigs := 1 in
    let numAttribs := 28 in
    let dataBytes := numConfigs * numAttribs * 2 * 4 in
    let padded := (dataBytes + 3) / 4 * 4 in
    let reply :=
      buildPacket msb (Z.to_nat (32 + padded))
        [ PutAt 0 1; W16 2 seq; W32 4 (padded / 4); W32 8 numConfigs; W32 12 numAttribs ] in
    Some (copyInto reply 32
            (flat_map store32 (flat_map (fun '(key, val) => [key; val]) glxFBConfigAttribs)))
  else if decide (glxMinor = 17) then
    Some (buildPacket msb 36 [ PutAt 0 1; W16 2 seq; W32 4 1; W32 8 0 ])
  else if decide (glxMinor = 26) then
    Some (buildPacket msb 32 [ PutAt 0 1; W16 2 seq ])
  else if decide (glxMinor ∈ glxVoidMinors) then None
  else Some (buildPacket msb 32 [ PutAt 0 1; W16 2 seq ]).

Definition handleGLX (seq : Z) (buf : list Z) (s : Impl) : Impl * Packets :=
  match glxReply (msbFirst_ s) seq (byteAt buf 1) with
  | Some reply => sendReply reply seq s
  | None => (s, [])
  end.

(** ** The complete request turn *)

(** The header and the body of a request as [serverStep] reads them when the
    request is neither in BigRequests form nor a PutImage: opcode, length,
    request buffer, rest of the stream. *)
Definition readRequest (msb : bool) (buf0 stream : list Z)
  : option (Z * Z * list Z * list Z) :=
  match recvAll 4 stream with
  | None => None
  | Some (hdr, stream) =>
      let buf := copyInto buf0 0 hdr in
      let opcode := byteAt buf 0 in
      let length := read16 msb buf 2 in
      let '(buf, stream) :=
        if decide (length > 0 /\ opcode ≠ 2 /\ opcode ≠ 4 /\ opcode ≠ 38) then
          let extra := (length - 1) * 4 in
          let extra := if decide (extra > 65536) then 65536 else extra in
          let '(body, stream) := recvIgnoringResult (Z.to_nat extra) stream in
          if decide (extra > 256 - 4)
          then (buf, stream)
          else (copyInto buf 4 body, stream)
        else (buf, stream) in
      Some (opcode, length, buf, stream)
  end.

(** The cases of the [switch] that [dispatch] leaves out. *)
Definition dispatchRest (opcode length seq : Z) (buf stream : list Z) (ptr : Pointer)
    (s : Impl) : StepOutcome :=
  let ret (r : Impl * Packets) := Next r.1 seq stream r.2 in
  if decide (opcode = X11Op.ChangeWindowAttributes) then
    let r := changeWindowAttributes length buf stream s in
    Next r.1 seq r.2 []
  else if decide (opcode = X11Op.GetWindowAttributes) then
    ret (handleGetWindowAttributes seq buf s)
  else if decide (opcode = X11Op.SendEvent) then ret (handleSendEvent buf s)
  else if decide (opcode = X11Op.QueryPointer) then
    let r := queryPointer length seq stream ptr s in
    Next r.1.1 seq r.1.2 r.2
  else if decide (opcode = 40) then ret (handleTranslateCoordinates seq buf s)
  else if decide (opcode = 62) then ret (handleCopyArea buf s)
  else if decide (opcode = X11Op.QueryExtension) then ret (handleQueryExtension seq buf s)
  else if decide (opcode = X11Op.ListExtensions) then ret (handleListExtensions seq s)
  else if decide (opcode = X11Op.kGLXMajorOpcode) then ret (handleGLX seq buf s)
  else NotEmbedded.

Section turn.
Variable scaleToInt : Z -> Z.

(** One request of the client, whatever its opcode: [serverStep], and for
    the opcodes it leaves out the handlers above. *)
Definition serverTurn (buf0 : list Z) (ptr : Pointer) (s : Impl) (seq : Z) (stream : list Z)
  : StepOutcome :=
  match serverStep scaleToInt buf0 s seq stream with
  | NotEmbedded =>
      match readRequest (msbFirst_ s) buf0 stream with
      | Some (opcode, length, buf, stream') =>
          dispatchRest opcode length (u16 (seq + 1)) buf stream' ptr s
      | None => Closed
      end
  | r => r
  end.

(** The requests of [stream], one after the other.  [buf] is declared in
    the body of the loop: what a turn finds in it is whatever the turns
    before left in its place; and the pointer state is what the touch
    events drained since the turn before made of it.  [turns] gives both for
    every turn of the run. *)
Fixpoint serverTurns (turns : list (list Z * Pointer))
    (s : Impl) (seq : Z) (stream : list Z) (out : Packets)
  : Impl * Z * list Z * Packets :=
  match turns with
  | [] => (s, seq, stream, out)
  | (buf0, ptr) :: turns' =>
      match serverTurn buf0 ptr s seq stream with
      | Next s' seq' stream' out' =>
          serverTurns turns' s' seq' stream' (out ++ out')
      | _ => (s, seq, stream, out)
      end
  end.
End turn.


(** ** Reading the replies *)

(** The [map_state] byte of a GetWindowAttributes reply. *)
Definition replyMapState (reply : list Z) : Z := byteAt reply 26.

(** The destination coordinates carried by a TranslateCoordinates reply. *)
Definition replyDstXY (msb : bool) (reply : list Z) : Z * Z :=
  (s16 (read16 msb reply 12), s16 (read16 msb reply 14)).


(** The map state reported for window [wid] in state [s]: the [map_state]
    byte of the reply GetWindowAttributes sends. *)
Definition mapStateOf (seq wid : Z) (s : Impl) : Z :=
  replyMapState (default [] (head (getWindowAttributes seq wid s).2)).

(** The destination point of the reply TranslateCoordinates sends to the
    request in [buf]. *)
Definition translatedXY (seq : Z) (buf : list Z) (s : Impl) : Z * Z :=
  replyDstXY (msbFirst_ s) (default [] (head (handleTranslateCoordinates seq buf s).2)).

(** A TranslateCoordinates request from window 200 to the root for the point
    (3,4), and the request back from the root to window 200 for the point
    (8,9). *)
Definition bufTranslateOut : list Z :=
  [40; 0; 4; 0;  200; 0; 0; 0;  1; 0; 0; 0;  3; 0;  4; 0].

Definition bufTranslateBack : list Z :=
  [40; 0; 4; 0;  1; 0; 0; 0;  200; 0; 0; 0;  8; 0;  9; 0].

(** ** Graceful teardown inside the request loop *)

Definition destroyNotifyEvent (msb : bool) (evtSeq wid : Z) : list Z :=
  buildPacket msb 32
    [ PutAt 0 X11Event.DestroyNotify; PutAt 1 0; W16 2 evtSeq; W32 4 wid; W32 8 wid ].

(** The state of the request loop that the teardown branch touches. *)
Record Closing := mkClosing {
  destroyNotifySent : bool;
  cl_seq : Z
}.

(** The branch [if (closingGracefully.load())] of one loop iteration, taken
    before anything is read from the socket: DestroyNotify for every window
    unless already sent, then the test of the two-second timeout.  Time is
    counted in ticks of the steady clock (nanoseconds).  The result is the
    new loop state, the events sent, and whether the loop is left
    ([break]). *)
Definition teardownTurn (now closeStartTime : Z) (s : Impl) (c : Closing)
  : Closing * Packets * bool :=
  let ws := childWindows (wins s) in
  let '(c', out) :=
    if negb (destroyNotifySent c) && negb (bool_decide (ws = [])) then
      (mkClosing true (u16 (cl_seq c + Z.of_nat (length ws))),
       (fun wid => destroyNotifyEvent (msbFirst_ s) (lastReplySeq_ s) wid) <$> ws)
    else (c, []) in
  (c', out, bool_decide (now - closeStartTime > 2000000000)).

(** The loop while [closingGracefully] is set: one iteration for every
    reading of the clock in [nows], until one of them leaves the loop. *)
Fixpoint teardownRun (closeStartTime : Z) (s : Impl) (nows : list Z) (c : Closing)
    (out : Packets) : Closing * Packets * bool :=
  match nows with
  | [] => (c, out, false)
  | now :: nows' =>
      let '(c', out', leave) := teardownTurn now closeStartTime s c in
      if leave then (c', out ++ out', true)
      else teardownRun closeStartTime s nows' c' (out ++ out')
  end.

(** ** The display states kept by the JNI bridge ([jni/NativeBridge.cpp]) *)

(** What the bridge asks of the other modules, in order. *)
Inductive BridgeAction :=
| ActCreatePluginUI (pluginIndex displayNumber : Z)
| ActDestroyPluginUI (pluginIndex : Z)
| ActDetachSurface (displayNumber : Z)
| ActDestroyDisplay (displayNumber : Z).

Record Bridge := mkBridge {
  br_displayStates : gmap Z DisplayState;
  br_creatingPluginUI : bool;
  br_displays : gset Z;
  br_actions : list BridgeAction
}.

(** A default-constructed [DisplayState]. *)
Definition defaultDisplayState : DisplayState := mkDisplayState PhaseNone (-1) false.

Definition getDisplayPhase (displayNumber : Z) (b : Bridge) : Phase :=
  match br_displayStates b !! displayNumber with
  | Some ds => phase ds
  | None => PhaseNone
  end.

(** [displayStates()[displayNumber].phase = phase] *)
Definition setDisplayPhase (displayNumber : Z) (ph : Phase) (b : Bridge) : Bridge :=
  let ds := default defaultDisplayState (br_displayStates b !! displayNumber) in
  mkBridge (<[displayNumber := mkDisplayState ph (pluginIndex ds) (detachPending ds)]>
              (br_displayStates b))
           (br_creatingPluginUI b) (br_displays b) (br_actions b).

Definition nativeBeginCreatePluginUI (displayNumber pluginIdx : Z) (b : Bridge) : Bridge :=
  mkBridge (<[displayNumber := mkDisplayState Creating pluginIdx false]> (br_displayStates b))
           true (br_displays b) (br_actions b).

(** [hasEngine] is [g_ctx->audioEngine != nullptr]; [result] is what
    [createPluginUI] returns. *)
Definition nativeCreatePluginUI (pluginIdx displayNumber : Z) (hasEngine result : bool)
    (b : Bridge) : Bridge * bool :=
  if negb hasEngine then (setDisplayPhase displayNumber PhaseNone b, false)
  else
    let b := mkBridge (br_displayStates b) (br_creatingPluginUI b) (br_displays b)
                      (br_actions b ++ [ActCreatePluginUI pluginIdx displayNumber]) in
    let '(pending, states) :=
      match br_displayStates b !! displayNumber with
      | Some ds =>
          (detachPending ds,
           <[displayNumber := mkDisplayState (if result then Ready else PhaseNone)
                                              (pluginIndex ds) (detachPending ds)]>
             (br_displayStates b))
      | None => (false, br_displayStates b)
      end in
    let b := mkBridge states (br_creatingPluginUI b) (br_displays b) (br_actions b) in
    let b :=
      if pending && result then
        setDisplayPhase displayNumber PhaseNone
          (mkBridge (br_displayStates b) (br_creatingPluginUI b) (br_displays b)
                    (br_actions b ++ [ActDestroyPluginUI pluginIdx]))
      else b in
    (mkBridge (br_displayStates b) false (br_displays b) (br_actions b), result).

Definition nativeSignalDetachSurfaceFromDisplay (displayNumber : Z) (b : Bridge)
  : Bridge * bool :=
  match getDisplayPhase displayNumber b with
  | Creating =>
      (match br_displayStates b !! displayNumber with
       | Some ds =>
           mkBridge (<[displayNumber := mkDisplayState (phase ds) (pluginIndex ds) true]>
                       (br_displayStates b))
                    (br_creatingPluginUI b) (br_displays b) (br_actions b)
       | None => b
       end, true)
  | _ =>
      (match br_displayStates b !! displayNumber with
       | Some ds =>
           mkBridge (<[displayNumber := mkDisplayState Destroying (pluginIndex ds)
                                                        (detachPending ds)]>
                       (br_displayStates b))
                    (br_creatingPluginUI b) (br_displays b) (br_actions b)
       | None => b
       end, true)
  end.

Definition nativeDetachAndDestroyX11DisplayIfExists (displayNumber : Z) (b : Bridge) : Bridge :=
  match getDisplayPhase displayNumber b with
  | Creating => b
  | _ =>
      let b := setDisplayPhase displayNumber Destroying b in
      let b :=
        if decide (displayNumber ∈ br_displays b) then
          mkBridge (br_displayStates b) (br_creatingPluginUI b)
                   (br_displays b ∖ {[displayNumber]})
                   (br_actions b ++ [ActDetachSurface displayNumber;
                                     ActDestroyDisplay displayNumber])
        else b in
      mkBridge (delete displayNumber (br_displayStates b)) (br_creatingPluginUI b)
               (br_displays b) (br_actions b)
  end.

(** ** Predicates used in the statements about replies and events *)

(** How a client cuts the bytes it receives into packets: a packet whose
    first byte is 1 is a reply and is 32 bytes long plus four times the
    length field at bytes 4 to 7; any other packet is 32 bytes long. *)
Definition wellFramed (msb : bool) (pkt : list Z) : Prop :=
  if decide (byteAt pkt 0 = 1)
  then Z.of_nat (length pkt) = 32 + 4 * read32 msb pkt 4
  else length pkt = 32%nat.

(** A well-framed reply that carries the sequence number [seq]. *)
Definition replyOK (msb : bool) (seq : Z) (pkt : list Z) : Prop :=
  byteAt pkt 0 = 1
  /\ read16 msb pkt 2 = u16 seq
  /\ Z.of_nat (length pkt) = 32 + 4 * read32 msb pkt 4.

(** A 32-byte packet that is no reply and carries the sequence number
    [lastReply]. *)
Definition eventOK (msb : bool) (lastReply : Z) (pkt : list Z) : Prop :=
  byteAt pkt 0 <> 1
  /\ read16 msb pkt 2 = u16 lastReply
  /\ length pkt = 32%nat.

(** What one request makes the server write: either one reply, numbered
    [seq] and recorded as the last reply, or events only, numbered by the
    last reply sent before. *)
Definition turnOK (s : Impl) (seq : Z) (s' : Impl) (out : Packets) : Prop :=
  (exists reply, out = [reply] /\ replyOK (msbFirst_ s) seq reply
                 /\ lastReplySeq_ s' = seq)
  \/ (Forall (eventOK (msbFirst_ s) (lastReplySeq_ s)) out
      /\ lastReplySeq_ s' = lastReplySeq_ s).

(** Every atom name fits the 16-bit length field of a GetAtomName reply. *)
Definition atomNamesShort (a : AtomTable) : Prop :=
  forall id name, atomIdToName a !! id = Some name -> (length name <= 256)%nat.

(** A handler's result [r] is in order: what it wrote is, the byte order of
    the connection is kept, and the atom names still fit. *)
Definition handlerOK (s : Impl) (seq : Z) (r : Impl * Packets) : Prop :=
  turnOK s seq r.1 r.2
  /\ atomNamesShort (atoms r.1)
  /\ msbFirst_ r.1 = msbFirst_ s.

(** The length of a request in four-byte words as the client states it: the
    16-bit length field, or, when that is zero (BigRequests form), the 32-bit
    word behind the header. *)
Definition requestWords (msb : bool) (req : list Z) : Z :=
  if decide (read16 msb req 2 = 0) then read32 msb req 4 else read16 msb req 2.

(** The requests whose stated length the request loop follows to the byte:
    a BigRequests request of at least two words; a DestroyWindow of two
    words; a PutImage of at least six words; and, apart from
    ChangeWindowAttributes, QueryPointer and PutImage (which read their own
    bodies), a request of at most 16385 words, the size up to which the
    generic body read is not capped. *)
Definition followsLength (msb : bool) (req : list Z) : Prop :=
  let opcode := byteAt req 0 in
  let len := read16 msb req 2 in
  if decide (len = 0) then 2 <= read32 msb req 4
  else (opcode = X11Op.DestroyWindow -> len = 2)
       /\ (opcode = X11Op.PutImage -> 6 <= len)
       /\ (opcode ≠ X11Op.ChangeWindowAttributes -> opcode ≠ X11Op.QueryPointer ->
           opcode ≠ X11Op.PutImage -> len <= 16385).

(** ** Proof automation *)

(** Bit-level equalities between the integers the codec and the pixel code
    build with shifts, masks and bitwise or: both sides are compared bit by
    bit, the bit index being split at the byte boundaries. *)
Ltac bits_step :=
  match goal with
  | |- context [Z.testbit (Z.lor _ _) _] => rewrite Z.lor_spec
  | |- context [Z.testbit (Z.land _ _) _] => rewrite Z.land_spec
  | |- context [Z.testbit (Z.shiftr ?a ?k) ?n] => rewrite (Z.shiftr_spec a k n) by lia
  | |- context [Z.testbit (Z.shiftl ?a ?k) ?n] => rewrite (Z.shiftl_spec a k n) by lia
  | |- context [Z.testbit (?a mod 2 ^ ?k) ?n] => rewrite (Z.testbit_mod_pow2 a k n) by lia
  | |- context [Z.testbit (Z.ones ?k) ?n] => rewrite (Z.testbit_ones_nonneg k n) by lia
  | |- context [Z.testbit ?a ?n] => rewrite (Z.testbit_neg_r a n) by lia
  | |- context [Z.testbit 0 ?n] => rewrite (Z.testbit_0_l n)
  | |- context [(?a <? ?b)] => destruct (Z.ltb_spec a b); try lia
  end.

Ltac bits_words :=
  unfold u8, u16, u32;
  change 0xff with (Z.ones 8);
  change 65536 with (2 ^ 16);
  change 4294967296 with (2 ^ 32).

Ltac bits_cases n :=
  destruct (Z_lt_le_dec n 8);
  [|destruct (Z_lt_le_dec n 16);
    [|destruct (Z_lt_le_dec n 24);
      [|destruct (Z_lt_le_dec n 32)]]].

Ltac bits_close :=
  repeat bits_step;
  cbn [andb orb negb];
  repeat first
    [ rewrite orb_false_r | rewrite orb_false_l | rewrite andb_true_r | rewrite andb_true_l
    | rewrite andb_false_r | rewrite andb_false_l | rewrite orb_true_r | rewrite orb_true_l ];
  try done;
  try (f_equal; lia).

Ltac list_insert_lookup :=
  repeat first
    [ rewrite list_lookup_insert_eq by (rewrite ?length_insert; lia)
    | rewrite list_lookup_insert_ne by lia ].

(** A packet built from concrete steps is computed down to its bytes, the
    arithmetic on the values it carries being left alone. *)
Ltac packet_compute :=
  cbn -[u8 u16 u32 s16 s32 Z.shiftr Z.shiftl Z.lor Z.land Z.div Z.modulo
        Z.mul Z.add Z.sub Z.of_nat Z.to_nat].

(** * Theorems *)

(** ** Wire codec *)

Lemma u16_range v : 0 <= u16 v < 65536.
Proof. unfold u16. apply Z.mod_pos_bound. lia. Qed.

Lemma split16_be v :
  0 <= v < 65536 -> decode_be [u8 (Z.shiftr v 8); u8 v] = v.
Proof.
  intros Hv. unfold decode_be, u8. cbn [foldl].
  change 0xff with (Z.ones 8). rewrite !Z.land_ones by lia.
  rewrite Z.shiftr_div_pow2 by lia.
  change (2 ^ 8) with 256.
  rewrite (Z.mod_small (v / 256)) by (split; [apply Z.div_pos|apply Z.div_lt_upper_bound]; lia).
  pose proof (Z.div_mod v 256 ltac:(lia)). lia.
Qed.

Lemma split16_le v :
  0 <= v < 65536 -> decode_le [u8 v; u8 (Z.shiftr v 8)] = v.
Proof. intros Hv. unfold decode_le. cbn [reverse rev_append]. by apply split16_be. Qed.


(** ** Connection setup *)

(** C5. For every accepted connection the setup reply handed to the socket
    is exactly 120 bytes long, whatever the local array held before, and
    every multi-byte integer field of it reads back as its value in the byte
    order announced by the first byte of the client's connection request:
    most significant byte first when that byte is 0x42, least significant
    byte first otherwise.  The image-byte-order and bitmap-bit-order bytes
    announce the same order. *)
Theorem connection_reply_120_bytes_in_declared_order
    (req : list Z) (width height : Z) (body0 : list Z) :
  length body0 = 120%nat ->
  let msb := bool_decide (byteAt req 0 = 0x42) in
  let out := handshakeReply req width height body0 in
  length out = 120%nat
  /\ Forall (fun '(off, n, v) => decodeField msb out off n = v)
            (setupFields width height)
  /\ byteAt out 30 = b2z msb /\ byteAt out 31 = b2z msb.
Proof.
  intros Hlen msb out. subst out. unfold handshakeReply, negotiateByteOrder.
  fold msb. clearbody msb.
  do 120 (destruct body0 as [|? body0]; [discriminate Hlen|]).
  destruct body0; [|discriminate Hlen]. clear Hlen.
  unfold sendConnectionReply, connectionReplySteps, setupFields.
  destruct msb;
    cbn -[u8 u16 Z.shiftr Z.quot Z.mul decodeField byteAt];
    (split; [reflexivity|]); (split; [|split; reflexivity]);
    repeat (apply Forall_cons; split;
            [unfold decodeField, fieldBytes, fld; cbn [take drop];
             first [ reflexivity
                   | apply split16_be; apply u16_range
                   | apply split16_le; apply u16_range ]|]);
    apply Forall_nil; exact I.
Qed.

Lemma connection_reply_120_bytes_in_declared_order_witness :
  let req := [0x6c; 0; 11; 0; 0; 0; 0; 0; 0; 0; 0; 0] in
  let out := handshakeReply req 1080 1920 (repeat 7 120%nat) in
  length out = 120%nat
  /\ Forall (fun '(off, n, v) => decodeField false out off n = v)
            (setupFields 1080 1920)
  /\ byteAt out 30 = 0 /\ byteAt out 31 = 0.
Proof.
  exact (connection_reply_120_bytes_in_declared_order
           [0x6c; 0; 11; 0; 0; 0; 0; 0; 0; 0; 0; 0] 1080 1920
           (repeat 7 120%nat) eq_refl).
Defined.

(** ** getAbsolutePos *)

Lemma absWalk_runs t k :
  forall ax ay cur depth,
    depth = 32 - Z.of_nat k ->
    exists n, (n <= k)%nat /\
      walkRuns t (mkWalkVars ax ay cur depth) n (absWalk t k ax ay cur).
Proof.
  induction k as [|k IH]; intros ax ay cur depth Hd.
  - exists 0%nat. split; [lia|]. apply walkRuns_done.
    unfold walkIter; cbn. case_decide; [lia|done].
  - cbn [absWalk].
    destruct (windowPositions t !! cur) as [p|] eqn:Hp.
    + destruct (walkStops t (wp_parent p)) eqn:Hs.
      * exists 1%nat. split; [lia|]. apply walkRuns_break.
        unfold walkIter; cbn. case_decide; [|lia]. by rewrite Hp, Hs.
      * destruct (IH (ax + wp_x p) (ay + wp_y p) (wp_parent p) (depth + 1))
          as (n & Hn & Hrun); [lia|].
        exists (S n). split; [lia|].
        eapply walkRuns_again; [|exact Hrun].
        unfold walkIter; cbn. case_decide; [|lia]. by rewrite Hp, Hs.
    + exists 1%nat. split; [lia|]. apply walkRuns_break.
      unfold walkIter; cbn. case_decide; [|lia]. by rewrite Hp.
Qed.

Lemma walkRuns_functional t v n r :
  walkRuns t v n r -> forall n' r', walkRuns t v n' r' -> n = n' /\ r = r'.
Proof.
  induction 1 as [v ax ay H|v ax ay H|v v' n r H Hrun IH];
    intros n' r' Hrun'; inversion Hrun'; subst; try congruence.
  - split; congruence.
  - split; congruence.
  - assert (v' = v'0) by congruence. subst v'0.
    destruct (IH _ _ H1) as [-> ->]. done.
Qed.

(** C10. [getAbsolutePos] terminates on every window table, cyclic parent
    links included: run as a loop with no bound but its own test
    [depth < 32], it enters its body at most 32 times and returns the value
    the function computes; and whenever the body is entered it leaves the
    loop at once if the current window has no position entry, or, after
    adding that window's offset, if the parent is the top-level plugin
    window, the root window, or 0. *)
Theorem getAbsolutePos_terminates (t : WindowTable) (wid : Z) :
  (exists n, (n <= 32)%nat /\ walkRuns t (walkStart wid) n (getAbsolutePos t wid))
  /\ (forall v, wv_depth v < 32 ->
        windowPositions t !! wv_cur v = None ->
        walkIter t v = WalkBreak (wv_ax v) (wv_ay v))
  /\ (forall v p, wv_depth v < 32 ->
        windowPositions t !! wv_cur v = Some p ->
        (wp_parent p = kRootWindowId \/ wp_parent p = 0
         \/ exists rest, childWindows t = wp_parent p :: rest) ->
        walkIter t v = WalkBreak (wv_ax v + wp_x p) (wv_ay v + wp_y p)).
Proof.
  split; [|split].
  - apply absWalk_runs. reflexivity.
  - intros v Hd Hnone. unfold walkIter. case_decide; [|lia]. by rewrite Hnone.
  - intros v p Hd Hp Hstop. unfold walkIter. case_decide; [|lia]. rewrite Hp.
    assert (walkStops t (wp_parent p) = true) as ->; [|done].
    unfold walkStops. destruct Hstop as [Hr|[Hz|[rest Hc]]].
    + rewrite (bool_decide_eq_true_2 _ Hr). by rewrite orb_true_r.
    + rewrite (bool_decide_eq_true_2 _ Hz). by rewrite orb_true_r.
    + rewrite Hc. by rewrite bool_decide_eq_true_2.
Qed.

Example getAbsolutePos_cyclic :
  getAbsolutePos cyclicTable 9 = (96, 160)
  /\ walkRuns cyclicTable (walkStart 9) 32 (96, 160).
Proof.
  split; [vm_compute; reflexivity|].
  do 32 (eapply walkRuns_again; [vm_compute; reflexivity|]).
  apply walkRuns_done. vm_compute; reflexivity.
Qed.

(** ** Deferred detach *)

(** C9. A [signalDetach] that arrives while plugin UI creation is in
    progress for the display (its state record is in phase [Creating])
    reports "deferred" and changes nothing but the deferred flag: the
    graceful-closing flag and its start time, the run flags of the threads
    and both sockets are as before; [detachSurface] in the same situation
    stops there as well, joining no thread and closing no socket.
    Conversely a [signalDetach] that starts the graceful teardown was not
    made while creation was in progress. *)
Theorem signalDetach_deferred_while_creating
    (displayStates : gmap Z DisplayState) (displayNumber now : Z)
    (ds : DisplayState) (l : Lifecycle) :
  displayStates !! displayNumber = Some ds ->
  phase ds = Creating ->
  let deferredState :=
    mkLifecycle true (closingGracefully l) (closeStartTime l) (running l)
                (renderThreadRunning l) (pluginUIRunning l)
                (serverThreadJoinable l) (renderThreadJoinable l)
                (pluginUIThreadJoinable l) (windowAttached l)
                (clientFd l) (serverFd l) in
  signalDetachFor displayStates displayNumber now l = (deferredState, true)
  /\ (clientFd l >= 0 \/ serverThreadJoinable l = true ->
      forall serverThreadEnds renderThreadEnds,
        detachSurface (isCreatingPluginUIForDisplay displayStates displayNumber)
                      serverThreadEnds renderThreadEnds now l
        = Some deferredState)
  /\ (forall creating l0,
        closingGracefully l0 = false ->
        closingGracefully (signalDetach creating now l0).1 = true ->
        creating = false).
Proof.
  intros Hds Hphase deferredState.
  assert (isCreatingPluginUIForDisplay displayStates displayNumber = true) as Hcr.
  { unfold isCreatingPluginUIForDisplay. by rewrite Hds, Hphase. }
  unfold signalDetachFor. rewrite Hcr. split; [reflexivity|]. split.
  - intros Hattached serverThreadEnds renderThreadEnds. unfold detachSurface.
    assert (bool_decide (clientFd l < 0) && negb (serverThreadJoinable l) = false) as ->.
    { destruct Hattached as [Hfd| ->].
      - rewrite bool_decide_eq_false_2 by lia. done.
      - by rewrite andb_false_r. }
    reflexivity.
  - intros creating l0 Hno Hyes. destruct creating; [|done].
    cbn in Hyes. congruence.
Qed.

Lemma signalDetach_deferred_while_creating_witness :
  signalDetachFor displaysCreating 0 1000 lifecycleRunning
  = (mkLifecycle true false 0 true true true true true true true 5 4, true)
  /\ (clientFd lifecycleRunning >= 0 \/ serverThreadJoinable lifecycleRunning = true ->
      forall serverThreadEnds renderThreadEnds,
        detachSurface (isCreatingPluginUIForDisplay displaysCreating 0)
                      serverThreadEnds renderThreadEnds 1000 lifecycleRunning
        = Some (mkLifecycle true false 0 true true true true true true true 5 4))
  /\ (forall creating l0,
        closingGracefully l0 = false ->
        closingGracefully (signalDetach creating 1000 l0).1 = true ->
        creating = false).
Proof.
  exact (signalDetach_deferred_while_creating displaysCreating 0 1000
           (mkDisplayState Creating 2 false) lifecycleRunning eq_refl eq_refl).
Defined.

(** Outside plugin UI creation [detachSurface] joins the server thread,
    whose loop runs while [running] is set; nothing clears that flag, so the
    call returns only where the thread ends for another reason (its
    [accept] fails), and blocks otherwise. *)
Lemma detachSurface_blocks_on_server_thread :
  detachSurface false false true 1000 lifecycleRunning = None
  /\ detachSurface false true true 1000 lifecycleRunning
     = Some (mkLifecycle false true 1000 true true false false false false false (-1) (-1)).
Proof. split; reflexivity. Qed.

(** ** Hit testing *)

Lemma hitCandidate_spec t x y wid :
  match hitCandidate t x y wid with
  | Some r =>
      containsPoint t x y wid
      /\ r = mkHitResult wid (x - (getAbsolutePos t wid).1) (y - (getAbsolutePos t wid).2)
  | None => ~ containsPoint t x y wid
  end.
Proof.
  unfold hitCandidate, containsPoint.
  destruct (decide (wid ∈ unmappedWindows t)) as [Hin|Hnin].
  { intros [Hn _]. done. }
  destruct (windowPositions t !! wid) as [p|] eqn:Hp.
  2:{ intros (_ & [? Hs] & _). done. }
  destruct (windowSizes t !! wid) as [[ww wh]|] eqn:Hsz.
  2:{ intros (_ & _ & ww & wh & Hs & _). done. }
  destruct (getAbsolutePos t wid) as [wx wy] eqn:Habs. cbn [fst snd].
  case_decide as Hc.
  - split; [|done]. split; [done|]. split; [by eexists|].
    exists ww, wh. split; [done|]. lia.
  - intros (_ & _ & ww' & wh' & Hs & Hx & Hy).
    assert (ww' = ww /\ wh' = wh) as [-> ->] by (split; congruence).
    apply Hc. lia.
Qed.

Lemma hitScan_reverse t x y (l : list Z) :
  match hitScan t x y (reverse l) with
  | Some r =>
      exists j, l !! j = Some (hr_wid r)
        /\ containsPoint t x y (hr_wid r)
        /\ r = mkHitResult (hr_wid r) (x - (getAbsolutePos t (hr_wid r)).1)
                           (y - (getAbsolutePos t (hr_wid r)).2)
        /\ forall k w, (j < k)%nat -> l !! k = Some w -> ~ containsPoint t x y w
  | None => forall k w, l !! k = Some w -> ~ containsPoint t x y w
  end.
Proof.
  induction l as [|a l IH] using rev_ind.
  - cbn. intros k w Hk. by rewrite lookup_nil in Hk.
  - rewrite reverse_snoc. cbn [hitScan].
    pose proof (hitCandidate_spec t x y a) as Ha.
    destruct (hitCandidate t x y a) as [r|].
    + destruct Ha as [Hc ->]. cbn [hr_wid]. exists (length l).
      split; [by rewrite list_lookup_middle|]. split; [done|]. split; [done|].
      intros k w Hk Hl. apply lookup_lt_Some in Hl. rewrite length_app in Hl.
      cbn in Hl. lia.
    + destruct (hitScan t x y (reverse l)) as [r|].
      * destruct IH as (j & Hj & Hc & Hr & Hlast).
        exists j. split; [by apply lookup_app_l_Some|]. split; [done|]. split; [done|].
        intros k w Hk Hl. apply lookup_app_Some in Hl as [Hl|[Hlen Hl]].
        -- by eapply Hlast.
        -- apply list_lookup_singleton_Some in Hl as [_ <-]. done.
      * intros k w Hl. apply lookup_app_Some in Hl as [Hl|[Hlen Hl]].
        -- by eapply IH.
        -- apply list_lookup_singleton_Some in Hl as [_ <-]. done.
Qed.

(** C2 (as the code has it).  When some mapped window after the first entry
    of the window list contains the point, hit testing returns the one of
    them that stands last in the list (the most recently created or raised),
    with the point in that window's coordinates.  Where every window stands
    after its parent in the list, the window returned is not the parent of
    any mapped window that contains the point, however much the parent
    overlaps its child; with distinct window IDs it is never the top-level
    window.  An unmapped window is never found by the search: when the
    result is unmapped, it is the fallback.  The fallback is the top-level
    window (the root when there is no window) with the point unchanged, and
    it is what hit testing returns, whether mapped or not, whenever no
    mapped window after the first entry contains the point. *)
Theorem hitTest_topmost_mapped_child (t : WindowTable) (x y : Z) :
  let r := hitTestChildWindow t x y in
  (forall i wid,
      (1 <= i)%nat -> childWindows t !! i = Some wid -> containsPoint t x y wid ->
      exists j, (i <= j)%nat
        /\ childWindows t !! j = Some (hr_wid r)
        /\ containsPoint t x y (hr_wid r)
        /\ hr_localX r = x - (getAbsolutePos t (hr_wid r)).1
        /\ hr_localY r = y - (getAbsolutePos t (hr_wid r)).2
        /\ (forall k w, (j < k)%nat -> childWindows t !! k = Some w ->
                        ~ containsPoint t x y w)
        /\ (parentsFirst t ->
            forall k w pos,
              childWindows t !! k = Some w -> containsPoint t x y w ->
              windowPositions t !! w = Some pos -> hr_wid r ≠ wp_parent pos)
        /\ (NoDup (childWindows t) -> hr_wid r ≠ topWindow t))
  /\ (hr_wid r ∈ unmappedWindows t ->
      r = mkHitResult (topWindow t) x y
      /\ forall i wid, (1 <= i)%nat -> childWindows t !! i = Some wid ->
                       ~ containsPoint t x y wid)
  /\ ((forall i wid, (1 <= i)%nat -> childWindows t !! i = Some wid ->
                     ~ containsPoint t x y wid) ->
      r = mkHitResult (topWindow t) x y).
Proof.
  intros r. subst r. unfold hitTestChildWindow.
  pose proof (hitScan_reverse t x y (tail (childWindows t))) as Hscan.
  destruct (hitScan t x y (reverse (tail (childWindows t)))) as [r|]; cbn [default].
  - destruct Hscan as (j & Hj & Hc & Hr & Hlast). rewrite lookup_tail in Hj.
    assert (forall k w, (S j < k)%nat -> childWindows t !! k = Some w ->
                        ~ containsPoint t x y w) as Hlast'.
    { intros k w Hk Hlk. destruct k as [|k]; [lia|].
      apply (Hlast k w); [lia| by rewrite lookup_tail]. }
    split; [|split].
    + intros i wid Hi Hl Hcw. exists (S j).
      assert (i <= S j)%nat as Hij.
      { destruct (decide (i <= S j)%nat) as [|Hgt]; [done|]. exfalso.
        apply (Hlast' i wid); [lia|done|done]. }
      split; [done|]. split; [done|]. split; [done|].
      split; [by rewrite Hr|]. split; [by rewrite Hr|]. split; [done|]. split.
      * intros Hpf k w pos Hk Hcw' Hpos Hparent.
        assert (S j < k)%nat as Hlt by (eapply (Hpf k (S j) w); done).
        by apply (Hlast' k w).
      * intros Hnd Heq. unfold topWindow in Heq.
        destruct (childWindows t) as [|top rest] eqn:Hcws; [done|].
        subst top. cbn in Hj.
        apply NoDup_cons in Hnd as [Hnotin _]. apply Hnotin.
        apply list_elem_of_lookup. by exists j.
    + intros Hun. destruct Hc as [Hmapped _]. done.
    + intros Hnone. exfalso. by apply (Hnone (S j) (hr_wid r)); [lia| |].
  - assert (forall i wid, (1 <= i)%nat -> childWindows t !! i = Some wid ->
                          ~ containsPoint t x y wid) as Hnone.
    { intros i wid Hi Hl. destruct i as [|i]; [lia|].
      apply (Hscan i wid). by rewrite lookup_tail. }
    split; [|split].
    + intros i wid Hi Hl Hcw. exfalso. by apply (Hnone i wid).
    + intros _. done.
    + done.
Qed.

(** C2, as stated, fails on two inputs.  A top-level window that was
    created and never mapped is what hit testing returns for a point inside
    it.  And where window 400 stands before its parent 900 in the window
    list, hit testing returns the parent 900 for the point (10,10), which
    lies inside the mapped child 400 (absolute rectangle from (7,7) to
    (17,17)). *)
Lemma hitTest_returns_unmapped_top_level_or_parent :
  (hitTestChildWindow (wins stateUnmappedTop) 5 5 = mkHitResult 100 5 5
   /\ 100 ∈ unmappedWindows (wins stateUnmappedTop)
   /\ childWindows (wins stateUnmappedTop) = [100])
  /\ (childWindows (wins stateChildFirst) = [100; 400; 900]
      /\ windowPositions (wins stateChildFirst) !! 400 = Some (mkWindowPos 2 2 900)
      /\ windowSizes (wins stateChildFirst) !! 400 = Some (10, 10)
      /\ getAbsolutePos (wins stateChildFirst) 400 = (7, 7)
      /\ unmappedWindows (wins stateChildFirst) = ∅
      /\ hitTestChildWindow (wins stateChildFirst) 10 10 = mkHitResult 900 5 5).
Proof.
  split.
  - split; [vm_compute; reflexivity|]. split; [|vm_compute; reflexivity].
    apply (bool_decide_eq_true_1 (100 ∈ unmappedWindows (wins stateUnmappedTop))).
    vm_compute. reflexivity.
  - vm_compute. auto 10.
Qed.

Lemma parentsFirst_stateChild : parentsFirst (wins stateChild).
Proof.
  intros i j w p pos Hi Hj Hpos Hparent.
  assert (childWindows (wins stateChild) = [100; 200]) as Hcw by (vm_compute; reflexivity).
  assert (windowPositions (wins stateChild) !! 100 = Some (mkWindowPos 0 0 kRootWindowId))
    as Hp100 by (vm_compute; reflexivity).
  assert (windowPositions (wins stateChild) !! 200 = Some (mkWindowPos 5 5 100))
    as Hp200 by (vm_compute; reflexivity).
  rewrite Hcw in Hi, Hj.
  destruct i as [|[|i]]; cbn in Hi; try discriminate Hi; injection Hi as <-.
  - rewrite Hp100 in Hpos. injection Hpos as <-. cbn in Hparent. subst p.
    destruct j as [|[|j]]; cbn in Hj; discriminate Hj.
  - rewrite Hp200 in Hpos. injection Hpos as <-. cbn in Hparent. subst p.
    destruct j as [|[|j]]; cbn in Hj; try discriminate Hj. lia.
Qed.

Lemma hitTest_topmost_mapped_child_witness :
  exists j, (1 <= j)%nat
    /\ childWindows (wins stateChild) !! j
       = Some (hr_wid (hitTestChildWindow (wins stateChild) 10 10))
    /\ containsPoint (wins stateChild) 10 10
                     (hr_wid (hitTestChildWindow (wins stateChild) 10 10))
    /\ hr_wid (hitTestChildWindow (wins stateChild) 10 10)
       ≠ wp_parent (mkWindowPos 5 5 100).
Proof.
  assert (containsPoint (wins stateChild) 10 10 200) as Hc.
  { split.
    - apply (bool_decide_eq_false_1 (200 ∈ unmappedWindows (wins stateChild))).
      vm_compute. reflexivity.
    - split; [vm_compute; eauto|]. exists 20, 10.
      split; [vm_compute; reflexivity|]. vm_compute. intuition discriminate. }
  destruct (proj1 (hitTest_topmost_mapped_child (wins stateChild) 10 10)
              1%nat 200 (le_n 1) eq_refl Hc) as (j & Hj & Hl & Hcp & _ & _ & _ & Hpar & _).
  exists j. split; [done|]. split; [done|]. split; [done|].
  apply (Hpar parentsFirst_stateChild 1%nat 200 (mkWindowPos 5 5 100)); [reflexivity|done|].
  vm_compute. reflexivity.
Defined.

(** ** Sequences of window requests *)

Lemma subtreePass_bounds (positions : gmap Z WindowPos) (st : gset Z) :
  st ⊆ (subtreePass positions st).1
  /\ (subtreePass positions st).1 ⊆ st ∪ dom positions.
Proof.
  unfold subtreePass.
  assert (forall (l : list (Z * WindowPos)) acc ch,
             (forall cw pos, (cw, pos) ∈ l -> cw ∈ dom positions) ->
             acc ⊆ (foldl (fun '(st, changed) '(cw, pos) =>
                              if decide (wp_parent pos ∈ st /\ cw ∉ st)
                              then ({[cw]} ∪ st, true) else (st, changed))
                           (acc, ch) l).1
             /\ (foldl (fun '(st, changed) '(cw, pos) =>
                              if decide (wp_parent pos ∈ st /\ cw ∉ st)
                              then ({[cw]} ∪ st, true) else (st, changed))
                           (acc, ch) l).1 ⊆ acc ∪ dom positions) as Hgen.
  { induction l as [|[cw pos] l IH]; intros acc ch Hdom; cbn [foldl].
    - cbn. set_solver.
    - assert (cw ∈ dom positions) as Hcw by (eapply Hdom; left).
      assert (forall cw' pos', (cw', pos') ∈ l -> cw' ∈ dom positions) as Hdom'.
      { intros cw' pos' Hin. eapply Hdom. right. exact Hin. }
      case_decide.
      + destruct (IH ({[cw]} ∪ acc) true Hdom') as [H1 H2]. set_solver.
      + destruct (IH acc ch Hdom') as [H1 H2]. set_solver. }
  apply Hgen. intros cw pos Hin. apply elem_of_map_to_list in Hin.
  apply elem_of_dom. by eexists.
Qed.

Lemma subtreeLoop_bounds (positions : gmap Z WindowPos) n (st : gset Z) :
  st ⊆ subtreeLoop positions n st
  /\ subtreeLoop positions n st ⊆ st ∪ dom positions.
Proof.
  revert st. induction n as [|n IH]; intros st; cbn [subtreeLoop]; [set_solver|].
  pose proof (subtreePass_bounds positions st) as [H1 H2].
  destruct (subtreePass positions st) as [st' ch]. cbn [fst] in *.
  destruct ch; [|set_solver].
  destruct (IH st') as [H3 H4]. set_solver.
Qed.

Lemma raiseSubtree_elem (t : WindowTable) (wid w : Z) :
  (forall v, is_Some (windowPositions t !! v) -> v ∈ childWindows t) ->
  w ∈ raiseSubtree t wid <-> w ∈ childWindows t.
Proof.
  intros Hsync. unfold raiseSubtree.
  destruct (childWindows t) as [|top rest] eqn:Hcw; [done|].
  case_decide; [|done].
  destruct (windowPositions t !! wid) as [pos|] eqn:Hpos; [|done].
  case_decide; [|done].
  pose proof (subtreeLoop_bounds (windowPositions t) (S (size (windowPositions t))) {[wid]})
    as [Hlo Hhi]. fold (collectSubtree (windowPositions t) wid) in Hlo, Hhi.
  rewrite elem_of_app, list_elem_of_filter, merge_sort_Permutation, elem_of_elements.
  split.
  - intros [[_ Hin]|Hin]; [done|].
    apply Hhi in Hin. apply elem_of_union in Hin as [Hin|Hin].
    + apply elem_of_singleton in Hin. subst w. apply Hsync. by eexists.
    + apply Hsync. by apply elem_of_dom.
  - intros Hin.
    destruct (decide (w ∈ collectSubtree (windowPositions t) wid)); [by right|by left].
Qed.

Lemma configureX_lookup w v (m : gmap Z WindowPos) k :
  is_Some ((configureX w v m).1 !! k) <-> is_Some (m !! k).
Proof.
  unfold configureX. destruct (m !! w) as [pos|] eqn:Hm; [|done].
  case_decide; [|done]. cbn.
  destruct (decide (k = w)) as [->|Hne].
  - rewrite lookup_insert_eq, Hm. split; by eexists.
  - by rewrite lookup_insert_ne.
Qed.

Lemma configureY_lookup w v (m : gmap Z WindowPos) k :
  is_Some ((configureY w v m).1 !! k) <-> is_Some (m !! k).
Proof.
  unfold configureY. destruct (m !! w) as [pos|] eqn:Hm; [|done].
  case_decide; [|done]. cbn.
  destruct (decide (k = w)) as [->|Hne].
  - rewrite lookup_insert_eq, Hm. split; by eexists.
  - by rewrite lookup_insert_ne.
Qed.

Lemma configurePos_lookup r (m : gmap Z WindowPos) k :
  is_Some ((configurePos r m).1 !! k) <-> is_Some (m !! k).
Proof.
  unfold configurePos.
  destruct (cfg_x r) as [nx|], (cfg_y r) as [ny|].
  - pose proof (configureX_lookup (cfg_wid r) nx m k) as Hx.
    destruct (configureX (cfg_wid r) nx m) as [m1 c1]. cbn [fst] in Hx.
    pose proof (configureY_lookup (cfg_wid r) ny m1 k) as Hy.
    destruct (configureY (cfg_wid r) ny m1) as [m2 c2]. cbn [fst] in *. by rewrite Hy.
  - pose proof (configureX_lookup (cfg_wid r) nx m k) as Hx.
    destruct (configureX (cfg_wid r) nx m) as [m1 c1]. done.
  - pose proof (configureY_lookup (cfg_wid r) ny m k) as Hy.
    destruct (configureY (cfg_wid r) ny m) as [m2 c2]. done.
  - done.
Qed.

(** The window table after a ConfigureWindow. *)
Lemma configureWindow_wins r s :
  wins (configureWindow r s).1
  = mkWindowTable
      (childWindows (wins s))
      (if cfgSizing r (wins s)
       then <[cfg_wid r := (cfgFinalW r (wins s), cfgFinalH r (wins s))]>
              (windowSizes (wins s))
       else windowSizes (wins s))
      (configurePos r (windowPositions (wins s))).1
      (unmappedWindows (wins s)) (windowEventMasks (wins s)).
Proof.
  unfold configureWindow.
  destruct (configurePos r (windowPositions (wins s))) as [positions' posChanged].
  destruct (exposeTopInfo (wins s) posChanged) as [[a b] c]. reflexivity.
Qed.

(** The surface after a ConfigureWindow. *)
Lemma configureWindow_surf r s :
  surf (configureWindow r s).1
  = if cfgSizeChanged r s && isTopLevelWindow (wins s) (cfg_wid r)
    then mkSurface (width (surf s)) (height (surf s))
           (resizeVec (Z.to_nat (cfgFinalW r (wins s) * cfgFinalH r (wins s))) bgX11
                      (framebuffer (surf s)))
           (dirty (surf s)) (originalChildW (surf s)) (originalChildH (surf s))
           (cfgFinalW r (wins s)) (cfgFinalH r (wins s)) (pixmaps (surf s))
    else surf s.
Proof.
  unfold configureWindow.
  destruct (configurePos r (windowPositions (wins s))) as [positions' posChanged].
  destruct (exposeTopInfo (wins s) posChanged) as [[a b] c]. reflexivity.
Qed.

Lemma applyWindowRequest_sync (q : WindowRequest) (s : Impl) :
  tablesInSync (wins s) -> tablesInSync (wins (applyWindowRequest q s).1).
Proof.
  intros Hs. destruct q as [r|wid|wid|wid|r]; cbn [applyWindowRequest].
  - (* CreateWindow *)
    unfold createWindow. intros w. cbn. destruct (Hs w) as [H1 H2].
    rewrite elem_of_app, list_elem_of_singleton.
    destruct (decide (w = cw_wid r)) as [->|Hne].
    + rewrite !lookup_insert_eq. split; (split; [by eexists|by right]).
    + rewrite !lookup_insert_ne by done. split; (split; [intros [?|?]; [tauto|done]|]).
      * intros Hx. left. tauto.
      * intros Hx. left. tauto.
  - (* MapWindow *)
    unfold mapWindow. destruct (windowSizes (wins s) !! wid) as [[? ?]|];
      intros w; cbn; destruct (Hs w) as [H1 H2];
      rewrite raiseSubtree_elem by (intros v Hv; by apply Hs); done.
  - (* UnmapWindow *)
    unfold unmapWindow. cbn. exact Hs.
  - (* DestroyWindow *)
    unfold destroyWindow. intros w. cbn. destruct (Hs w) as [H1 H2].
    rewrite list_elem_of_filter.
    destruct (decide (w = wid)) as [->|Hne].
    + rewrite !lookup_delete_eq. split; (split; [intros [? _]; done|intros [? ?]; done]).
    + rewrite !lookup_delete_ne by done. split; tauto.
  - (* ConfigureWindow *)
    rewrite configureWindow_wins. intros w. cbn.
    destruct (Hs w) as [H1 H2]. rewrite configurePos_lookup. split; [|done].
    destruct (cfgSizing r (wins s)) eqn:Hsz; [|done].
    destruct (decide (w = cfg_wid r)) as [->|Hne].
    + rewrite lookup_insert_eq. unfold cfgSizing in Hsz.
      apply andb_true_iff in Hsz as [Hin _]. apply bool_decide_eq_true_1 in Hin.
      split; [by eexists|done].
    + by rewrite lookup_insert_ne.
Qed.

Lemma runWindowRequests_sync (qs : list WindowRequest) (s : Impl) :
  tablesInSync (wins s) -> tablesInSync (wins (runWindowRequests qs s)).
Proof.
  revert s. induction qs as [|q qs IH]; intros s Hs; [done|].
  cbn [runWindowRequests foldl]. apply IH. by apply applyWindowRequest_sync.
Qed.

Lemma emptyWindowTable_sync : tablesInSync emptyWindowTable.
Proof.
  intros wid. cbn. rewrite !lookup_empty, elem_of_nil.
  split; (split; [done|intros [? ?]; done]).
Qed.

(** ** DestroyWindow *)

(** C6 (as the code has it).  Along every sequence of CreateWindow,
    MapWindow, UnmapWindow, DestroyWindow and ConfigureWindow requests the
    window list, the size table and the position table hold the same window
    IDs.  DestroyWindow removes the destroyed ID from the list, from both
    tables, from the unmapped set and from the event masks, and touches
    nothing else: every other window keeps its place in the list, its size
    and its position record, recorded parent included.  There is no cascade
    to the descendants, and a child of the destroyed window keeps naming
    it as parent. *)
Theorem destroyWindow_removes_only_its_own_entries
    (qs : list WindowRequest) (s0 : Impl) (window : Z) :
  tablesInSync (wins s0) ->
  let s := runWindowRequests qs s0 in
  let s' := (destroyWindow window s).1 in
  tablesInSync (wins s)
  /\ tablesInSync (wins s')
  /\ ((window ∉ childWindows (wins s'))
      /\ windowSizes (wins s') !! window = None
      /\ windowPositions (wins s') !! window = None
      /\ (window ∉ unmappedWindows (wins s'))
      /\ windowEventMasks (wins s') !! window = None)
  /\ childWindows (wins s') = filter (fun w => w ≠ window) (childWindows (wins s))
  /\ (forall w, w ≠ window ->
        (w ∈ childWindows (wins s') <-> w ∈ childWindows (wins s))
        /\ windowSizes (wins s') !! w = windowSizes (wins s) !! w
        /\ windowPositions (wins s') !! w = windowPositions (wins s) !! w
        /\ (w ∈ unmappedWindows (wins s') <-> w ∈ unmappedWindows (wins s))
        /\ windowEventMasks (wins s') !! w = windowEventMasks (wins s) !! w)
  /\ (forall child pos,
        child ≠ window ->
        windowPositions (wins s) !! child = Some pos ->
        wp_parent pos = window ->
        child ∈ childWindows (wins s')
        /\ windowPositions (wins s') !! child = Some pos
        /\ windowPositions (wins s') !! wp_parent pos = None).
Proof.
  intros Hs0 s s'.
  assert (tablesInSync (wins s)) as Hs by (by apply runWindowRequests_sync).
  split; [done|]. split.
  { apply (applyWindowRequest_sync (ReqDestroyWindow window) s Hs). }
  subst s'. unfold destroyWindow. cbn.
  split; [|split; [done|split]].
  - rewrite list_elem_of_filter, !lookup_delete_eq.
    split; [intros [? _]; done|]. split; [done|]. split; [done|].
    split; [set_solver|done].
  - intros w Hne. rewrite list_elem_of_filter, !lookup_delete_ne by done.
    split; [tauto|]. split; [done|]. split; [done|]. split; [set_solver|done].
  - intros child pos Hne Hpos Hpar.
    rewrite list_elem_of_filter, lookup_delete_ne by done.
    split; [|split; [done|]].
    + split; [done|]. apply Hs. by eexists.
    + rewrite Hpar. apply lookup_delete_eq.
Qed.

Lemma destroyWindow_removes_only_its_own_entries_witness :
  let s := runWindowRequests
             [ createReq 100 kRootWindowId 0 0 40 30; createReq 200 100 5 5 20 10 ]
             (initialImpl 64 48 false) in
  let s' := (destroyWindow 100 s).1 in
  tablesInSync (wins s)
  /\ tablesInSync (wins s')
  /\ childWindows (wins s') = filter (fun w => w ≠ 100) (childWindows (wins s)).
Proof.
  pose proof (destroyWindow_removes_only_its_own_entries
                [ createReq 100 kRootWindowId 0 0 40 30; createReq 200 100 5 5 20 10 ]
                (initialImpl 64 48 false) 100 emptyWindowTable_sync)
    as (H1 & H2 & _ & H4 & _).
  exact (conj H1 (conj H2 H4)).
Defined.

(** C6, as stated, fails: after the top-level window 100 is destroyed its
    child 200 is still in the window list and still records 100 as its
    parent, while 100 has no entry any more. *)
Lemma destroyWindow_leaves_dangling_parent :
  childWindows (wins stateOrphan) = [200]
  /\ windowPositions (wins stateOrphan) !! 200 = Some (mkWindowPos 5 5 100)
  /\ windowPositions (wins stateOrphan) !! 100 = None
  /\ windowSizes (wins stateOrphan) !! 100 = None.
Proof. vm_compute. auto. Qed.

(** ** GetGeometry *)

Lemma cfgFinal_positive r s :
  tablesInSync (wins s) -> sizesPositive s -> cfgSizing r (wins s) = true ->
  cfgFinalW r (wins s) > 0 /\ cfgFinalH r (wins s) > 0.
Proof.
  intros Hsync [_ Hpos] Hsz. unfold cfgSizing in Hsz.
  apply andb_true_iff in Hsz as [Hin _]. apply bool_decide_eq_true_1 in Hin.
  apply (proj1 (Hsync (cfg_wid r))) in Hin as [sz Hsz].
  destruct (Hpos _ _ Hsz) as [Hw Hh]. destruct sz as [sw sh]. cbn in Hw, Hh.
  unfold cfgFinalW, cfgFinalH, cfgStored. rewrite Hsz. cbn.
  split; case_decide; lia.
Qed.

Lemma applyWindowRequest_positive (q : WindowRequest) (s : Impl) :
  tablesInSync (wins s) -> sizesPositive s -> positiveCreate q ->
  sizesPositive (applyWindowRequest q s).1
  /\ originalChildW (surf (applyWindowRequest q s).1) = originalChildW (surf s)
  /\ originalChildH (surf (applyWindowRequest q s).1) = originalChildH (surf s).
Proof.
  intros Hsync Hpos Hq. pose proof Hpos as [Hpw Hsizes].
  destruct q as [r|wid|wid|wid|r]; cbn [applyWindowRequest].
  - unfold createWindow, sizesPositive. cbn.
    destruct Hq as [Hw Hh].
    case_decide as Hc; [lia|]. split; [|done]. split; [done|].
    intros w sz. destruct (decide (w = cw_wid r)) as [->|Hne].
    + rewrite lookup_insert_eq. intros [= <-]. done.
    + rewrite lookup_insert_ne by done. apply Hsizes.
  - unfold mapWindow, sizesPositive.
    destruct (windowSizes (wins s) !! wid) as [[? ?]|]; cbn; done.
  - unfold unmapWindow, sizesPositive. cbn. done.
  - unfold destroyWindow, sizesPositive. cbn. split; [|done]. split; [done|].
    intros w sz Hl. apply lookup_delete_Some in Hl as [_ Hl]. by eapply Hsizes.
  - unfold sizesPositive.
    rewrite configureWindow_wins, configureWindow_surf. cbn [windowSizes].
    destruct (cfgSizing r (wins s)) eqn:Hsz.
    + destruct (cfgFinal_positive r s Hsync Hpos Hsz) as [Hfw Hfh].
      split; [|by destruct (cfgSizeChanged r s && isTopLevelWindow (wins s) (cfg_wid r))].
      split; [by destruct (cfgSizeChanged r s && isTopLevelWindow (wins s) (cfg_wid r))|].
      intros w sz. destruct (decide (w = cfg_wid r)) as [->|Hne].
      * rewrite lookup_insert_eq. intros [= <-]. done.
      * rewrite lookup_insert_ne by done. apply Hsizes.
    + assert (cfgSizeChanged r s = false) as ->.
      { unfold cfgSizeChanged. by rewrite Hsz. }
      done.
Qed.

Lemma runWindowRequests_original (qs : list WindowRequest) (s : Impl) :
  tablesInSync (wins s) -> sizesPositive s -> Forall positiveCreate qs ->
  originalChildW (surf (runWindowRequests qs s)) = originalChildW (surf s)
  /\ originalChildH (surf (runWindowRequests qs s)) = originalChildH (surf s).
Proof.
  revert s. induction qs as [|q qs IH]; intros s Hsync Hpos Hqs; [done|].
  apply Forall_cons in Hqs as [Hq Hqs].
  destruct (applyWindowRequest_positive q s Hsync Hpos Hq) as (Hpos' & Hw & Hh).
  cbn [runWindowRequests foldl].
  destruct (IH (applyWindowRequest q s).1) as [Hw' Hh'];
    [by apply applyWindowRequest_sync|done|done|].
  unfold runWindowRequests in Hw', Hh'. rewrite Hw', Hh'. done.
Qed.

(** *** The history of a display *)

Lemma acceptClient_sync msb s : tablesInSync (wins (setMsbFirst msb (acceptClient s))).
Proof.
  intros wid. cbn. rewrite !lookup_empty, elem_of_nil.
  split; (split; [done|intros [? ?]; done]).
Qed.

Lemma applyDisplayEvent_sync e s :
  tablesInSync (wins s) -> tablesInSync (wins (applyDisplayEvent e s)).
Proof.
  intros Hsync. destruct e as [msb|q]; cbn [applyDisplayEvent].
  - apply acceptClient_sync.
  - by apply applyWindowRequest_sync.
Qed.

(** Until a window is created the window list stays empty and no plugin
    size is recorded. *)
Lemma applyDisplayEvent_noCreate e s :
  noCreate e ->
  childWindows (wins s) = [] -> pluginWidth (surf s) = 0 ->
  childWindows (wins (applyDisplayEvent e s)) = []
  /\ pluginWidth (surf (applyDisplayEvent e s)) = 0.
Proof.
  intros He Hcw Hpw. destruct e as [msb|[r|wid|wid|wid|r]]; cbn [applyDisplayEvent applyWindowRequest].
  - done.
  - done.
  - unfold mapWindow. destruct (windowSizes (wins s) !! wid) as [[? ?]|]; cbn;
      unfold raiseSubtree; by rewrite Hcw.
  - unfold unmapWindow. cbn. done.
  - unfold destroyWindow. cbn. by rewrite Hcw.
  - rewrite configureWindow_wins, configureWindow_surf. cbn [childWindows].
    split; [done|].
    assert (isTopLevelWindow (wins s) (cfg_wid r) = false) as ->.
    { unfold isTopLevelWindow. by rewrite Hcw. }
    by rewrite andb_false_r.
Qed.

Lemma runDisplay_noCreate es s :
  Forall noCreate es ->
  tablesInSync (wins s) -> childWindows (wins s) = [] -> pluginWidth (surf s) = 0 ->
  tablesInSync (wins (runDisplay es s))
  /\ childWindows (wins (runDisplay es s)) = []
  /\ pluginWidth (surf (runDisplay es s)) = 0.
Proof.
  revert s. induction es as [|e es IH]; intros s Hes Hsync Hcw Hpw; [done|].
  apply Forall_cons in Hes as [He Hes].
  destruct (applyDisplayEvent_noCreate e s He Hcw Hpw) as [Hcw' Hpw'].
  cbn [runDisplay foldl]. apply IH; [done| |done|done].
  by apply applyDisplayEvent_sync.
Qed.

(** Once a plugin size is recorded, no event replaces the original size:
    not a resize, not a later window, not the next client. *)
Lemma applyDisplayEvent_positive e s :
  tablesInSync (wins s) -> sizesPositive s -> positiveCreateEvent e ->
  sizesPositive (applyDisplayEvent e s)
  /\ originalChildW (surf (applyDisplayEvent e s)) = originalChildW (surf s)
  /\ originalChildH (surf (applyDisplayEvent e s)) = originalChildH (surf s).
Proof.
  intros Hsync Hpos He. destruct e as [msb|q]; cbn [applyDisplayEvent].
  - split; [|done]. destruct Hpos as [Hpw _]. split; [done|].
    intros wid sz Hl. cbn in Hl. by rewrite lookup_empty in Hl.
  - by apply applyWindowRequest_positive.
Qed.

Lemma runDisplay_original es s :
  tablesInSync (wins s) -> sizesPositive s -> Forall positiveCreateEvent es ->
  originalChildW (surf (runDisplay es s)) = originalChildW (surf s)
  /\ originalChildH (surf (runDisplay es s)) = originalChildH (surf s).
Proof.
  revert s. induction es as [|e es IH]; intros s Hsync Hpos Hes; [done|].
  apply Forall_cons in Hes as [He Hes].
  destruct (applyDisplayEvent_positive e s Hsync Hpos He) as (Hpos' & Hw & Hh).
  cbn [runDisplay foldl].
  destruct (IH (applyDisplayEvent e s)) as [Hw' Hh'];
    [by apply applyDisplayEvent_sync|done|done|].
  unfold runDisplay in Hw', Hh'. rewrite Hw', Hh'. done.
Qed.

Lemma runDisplay_app es1 es2 s :
  runDisplay (es1 ++ es2) s = runDisplay es2 (runDisplay es1 s).
Proof. unfold runDisplay. apply foldl_app. Qed.



(** What [scaleByUiScale] computes: with the default factor 1.0 a size is
    reported as it is; with 0.75 a width of 40 and a height of 30 become 30
    and 22 (22.5 truncated); with the [float] nearest to 0.1 a size of 4
    becomes 0, which the handler raises to 1. *)
Lemma scaleByUiScale_values :
  uiScaleDefault = SpecFloat.S754_finite false 8388608 (-23)
  /\ scaleByUiScale uiScaleDefault 40 = 40
  /\ scaleByUiScale uiScaleDefault 65535 = 65535
  /\ scaleByUiScale (f32 3 (-2)) 40 = 30
  /\ scaleByUiScale (f32 3 (-2)) 30 = 22
  /\ scaleByUiScale (f32 3 (-1)) 65535 = 98302
  /\ scaleByUiScale (f32 13421773 (-27)) 30 = 3
  /\ scaleByUiScale (f32 13421773 (-27)) 4 = 0.
Proof. vm_compute. auto 10. Qed.

(** The original size belongs to the display, not to the connection: the
    second client of [historyTwoClients] creates a 20x15 window, and a
    GetGeometry for the root still reports the 40x30 of the first client's
    window (here with the default scale factor 1.0). *)
Lemma getGeometry_root_on_second_connection :
  childWindows (wins (runDisplay historyTwoClients (initialImpl 64 48 false))) = [300]
  /\ windowSizes (wins (runDisplay historyTwoClients (initialImpl 64 48 false))) !! 300
     = Some (20, 15)
  /\ geometrySize (scaleByUiScale uiScaleDefault) kRootWindowId
                  (runDisplay historyTwoClients (initialImpl 64 48 false))
     = (40, 30).
Proof. vm_compute. auto. Qed.


(** ** ConfigureWindow *)

Lemma configureWindow_unfold r s :
  configureWindow r s
  = (mkImpl (wins (configureWindow r s).1) (surf (configureWindow r s).1)
            (atoms s) (msbFirst_ s) (lastReplySeq_ s),
     (if cfgSizeChanged r s
      then [ configureNotifyEvent (msbFirst_ s) (lastReplySeq_ s) (cfg_wid r)
               (cfgFinalW r (wins s)) (cfgFinalH r (wins s));
             exposeEvent (msbFirst_ s) (lastReplySeq_ s) (cfg_wid r)
               (cfgFinalW r (wins s)) (cfgFinalH r (wins s)) ]
      else [])
     ++ (let '(topWid, topW, topH) :=
           exposeTopInfo (wins s) (configurePos r (windowPositions (wins s))).2 in
         if (configurePos r (windowPositions (wins s))).2
            && bool_decide (topWid ≠ 0) && bool_decide (topW > 0) && bool_decide (topH > 0)
         then [ exposeEvent (msbFirst_ s) (lastReplySeq_ s) topWid topW topH ]
         else [])).
Proof.
  unfold configureWindow.
  destruct (configurePos r (windowPositions (wins s))) as [positions' posChanged].
  cbn [snd].
  destruct (exposeTopInfo (wins s) posChanged) as [[a b] c]. reflexivity.
Qed.

Lemma configureX_same w v (m : gmap Z WindowPos) :
  (forall pos, m !! w = Some pos -> wp_x pos = v) -> configureX w v m = (m, false).
Proof.
  intros H. unfold configureX. destruct (m !! w) as [pos|]; [|done].
  destruct (decide (wp_x pos ≠ v)) as [Hc|Hc]; [|done]. exfalso. apply Hc. by apply H.
Qed.

Lemma configureY_same w v (m : gmap Z WindowPos) :
  (forall pos, m !! w = Some pos -> wp_y pos = v) -> configureY w v m = (m, false).
Proof.
  intros H. unfold configureY. destruct (m !! w) as [pos|]; [|done].
  destruct (decide (wp_y pos ≠ v)) as [Hc|Hc]; [|done]. exfalso. apply Hc. by apply H.
Qed.

Lemma configureX_result w v (m : gmap Z WindowPos) pos :
  (configureX w v m).1 !! w = Some pos ->
  wp_x pos = v /\ exists pos0, m !! w = Some pos0 /\ wp_y pos = wp_y pos0.
Proof.
  unfold configureX. destruct (m !! w) as [pos0|] eqn:Hm.
  - case_decide as Hc; cbn.
    + rewrite lookup_insert_eq. intros [= <-]. cbn. eauto.
    + rewrite Hm. intros [= <-]. split; [|eauto].
      destruct (decide (wp_x pos0 = v)); [done|]. first [done | by exfalso; apply Hc].
  - cbn. by rewrite Hm.
Qed.

Lemma configureY_result w v (m : gmap Z WindowPos) pos :
  (configureY w v m).1 !! w = Some pos ->
  wp_y pos = v /\ exists pos0, m !! w = Some pos0 /\ wp_x pos = wp_x pos0.
Proof.
  unfold configureY. destruct (m !! w) as [pos0|] eqn:Hm.
  - case_decide as Hc; cbn.
    + rewrite lookup_insert_eq. intros [= <-]. cbn. eauto.
    + rewrite Hm. intros [= <-]. split; [|eauto].
      destruct (decide (wp_y pos0 = v)); [done|]. first [done | by exfalso; apply Hc].
  - cbn. by rewrite Hm.
Qed.

Lemma configurePos_idem r (m : gmap Z WindowPos) :
  configurePos r (configurePos r m).1 = ((configurePos r m).1, false).
Proof.
  unfold configurePos.
  destruct (cfg_x r) as [nx|] eqn:Hx, (cfg_y r) as [ny|] eqn:Hy.
  - pose proof (configureX_result (cfg_wid r) nx m) as HX.
    destruct (configureX (cfg_wid r) nx m) as [m1 c1]. cbn [fst] in HX.
    pose proof (configureY_result (cfg_wid r) ny m1) as HY.
    destruct (configureY (cfg_wid r) ny m1) as [m2 c2]. cbn [fst] in *.
    rewrite (configureX_same _ _ m2).
    2:{ intros pos Hp. destruct (HY pos Hp) as (_ & pos0 & Hp0 & ->).
        by destruct (HX pos0 Hp0). }
    rewrite (configureY_same _ _ m2); [done|].
    intros pos Hp. by destruct (HY pos Hp).
  - pose proof (configureX_result (cfg_wid r) nx m) as HX.
    destruct (configureX (cfg_wid r) nx m) as [m1 c1]. cbn [fst] in *.
    rewrite (configureX_same _ _ m1); [done|].
    intros pos Hp. by destruct (HX pos Hp).
  - pose proof (configureY_result (cfg_wid r) ny m) as HY.
    destruct (configureY (cfg_wid r) ny m) as [m2 c2]. cbn [fst] in *.
    rewrite (configureY_same _ _ m2); [done|].
    intros pos Hp. by destruct (HY pos Hp).
  - done.
Qed.

Lemma exposeTopInfo_unchanged t : exposeTopInfo t false = (0, 0, 0).
Proof. unfold exposeTopInfo. by destruct (childWindows t). Qed.

(** A ConfigureWindow that finds the position as requested, the size part
    idle or without a change, does nothing at all. *)
Lemma configureWindow_silent r s :
  configurePos r (windowPositions (wins s)) = (windowPositions (wins s), false) ->
  (cfgSizing r (wins s) = true ->
   windowSizes (wins s) !! cfg_wid r = Some (cfgFinalW r (wins s), cfgFinalH r (wins s))) ->
  cfgSizeChanged r s = false ->
  configureWindow r s = (s, []).
Proof.
  intros Hpos Hsz Hch. rewrite configureWindow_unfold.
  rewrite configureWindow_wins, configureWindow_surf, Hpos, Hch. cbn [fst snd andb].
  rewrite exposeTopInfo_unchanged. cbn [app].
  assert ((if cfgSizing r (wins s)
           then <[cfg_wid r := (cfgFinalW r (wins s), cfgFinalH r (wins s))]>
                  (windowSizes (wins s))
           else windowSizes (wins s)) = windowSizes (wins s)) as ->.
  { destruct (cfgSizing r (wins s)); [|done]. apply insert_id. by apply Hsz. }
  destruct s as [[cw ws wp um em] f a m q]. reflexivity.
Qed.

Lemma cfgFinal_after r s :
  cfgSizing r (wins s) = true ->
  cfgFinalW r (wins (configureWindow r s).1) = cfgFinalW r (wins s)
  /\ cfgFinalH r (wins (configureWindow r s).1) = cfgFinalH r (wins s)
  /\ cfgStored r (wins (configureWindow r s).1) = (cfgFinalW r (wins s), cfgFinalH r (wins s)).
Proof.
  intros Hsz.
  assert (cfgStored r (wins (configureWindow r s).1)
          = (cfgFinalW r (wins s), cfgFinalH r (wins s))) as Hst.
  { unfold cfgStored at 1. rewrite configureWindow_wins. cbn [windowSizes].
    by rewrite Hsz, lookup_insert_eq. }
  split; [|split; [|done]].
  - unfold cfgFinalW at 1. rewrite Hst. cbn [fst].
    unfold cfgFinalW. case_decide; done.
  - unfold cfgFinalH at 1. rewrite Hst. cbn [snd].
    unfold cfgFinalH. case_decide; done.
Qed.

(** C3 (as the code has it).  Re-sending a ConfigureWindow identical to the
    one just processed emits nothing and leaves the whole server state as
    the first one left it.  A ConfigureWindow for a window of the table
    whose x, y, width and height fields (those present in the value mask)
    equal the stored position and size emits nothing and changes nothing,
    provided that, when the window is the first of the window list (the
    top-level window), its stored size is also the plugin size
    [pluginWidth] x [pluginHeight] the framebuffer is laid out for: for that
    window the handler compares against the plugin size, not against the
    stored size. *)
Theorem configureWindow_same_values_is_silent (r : ConfigureReq) (s : Impl) :
  configureWindow r (configureWindow r s).1 = ((configureWindow r s).1, [])
  /\ (forall sz,
        windowSizes (wins s) !! cfg_wid r = Some sz ->
        (forall nx pos, cfg_x r = Some nx ->
                        windowPositions (wins s) !! cfg_wid r = Some pos -> wp_x pos = nx) ->
        (forall ny pos, cfg_y r = Some ny ->
                        windowPositions (wins s) !! cfg_wid r = Some pos -> wp_y pos = ny) ->
        (forall nw, cfg_w r = Some nw -> nw = sz.1) ->
        (forall nh, cfg_h r = Some nh -> nh = sz.2) ->
        (isTopLevelWindow (wins s) (cfg_wid r) = true ->
         pluginWidth (surf s) = sz.1 /\ pluginHeight (surf s) = sz.2) ->
        configureWindow r s = (s, [])).
Proof.
  split.
  - (* idempotence *)
    set (s1 := (configureWindow r s).1).
    assert (childWindows (wins s1) = childWindows (wins s)) as Hcw.
    { subst s1. by rewrite configureWindow_wins. }
    assert (cfgSizing r (wins s1) = cfgSizing r (wins s)) as Hsizing.
    { unfold cfgSizing. by rewrite Hcw. }
    assert (isTopLevelWindow (wins s1) (cfg_wid r) = isTopLevelWindow (wins s) (cfg_wid r))
      as Htop.
    { unfold isTopLevelWindow. by rewrite Hcw. }
    apply configureWindow_silent.
    + subst s1. rewrite configureWindow_wins. cbn [windowPositions].
      apply configurePos_idem.
    + intros Hsz. rewrite Hsizing in Hsz.
      destruct (cfgFinal_after r s Hsz) as (HfW & HfH & _).
      fold s1 in HfW, HfH. rewrite HfW, HfH.
      subst s1. rewrite configureWindow_wins. cbn [windowSizes].
      by rewrite Hsz, lookup_insert_eq.
    + unfold cfgSizeChanged. rewrite Hsizing, Htop.
      destruct (cfgSizing r (wins s)) eqn:Hsz; [|done]. cbn [andb].
      destruct (cfgFinal_after r s Hsz) as (HfW & HfH & Hst).
      fold s1 in HfW, HfH, Hst. rewrite HfW, HfH, Hst. cbn [fst snd].
      destruct (isTopLevelWindow (wins s) (cfg_wid r)) eqn:Ht.
      * subst s1. rewrite configureWindow_surf, Ht, andb_true_r.
        destruct (cfgSizeChanged r s) eqn:Hch.
        -- cbn. apply bool_decide_eq_false_2. intros [?|?]; done.
        -- unfold cfgSizeChanged in Hch. rewrite Hsz, Ht in Hch. cbn [andb] in Hch.
           apply bool_decide_eq_false_1 in Hch.
           apply bool_decide_eq_false_2. intros [Hx|Hx]; apply Hch; [by left|by right].
      * apply bool_decide_eq_false_2. intros [?|?]; done.
  - (* the request repeats what is stored *)
    intros [sw sh] Hsz Hx Hy Hw Hh Htop. cbn [fst snd] in *.
    assert (cfgFinalW r (wins s) = sw /\ cfgFinalH r (wins s) = sh) as [HfW HfH].
    { unfold cfgFinalW, cfgFinalH, cfgStored. rewrite Hsz. cbn.
      split; case_decide as Hc; try done.
      - destruct (cfg_w r) as [nw|]; cbn in *; [by apply Hw|lia].
      - destruct (cfg_h r) as [nh|]; cbn in *; [by apply Hh|lia]. }
    apply configureWindow_silent.
    + unfold configurePos.
      destruct (cfg_x r) as [nx|].
      * rewrite configureX_same by (intros pos Hp; by eapply Hx).
        destruct (cfg_y r) as [ny|]; [|done].
        by rewrite configureY_same by (intros pos Hp; by eapply Hy).
      * destruct (cfg_y r) as [ny|]; [|done].
        by rewrite configureY_same by (intros pos Hp; by eapply Hy).
    + intros _. by rewrite HfW, HfH.
    + unfold cfgSizeChanged.
      destruct (cfgSizing r (wins s)); [|done]. cbn [andb].
      unfold cfgStored. rewrite Hsz, HfW, HfH. cbn.
      destruct (isTopLevelWindow (wins s) (cfg_wid r)).
      * destruct Htop as [-> ->]; [done|].
        apply bool_decide_eq_false_2. intros [?|?]; done.
      * apply bool_decide_eq_false_2. intros [?|?]; done.
Qed.

Lemma configureWindow_same_values_is_silent_witness :
  configureWindow (mkConfigureReq 200 (Some 5) (Some 5) (Some 20) (Some 10)) stateChild
  = (stateChild, []).
Proof.
  refine (proj2 (configureWindow_same_values_is_silent
                   (mkConfigureReq 200 (Some 5) (Some 5) (Some 20) (Some 10)) stateChild)
                (20, 10) _ _ _ _ _ _).
  - vm_compute. reflexivity.
  - intros nx pos [= <-]. vm_compute. intros [= <-]. reflexivity.
  - intros ny pos [= <-]. vm_compute. intros [= <-]. reflexivity.
  - intros nw [= <-]. reflexivity.
  - intros nh [= <-]. reflexivity.
  - vm_compute. discriminate.
Defined.

(** C3, as stated, fails for a window that became the first of the window
    list after the original top-level window was destroyed: a
    ConfigureWindow repeating its stored size 20x10 is compared with the
    plugin size 40x30, so a ConfigureNotify and an Expose are emitted and
    the framebuffer is resized. *)
Lemma configureWindow_same_size_emits_events :
  let r := mkConfigureReq 200 None None (Some 20) (Some 10) in
  windowSizes (wins stateOrphan) !! 200 = Some (20, 10)
  /\ (pluginWidth (surf stateOrphan), pluginHeight (surf stateOrphan)) = (40, 30)
  /\ (isConfigureNotify <$> (configureWindow r stateOrphan).2) = [true; false]
  /\ (isExpose <$> (configureWindow r stateOrphan).2) = [false; true]
  /\ length (framebuffer (surf stateOrphan)) = 1200%nat
  /\ length (framebuffer (surf (configureWindow r stateOrphan).1)) = 200%nat.
Proof. vm_compute. auto 10. Qed.

(** ** Bytes and integers *)

Lemma u8_testbit v n : 0 <= n -> Z.testbit (u8 v) n = (n <? 8) && Z.testbit v n.
Proof.
  intros Hn. unfold u8. change 0xff with (Z.ones 8).
  rewrite Z.land_ones by lia. by rewrite Z.testbit_mod_pow2 by lia.
Qed.

Lemma join32_be v :
  0 <= v < 4294967296 ->
  u32 (Z.lor (Z.lor (Z.lor (Z.shiftl (u8 (Z.shiftr v 24)) 24)
                           (Z.shiftl (u8 (Z.shiftr v 16)) 16))
                    (Z.shiftl (u8 (Z.shiftr v 8)) 8))
             (u8 v)) = v.
Proof.
  intros Hv. unfold u32. change 4294967296 with (2 ^ 32).
  rewrite <- (Z.mod_small v (2 ^ 32)) at 5 by lia.
  apply Z.bits_inj'. intros n Hn.
  rewrite !Z.testbit_mod_pow2 by lia.
  rewrite !Z.lor_spec, !Z.shiftl_spec by lia.
  destruct (Z.ltb_spec n 32); cbn [andb]; [|done].
  destruct (Z.ltb_spec n 24).
  - rewrite (Z.testbit_neg_r _ (n - 24)) by lia. cbn [orb].
    destruct (Z.ltb_spec n 16).
    + rewrite (Z.testbit_neg_r _ (n - 16)) by lia. cbn [orb].
      destruct (Z.ltb_spec n 8).
      * rewrite (Z.testbit_neg_r _ (n - 8)) by lia. cbn [orb].
        rewrite u8_testbit by lia.
        destruct (Z.ltb_spec n 8); [done|lia].
      * rewrite !u8_testbit, Z.shiftr_spec by lia.
        replace (n - 8 + 8) with n by lia.
        destruct (Z.ltb_spec (n - 8) 8); [|lia].
        destruct (Z.ltb_spec n 8); [lia|]. cbn. by rewrite orb_false_r.
    + rewrite !u8_testbit, !Z.shiftr_spec by lia.
      replace (n - 16 + 16) with n by lia.
      destruct (Z.ltb_spec (n - 16) 8); [|lia].
      destruct (Z.ltb_spec (n - 8) 8); [lia|].
      destruct (Z.ltb_spec n 8); [lia|]. cbn. by rewrite !orb_false_r.
  - rewrite !u8_testbit, !Z.shiftr_spec by lia.
    replace (n - 24 + 24) with n by lia.
    destruct (Z.ltb_spec (n - 24) 8); [|lia].
    destruct (Z.ltb_spec (n - 16) 8); [lia|].
    destruct (Z.ltb_spec (n - 8) 8); [lia|].
    destruct (Z.ltb_spec n 8); [lia|]. cbn. by rewrite !orb_false_r.
Qed.

Lemma join32_le v :
  0 <= v < 4294967296 ->
  u32 (Z.lor (Z.lor (Z.lor (u8 v) (Z.shiftl (u8 (Z.shiftr v 8)) 8))
                    (Z.shiftl (u8 (Z.shiftr v 16)) 16))
             (Z.shiftl (u8 (Z.shiftr v 24)) 24)) = v.
Proof.
  intros Hv. rewrite <- (join32_be v Hv) at 5. f_equal.
  rewrite (Z.lor_comm _ (Z.shiftl (u8 (Z.shiftr v 24)) 24)).
  rewrite (Z.lor_comm _ (Z.shiftl (u8 (Z.shiftr v 16)) 16)).
  rewrite (Z.lor_comm (u8 v)).
  rewrite !Z.lor_assoc. reflexivity.
Qed.

Lemma join16_be v :
  0 <= v < 65536 ->
  u16 (Z.lor (Z.shiftl (u8 (Z.shiftr v 8)) 8) (u8 v)) = v.
Proof.
  intros Hv. unfold u16. change 65536 with (2 ^ 16).
  rewrite <- (Z.mod_small v (2 ^ 16)) at 3 by lia.
  apply Z.bits_inj'. intros n Hn.
  rewrite !Z.testbit_mod_pow2 by lia.
  rewrite !Z.lor_spec, !Z.shiftl_spec by lia.
  destruct (Z.ltb_spec n 16); cbn [andb]; [|done].
  destruct (Z.ltb_spec n 8).
  - rewrite (Z.testbit_neg_r _ (n - 8)) by lia. cbn [orb].
    rewrite u8_testbit by lia. destruct (Z.ltb_spec n 8); [done|lia].
  - rewrite !u8_testbit, Z.shiftr_spec by lia.
    replace (n - 8 + 8) with n by lia.
    destruct (Z.ltb_spec (n - 8) 8); [|lia].
    destruct (Z.ltb_spec n 8); [lia|]. cbn. by rewrite orb_false_r.
Qed.

Lemma join16_le v :
  0 <= v < 65536 ->
  u16 (Z.lor (u8 v) (Z.shiftl (u8 (Z.shiftr v 8)) 8)) = v.
Proof. intros Hv. rewrite Z.lor_comm. by apply join16_be. Qed.

(** ** Atoms *)

Lemma initialAtoms_wf : atomsWf initialAtoms.
Proof.
  split; [|split]; cbn.
  - intros name id. by rewrite !lookup_empty.
  - intros id. rewrite lookup_empty. split; [intros [? ?]; done|lia].
  - lia.
Qed.

Lemma internAtom_found onlyIfExists name a id :
  atomNameToId a !! name = Some id -> internAtom onlyIfExists name a = (a, id).
Proof. intros H. unfold internAtom. by rewrite H. Qed.

Lemma internAtom_new name a :
  atomNameToId a !! name = None -> name ≠ [] ->
  internAtom 0 name a
  = (mkAtomTable (<[name := nextAtomId a]> (atomNameToId a))
                 (<[nextAtomId a := name]> (atomIdToName a))
                 (u32 (nextAtomId a + 1)),
     nextAtomId a).
Proof.
  intros H Hne. unfold internAtom. rewrite H.
  case_decide as Hc; [done|]. exfalso. apply Hc. done.
Qed.

Lemma internAtom_wf onlyIfExists name a :
  atomsWf a -> nextAtomId a < 4294967295 ->
  atomsWf (internAtom onlyIfExists name a).1.
Proof.
  intros (Hbij & Hids & Hnext) Hroom. unfold internAtom.
  destruct (atomNameToId a !! name) as [id|] eqn:Hn; [done|].
  case_decide as Hc; [|done]. cbn.
  assert (u32 (nextAtomId a + 1) = nextAtomId a + 1) as Hu.
  { unfold u32. apply Z.mod_small. lia. }
  assert (atomIdToName a !! nextAtomId a = None) as Hfree.
  { destruct (atomIdToName a !! nextAtomId a) eqn:E; [|done].
    assert (is_Some (atomIdToName a !! nextAtomId a)) as Hs by (by eexists).
    apply Hids in Hs. lia. }
  split; [|split]; cbn; rewrite ?Hu.
  - intros n i. destruct (decide (n = name)) as [->|Hnn].
    + rewrite lookup_insert_eq. split.
      * intros [= <-]. by rewrite lookup_insert_eq.
      * intros Hi. destruct (decide (i = nextAtomId a)) as [->|Hii]; [done|].
        rewrite lookup_insert_ne in Hi by done. apply Hbij in Hi. congruence.
    + rewrite lookup_insert_ne by done.
      destruct (decide (i = nextAtomId a)) as [->|Hii].
      * rewrite lookup_insert_eq. split.
        -- intros Hi. apply Hbij in Hi. congruence.
        -- intros [= ->]. done.
      * rewrite lookup_insert_ne by done. apply Hbij.
  - intros i. destruct (decide (i = nextAtomId a)) as [->|Hii].
    + rewrite lookup_insert_eq. split; [lia|by eexists].
    + rewrite lookup_insert_ne by done. rewrite Hids. lia.
  - lia.
Qed.

(** An interned name keeps its ID whatever is interned afterwards. *)
Lemma internAtom_keeps onlyIfExists name' a name id :
  atomNameToId a !! name = Some id ->
  atomNameToId (internAtom onlyIfExists name' a).1 !! name = Some id.
Proof.
  intros H. unfold internAtom.
  destruct (atomNameToId a !! name') as [id'|] eqn:Hn; [done|].
  case_decide; [|done]. cbn. rewrite lookup_insert_ne; [done|]. congruence.
Qed.

Lemma internRun_keeps reqs a name id :
  atomNameToId a !! name = Some id -> atomNameToId (internRun reqs a) !! name = Some id.
Proof.
  revert a. induction reqs as [|[o n] reqs IH]; intros a H; [done|].
  cbn [internRun foldl]. apply IH. by apply internAtom_keeps.
Qed.

(** Tables reached from a well-formed one by InternAtom requests are
    well-formed as long as the counter cannot wrap. *)
Lemma internRun_wf reqs a :
  atomsWf a -> nextAtomId a + Z.of_nat (length reqs) < 4294967296 ->
  atomsWf (internRun reqs a).
Proof.
  revert a. induction reqs as [|[o n] reqs IH]; intros a Hwf Hroom; [done|].
  cbn [internRun foldl]. cbn [length] in Hroom. apply IH.
  - apply internAtom_wf; [done|lia].
  - assert (nextAtomId (internAtom o n a).1 <= nextAtomId a + 1) as Hle.
    { unfold internAtom. destruct (atomNameToId a !! n); [cbn; lia|].
      case_decide; cbn; [|lia].
      destruct Hwf as (_ & _ & Hn). unfold u32. rewrite Z.mod_small by lia. lia. }
    lia.
Qed.

Lemma internAtomName_length msb buf :
  (length (internAtomName msb buf) <= 256)%nat
  /\ (length (internAtomName msb buf) <= length buf - 8)%nat.
Proof.
  unfold internAtomName. case_decide as Hc; cbn; [|lia].
  rewrite length_take, length_drop. lia.
Qed.

Lemma buildPacket_atomName_reply msb seq replyLen nameLen k :
  buildPacket msb (32 + k) [ PutAt 0 1; W16 2 seq; W32 4 replyLen; W16 8 nameLen ]
  = buildPacket msb 32 [ PutAt 0 1; W16 2 seq; W32 4 replyLen; W16 8 nameLen ]
    ++ repeat 0 k.
Proof. destruct msb; reflexivity. Qed.

Lemma replyGetAtomName_carries_name msb seq (name : list Z) :
  (0 < length name <= 256)%nat ->
  replyAtomName msb (replyGetAtomName msb seq name) = name.
Proof.
  intros Hlen. unfold replyGetAtomName, replyAtomName.
  assert (u16 (Z.of_nat (length name)) = Z.of_nat (length name)) as Hu.
  { unfold u16. apply Z.mod_small. lia. }
  rewrite Hu. set (L := Z.of_nat (length name)).
  set (pad := (4 - L mod 4) mod 4).
  assert (0 <= pad) as Hpad by (apply Z.mod_pos_bound; lia).
  case_decide as Hpos; [|lia].
  replace (Z.to_nat (32 + L + pad)) with (32 + Z.to_nat (L + pad))%nat by lia.
  rewrite buildPacket_atomName_reply.
  replace (Z.to_nat L) with (length name) by lia.
  rewrite firstn_all.
  unfold copyInto.
  assert (forall (hd : list Z) tl,
             length hd = 32%nat ->
             read16 msb (take 32 (hd ++ tl) ++ name ++ drop (32 + length name) (hd ++ tl)) 8
             = read16 msb hd 8
             /\ drop 32 (take 32 (hd ++ tl) ++ name ++ drop (32 + length name) (hd ++ tl))
                = name ++ drop (32 + length name) (hd ++ tl)) as Hsplit.
  { intros hd tl Hhd.
    rewrite take_app_length' by done. split.
    - unfold read16, byteAt. by rewrite !lookup_app_l by lia.
    - rewrite drop_app_length' by done. done. }
  destruct (Hsplit (buildPacket msb 32
                      [PutAt 0 1; W16 2 seq;
                       W32 4 ((L + pad) / 4); W16 8 L])
                   (repeat 0 (Z.to_nat (L + pad)))) as [Hr Hd].
  { by destruct msb. }
  rewrite Hr, Hd.
  assert (read16 msb (buildPacket msb 32
                        [PutAt 0 1; W16 2 seq; W32 4 ((L + pad) / 4); W16 8 L]) 8 = L)
    as ->.
  { destruct msb; cbn -[u8 u16 Z.shiftr Z.shiftl Z.lor Z.div];
      [apply join16_be|apply join16_le]; lia. }
  replace (Z.to_nat L) with (length name) by lia.
  by rewrite take_app_length.
Qed.

Lemma replyInternAtom_carries_id msb seq id :
  0 <= id < 4294967296 -> read32 msb (replyInternAtom msb seq id) 8 = id.
Proof.
  intros Hid.
  destruct msb; cbn -[u8 u32 Z.shiftr Z.shiftl Z.lor];
    [by apply join32_be|by apply join32_le].
Qed.

Lemma handleInternAtom_unfold seq buf s :
  handleInternAtom seq buf s
  = (setLastReplySeq seq
       (setAtoms (internAtom (byteAt buf 1) (internAtomName (msbFirst_ s) buf) (atoms s)).1 s),
     [replyInternAtom (msbFirst_ s) seq
        (internAtom (byteAt buf 1) (internAtomName (msbFirst_ s) buf) (atoms s)).2]).
Proof.
  unfold handleInternAtom.
  destruct (internAtom (byteAt buf 1) (internAtomName (msbFirst_ s) buf) (atoms s)).
  reflexivity.
Qed.

(** C4 (as the code has it).  For a well-formed atom table with room for one
    more ID (fewer than 2^32 - 2 atoms handed out, so the 32-bit counter has
    not wrapped) and a non-empty name delivered by the request buffer (at
    most 256 bytes, and no more than fit in the buffer behind offset 8), two
    InternAtom requests with only_if_exists = 0 answer with the same atom
    ID, which is not 0 and can be read back from the reply; GetAtomName for
    that ID answers with exactly that name; a new name receives the current
    value of the counter, which then grows by one; the first ID handed out
    is 1; IDs handed out before keep their names and are smaller than a new
    one; the name keeps its ID whatever is interned later; and InternAtom
    with only_if_exists set, for a name that is not in the table, answers 0
    and leaves the atom table as it was. *)
Theorem internAtom_same_id_and_name_back
    (s : Impl) (seq1 seq2 seq3 : Z) (buf : list Z) (name : list Z) :
  atomsWf (atoms s) ->
  nextAtomId (atoms s) < 4294967295 ->
  byteAt buf 1 = 0 ->
  internAtomName (msbFirst_ s) buf = name ->
  name ≠ [] ->
  let msb := msbFirst_ s in
  let r1 := handleInternAtom seq1 buf s in
  let r2 := handleInternAtom seq2 buf r1.1 in
  exists id,
    1 <= id < 4294967296
    /\ r1.2 = [replyInternAtom msb seq1 id]
    /\ r2.2 = [replyInternAtom msb seq2 id]
    /\ read32 msb (replyInternAtom msb seq1 id) 8 = id
    /\ atoms r2.1 = atoms r1.1
    /\ atomsWf (atoms r1.1)
    /\ (forall gbuf, read32 msb gbuf 4 = id ->
          exists reply, (handleGetAtomName seq3 gbuf r2.1).2 = [reply]
                        /\ replyAtomName msb reply = name)
    /\ (atomNameToId (atoms s) !! name = None ->
          id = nextAtomId (atoms s) /\ nextAtomId (atoms r1.1) = id + 1)
    /\ (internAtom 0 name initialAtoms).2 = 1
    /\ (forall id' n, atomIdToName (atoms s) !! id' = Some n ->
          atomIdToName (atoms r1.1) !! id' = Some n
          /\ (atomNameToId (atoms s) !! name = None -> id' < id))
    /\ (forall reqs, atomNameToId (internRun reqs (atoms r1.1)) !! name = Some id)
    /\ (forall obuf seq,
          byteAt obuf 1 ≠ 0 ->
          atomNameToId (atoms s) !! internAtomName msb obuf = None ->
          (handleInternAtom seq obuf s).2 = [replyInternAtom msb seq 0]
          /\ atoms (handleInternAtom seq obuf s).1 = atoms s).
Proof.
  intros Hwf Hroom Honly Hname Hne msb r1 r2.
  pose proof Hwf as (Hbij & Hids & Hnext).
  assert (msbFirst_ r1.1 = msb) as Hmsb1.
  { subst r1. by rewrite handleInternAtom_unfold. }
  assert (atoms r1.1 = (internAtom 0 name (atoms s)).1) as Ha1.
  { subst r1. rewrite handleInternAtom_unfold. cbn. by rewrite Honly, Hname. }
  assert (exists id, internAtom 0 name (atoms s)
                     = ((internAtom 0 name (atoms s)).1, id)
                     /\ 1 <= id < 4294967296
                     /\ atomNameToId (internAtom 0 name (atoms s)).1 !! name = Some id
                     /\ (atomNameToId (atoms s) !! name = None ->
                         id = nextAtomId (atoms s)
                         /\ nextAtomId (internAtom 0 name (atoms s)).1 = id + 1))
    as (id & Hres & Hrange & Hmap & Hfresh).
  { destruct (atomNameToId (atoms s) !! name) as [id|] eqn:Hn.
    - exists id. rewrite (internAtom_found _ _ _ _ Hn). cbn.
      split; [done|]. split; [|split; [done|done]].
      apply Hbij in Hn.
      assert (is_Some (atomIdToName (atoms s) !! id)) as Hs by (by eexists).
      apply Hids in Hs. lia.
    - exists (nextAtomId (atoms s)). rewrite (internAtom_new _ _ Hn Hne). cbn.
      split; [done|]. split; [lia|]. split; [by rewrite lookup_insert_eq|].
      intros _. split; [done|]. unfold u32. apply Z.mod_small. lia. }
  assert (atomsWf (atoms r1.1)) as Hwf1.
  { rewrite Ha1. by apply internAtom_wf. }
  assert (atomNameToId (atoms r1.1) !! name = Some id) as Hmap1 by (by rewrite Ha1).
  exists id. split; [done|]. split.
  { subst r1. rewrite handleInternAtom_unfold. cbn. rewrite Honly, Hname, Hres. done. }
  assert (internAtom 0 name (atoms r1.1) = (atoms r1.1, id)) as Hres2.
  { by apply internAtom_found. }
  split.
  { subst r2. rewrite handleInternAtom_unfold. cbn [snd].
    rewrite Hmsb1. subst msb. rewrite Honly, Hname, Hres2. done. }
  split; [by apply replyInternAtom_carries_id; lia|]. split.
  { subst r2. rewrite handleInternAtom_unfold. cbn.
    rewrite Hmsb1. subst msb. rewrite Honly, Hname, Hres2. done. }
  split; [done|]. split.
  { intros gbuf Hg. eexists. split.
    - unfold handleGetAtomName, sendReply. cbn [snd]. reflexivity.
    - assert (msbFirst_ r2.1 = msb) as ->.
      { subst r2. rewrite handleInternAtom_unfold. cbn. done. }
      assert (atoms r2.1 = atoms r1.1) as ->.
      { subst r2. rewrite handleInternAtom_unfold. cbn.
        rewrite Hmsb1. subst msb. rewrite Honly, Hname, Hres2. done. }
      rewrite Hg. unfold getAtomName.
      destruct Hwf1 as (Hbij1 & _ & _). apply Hbij1 in Hmap1. rewrite Hmap1. cbn.
      apply replyGetAtomName_carries_name.
      pose proof (internAtomName_length (msbFirst_ s) buf) as [Hl _].
      rewrite Hname in Hl. destruct name; [done|]. cbn in *. lia. }
  split.
  { intros Hn. destruct (Hfresh Hn) as [-> Hnx]. by rewrite Ha1. }
  split.
  { rewrite internAtom_new; [done|done|]. by destruct name. }
  split.
  { intros id' n Hid'. rewrite Ha1.
    assert (1 <= id' < nextAtomId (atoms s)) as Hlt.
    { apply Hids. by eexists. }
    destruct (atomNameToId (atoms s) !! name) as [idn|] eqn:Hn.
    - rewrite (internAtom_found _ _ _ _ Hn). cbn. done.
    - rewrite (internAtom_new _ _ Hn Hne). cbn.
      rewrite lookup_insert_ne by lia. split; [done|].
      intros _. destruct (Hfresh eq_refl) as [-> _]. lia. }
  split.
  { intros reqs. by apply internRun_keeps. }
  intros obuf seq Ho Hn. rewrite handleInternAtom_unfold. cbn.
  unfold internAtom. fold msb. rewrite Hn.
  case_decide as Hc; [by destruct Hc|]. done.
Qed.

Lemma internAtom_same_id_and_name_back_witness :
  let s := initialImpl 64 48 false in
  let r1 := handleInternAtom 1 bufInternFoo s in
  let r2 := handleInternAtom 2 bufInternFoo r1.1 in
  exists id,
    1 <= id < 4294967296
    /\ r1.2 = [replyInternAtom false 1 id]
    /\ r2.2 = [replyInternAtom false 2 id]
    /\ read32 false (replyInternAtom false 1 id) 8 = id
    /\ atoms r2.1 = atoms r1.1.
Proof.
  destruct (internAtom_same_id_and_name_back (initialImpl 64 48 false) 1 2 3
              bufInternFoo [70; 79; 79] initialAtoms_wf eq_refl eq_refl eq_refl
              ltac:(discriminate))
    as (id & H1 & H2 & H3 & H4 & H5 & _).
  exists id. auto.
Defined.

(** C4, as stated, fails for the empty name, and for a name the handler
    refuses as too long (more than 256 bytes): InternAtom with
    only_if_exists = 0 answers atom 0 and interns nothing. *)
Lemma internAtom_empty_name_gets_no_atom :
  let s := initialImpl 64 48 false in
  internAtomName false bufInternEmpty = []
  /\ (handleInternAtom 1 bufInternEmpty s).2 = [replyInternAtom false 1 0]
  /\ atoms (handleInternAtom 1 bufInternEmpty s).1 = atoms s
  /\ read16 false bufInternLong 4 = 300
  /\ (handleInternAtom 1 bufInternLong s).2 = [replyInternAtom false 1 0]
  /\ atoms (handleInternAtom 1 bufInternLong s).1 = atoms s.
Proof. vm_compute. auto 10. Qed.

(** ** Request framing *)

(** C8 on the code: a single request whose body exceeds 65536 bytes is read
    only up to that cap.  The ChangeProperty request below is 80000 bytes
    long; the turn that handles it consumes 65540 of them, and the next
    turns parse what is left of its property data as requests: window 200
    of the client is destroyed by bytes the client sent as data. *)
Theorem oversized_request_desynchronises_stream :
  let buf0 := repeat 0 256%nat in
  let s := stateChild in
  Z.of_nat (length oversizedChangeProperty) = 80000
  /\ read16 false oversizedChangeProperty 2 = 20000
  /\ match serverStep (fun n => n) buf0 s 0 oversizedChangeProperty with
     | Next s' seq' rest out =>
         s' = s /\ seq' = 1 /\ out = []
         /\ Z.of_nat (length rest) = 14460
         /\ take 8 rest = [4; 0; 2; 0; 200; 0; 0; 0]
     | _ => False
     end
  /\ windowSizes (wins s) !! 200 = Some (20, 10)
  /\ windowSizes (wins (serverRun (fun n => n) buf0 2 s 0 oversizedChangeProperty []).1.1)
       !! 200 = None
  /\ childWindows (wins (serverRun (fun n => n) buf0 2 s 0 oversizedChangeProperty []).1.1)
     = [100].
Proof.
  vm_compute. auto 10.
Qed.

(** The request buffer keeps the bytes of the request before when a body
    goes to the discard vector: the second InternAtom of [internFooThenLong]
    has a body of 304 bytes, the handler reads name length and name from the
    buffer, finds the 3 and FOO of the first request there, and answers with
    the atom of FOO. *)
Lemma serverRun_long_body_reads_stale_buffer :
  let run := serverRun (fun n => n) (repeat 0 256%nat) 2 (initialImpl 64 48 false) 0
                       internFooThenLong [] in
  run.1.2 = []
  /\ run.2 = [replyInternAtom false 1 1; replyInternAtom false 2 1]
  /\ atomNameToId (atoms run.1.1) = {[ [70; 79; 79] := 1 ]}.
Proof. vm_compute. auto. Qed.

Lemma recvAll_app (hd tl : list Z) n :
  length hd = n -> recvAll n (hd ++ tl) = Some (hd, tl).
Proof.
  intros <-. unfold recvAll. rewrite length_app.
  case_decide; [|lia]. by rewrite take_app_length, drop_app_length.
Qed.

Lemma header_in_buf msb (buf0 hdr : list Z) :
  length hdr = 4%nat ->
  byteAt (copyInto buf0 0 hdr) 0 = byteAt hdr 0
  /\ read16 msb (copyInto buf0 0 hdr) 2 = read16 msb hdr 2.
Proof.
  intros Hl. unfold copyInto, read16, byteAt. simpl.
  by rewrite !lookup_app_l by (rewrite Hl; lia).
Qed.

Lemma dispatch_void scaleToInt opcode seq buf stream s :
  opcode ∈ voidOpcodes -> dispatch scaleToInt opcode seq buf stream s = Next s seq stream [].
Proof.
  intros Hin. unfold voidOpcodes in Hin.
  repeat (apply elem_of_cons in Hin as [->|Hin]); try (by apply elem_of_nil in Hin);
    reflexivity.
Qed.

(** The part of C8 that holds: a PutImage whose width or height is 0 or
    above 4096 has its whole pixel payload read and dropped, the state is
    untouched, and the stream continues at the next request. *)
Lemma serverStep_putImage_discards scaleToInt (buf0 : list Z) s seq
    (hdr body pixels rest : list Z) :
  length hdr = 4%nat -> length body = 20%nat ->
  byteAt hdr 0 = X11Op.PutImage ->
  let len := read16 (msbFirst_ s) hdr 2 in
  let r := parsePutImage (msbFirst_ s) (copyInto (copyInto buf0 0 hdr) 4 body) in
  len >= 6 ->
  Z.of_nat (length pixels) = len * 4 - 24 ->
  ~ (pi_w r > 0 /\ pi_h r > 0 /\ pi_w r <= 4096 /\ pi_h r <= 4096) ->
  serverStep scaleToInt buf0 s seq (hdr ++ body ++ pixels ++ rest)
  = Next s (u16 (seq + 1)) rest [].
Proof.
  intros Hh Hb Hop len r Hlen Hpix Hbad.
  unfold serverStep. rewrite (recvAll_app hdr _ 4 Hh).
  destruct (header_in_buf (msbFirst_ s) buf0 hdr Hh) as [-> ->].
  fold len. rewrite Hop.
  case_decide as H0; [lia|].
  case_decide as H1; [|done].
  rewrite (recvAll_app body _ 20 Hb). fold r. unfold receivePutImage.
  destruct (decide (len >= 6)) as [_|?]; [|lia].
  case_decide as H3.
  - exfalso. apply Hbad. tauto.
  - case_decide as H4.
    + unfold recvIgnoringResult.
      replace (Z.to_nat (len * 4 - 24)) with (length pixels) by lia.
      by rewrite drop_app_length.
    + assert (pixels = []) as -> by (apply nil_length_inv; lia). done.
Qed.

(** A void request whose body is at most 65536 bytes long is read whole. *)
Lemma serverStep_void_within_cap scaleToInt (buf0 : list Z) s seq opcode
    (hdr body rest : list Z) :
  length hdr = 4%nat ->
  byteAt hdr 0 = opcode -> opcode ∈ voidOpcodes ->
  let len := read16 (msbFirst_ s) hdr 2 in
  len > 0 -> (len - 1) * 4 <= 65536 ->
  Z.of_nat (length body) = (len - 1) * 4 ->
  serverStep scaleToInt buf0 s seq (hdr ++ body ++ rest)
  = Next s (u16 (seq + 1)) rest [].
Proof.
  intros Hh Hop Hvoid len Hpos Hcap Hbody.
  unfold serverStep. rewrite (recvAll_app hdr _ 4 Hh).
  destruct (header_in_buf (msbFirst_ s) buf0 hdr Hh) as [-> ->].
  fold len. rewrite Hop.
  case_decide as H0; [lia|].
  case_decide as H1.
  { exfalso. rewrite H1 in Hvoid. unfold voidOpcodes in Hvoid.
    repeat (apply elem_of_cons in Hvoid as [Hvoid|Hvoid]; [discriminate Hvoid|]).
    by apply elem_of_nil in Hvoid. }
  case_decide as H2.
  2:{ exfalso. apply H2. split; [lia|].
      unfold voidOpcodes in Hvoid.
      repeat (apply elem_of_cons in Hvoid as [->|Hvoid]; [repeat split; discriminate|]).
      by apply elem_of_nil in Hvoid. }
  case_decide as H3; [lia|].
  unfold recvIgnoringResult.
  replace (Z.to_nat ((len - 1) * 4)) with (length body) by lia.
  rewrite drop_app_length.
  case_decide; by rewrite dispatch_void.
Qed.

(** Beyond the cap only the first 65536 bytes of the body are read: the rest
    of the body stays in the stream, in front of the next request. *)
Lemma serverStep_void_beyond_cap scaleToInt (buf0 : list Z) s seq opcode
    (hdr body rest : list Z) :
  length hdr = 4%nat ->
  byteAt hdr 0 = opcode -> opcode ∈ voidOpcodes ->
  let len := read16 (msbFirst_ s) hdr 2 in
  (len - 1) * 4 > 65536 ->
  Z.of_nat (length body) = (len - 1) * 4 ->
  serverStep scaleToInt buf0 s seq (hdr ++ body ++ rest)
  = Next s (u16 (seq + 1)) (drop (Z.to_nat 65536) body ++ rest) []
  /\ Z.of_nat (length (drop (Z.to_nat 65536) body)) = (len - 1) * 4 - 65536.
Proof.
  intros Hh Hop Hvoid len Hcap Hbody. split.
  2:{ rewrite length_drop. lia. }
  unfold serverStep. rewrite (recvAll_app hdr _ 4 Hh).
  destruct (header_in_buf (msbFirst_ s) buf0 hdr Hh) as [-> ->].
  fold len. rewrite Hop.
  case_decide as H0; [lia|].
  case_decide as H1.
  { exfalso. rewrite H1 in Hvoid. unfold voidOpcodes in Hvoid.
    repeat (apply elem_of_cons in Hvoid as [Hvoid|Hvoid]; [discriminate Hvoid|]).
    by apply elem_of_nil in Hvoid. }
  case_decide as H2.
  2:{ exfalso. apply H2. split; [lia|].
      unfold voidOpcodes in Hvoid.
      repeat (apply elem_of_cons in Hvoid as [->|Hvoid]; [repeat split; discriminate|]).
      by apply elem_of_nil in Hvoid. }
  case_decide as H3; [|lia].
  unfold recvIgnoringResult.
  rewrite drop_app_le by lia.
  case_decide; by rewrite dispatch_void.
Qed.

(** ** Loops over pixel buffers *)

Lemma forRange_ind {A : Type} (P : Z -> A -> Prop) (n : Z) (body : Z -> A -> A) (init : A) :
  0 <= n ->
  P 0 init ->
  (forall i acc, 0 <= i < n -> P i acc -> P (i + 1) (body i acc)) ->
  P n (forRange n body init).
Proof.
  intros Hn H0 Hstep. unfold forRange.
  rewrite <- (Z2Nat.id n Hn).
  assert (Z.of_nat (Z.to_nat n) <= n) as Hle by lia.
  revert Hle. generalize (Z.to_nat n) as k. clear Hn.
  induction k as [|k IH]; intros Hle; [exact H0|].
  rewrite seqZ_S, foldl_app. cbn [foldl]. rewrite Z.add_0_l.
  replace (Z.of_nat (S k)) with (Z.of_nat k + 1) by lia.
  apply Hstep; [lia|]. apply IH. lia.
Qed.

Lemma forRange_ext {A : Type} (n : Z) (f g : Z -> A -> A) (init : A) :
  (forall i acc, 0 <= i < n -> f i acc = g i acc) ->
  forRange n f init = forRange n g init.
Proof.
  intros Hext. unfold forRange.
  assert (forall l, (forall i, i ∈ l -> 0 <= i < n) ->
                    forall a, foldl (fun acc i => f i acc) a l
                              = foldl (fun acc i => g i acc) a l) as Hgen.
  { induction l as [|i l IH]; intros Hl a; [done|]. cbn [foldl].
    rewrite Hext by (apply Hl; left). apply IH. intros j Hj. apply Hl. by right. }
  apply Hgen. intros i Hi. apply elem_of_seqZ in Hi. lia.
Qed.

Lemma pixelAt_setPixel (dst : list Z) (i j v : Z) :
  0 <= i -> 0 <= j -> i < Z.of_nat (length dst) ->
  pixelAt (setPixel dst i v) j = if decide (j = i) then v else pixelAt dst j.
Proof.
  intros Hi Hj Hlen. unfold pixelAt, setPixel. case_decide as Hc.
  - subst j. rewrite list_lookup_insert_eq by lia. done.
  - rewrite list_lookup_insert_ne by lia. done.
Qed.

(** One row of a copy loop: [w] consecutive pixels from index [base]. *)
Lemma rowFill_spec (dst : list Z) (base w : Z) (val : Z -> Z) :
  0 <= base -> 0 <= w -> base + w <= Z.of_nat (length dst) ->
  let d' := forRange w (fun col d => setPixel d (base + col) (val col)) dst in
  length d' = length dst
  /\ forall j, 0 <= j ->
       pixelAt d' j = if decide (base <= j < base + w) then val (j - base)
                      else pixelAt dst j.
Proof.
  intros Hb Hw Hfit d'. subst d'.
  set (P := fun (k : Z) (d : list Z) =>
              length d = length dst
              /\ forall j, 0 <= j ->
                   pixelAt d j = if decide (base <= j < base + k)
                                 then val (j - base) else pixelAt dst j).
  apply (forRange_ind P); subst P; cbn beta; [done| |].
  - split; [done|]. intros j Hj. case_decide; [lia|done].
  - intros col d Hcol [Hlen Hpix]. split.
    + unfold setPixel. by rewrite length_insert.
    + intros j Hj. rewrite pixelAt_setPixel by lia. rewrite Hpix by done.
      repeat case_decide; try lia; try done.
      subst j. f_equal. lia.
Qed.

(** The fast copy loop writes every pixel of the source rectangle, forced
    opaque, and keeps the size of the buffer. *)
Lemma putFast_spec (pixels dst : list Z) (dW dH x y w h : Z) :
  Z.of_nat (length dst) = dW * dH ->
  0 <= x -> 0 <= y -> 0 < w -> 0 < h -> x + w <= dW -> y + h <= dH ->
  let d' := putFast pixels dst dW x y w h in
  length d' = length dst
  /\ forall row col, 0 <= row < h -> 0 <= col < w ->
       pixelAt d' ((y + row) * dW + x + col)
       = forceOpaque (load32 pixels (Z.to_nat ((row * w + col) * 4))).
Proof.
  intros Hlen Hx Hy Hw Hh Hfx Hfy d'. subst d'. unfold putFast.
  set (P := fun (k : Z) (d : list Z) =>
              length d = length dst
              /\ forall row col, 0 <= row < k -> 0 <= col < w ->
                   pixelAt d ((y + row) * dW + x + col)
                   = forceOpaque (load32 pixels (Z.to_nat ((row * w + col) * 4)))).
  apply (forRange_ind P); subst P; cbn beta; [lia| |].
  - split; [done|]. intros row col Hr. lia.
  - intros row d Hrow [Hl Hpix].
    assert (0 <= (y + row) * dW + x) as Hbase by nia.
    assert ((y + row) * dW + x + w <= Z.of_nat (length d)) as Hfit.
    { rewrite Hl, Hlen. nia. }
    pose proof (rowFill_spec d ((y + row) * dW + x) w
                  (fun col => forceOpaque (load32 pixels (Z.to_nat ((row * w + col) * 4))))
                  Hbase ltac:(lia) Hfit) as [Hl' Hpix'].
    cbn zeta in Hl', Hpix'.
    split; [by rewrite Hl'|].
    intros r c Hr Hc.
    rewrite Hpix' by nia.
    case_decide as Hin.
    + assert (r = row) as -> by nia. f_equal. f_equal. f_equal. lia.
    + apply Hpix; [|done]. assert (r ≠ row) by (intros ->; lia). lia.
Qed.

Lemma putFastClip_noclip (clip : list ClipRect) (pixels dst : list Z) (dW x y w h : Z) :
  (forall row col, 0 <= row < h -> 0 <= col < w -> clipped clip (x + col) (y + row) = false) ->
  putFastClip clip pixels dst dW x y w h = putFast pixels dst dW x y w h.
Proof.
  intros Hno. unfold putFastClip, putFast.
  apply forRange_ext. intros row d Hrow.
  apply forRange_ext. intros col d' Hcol.
  by rewrite Hno.
Qed.

(** With an LSB-first client, a rectangle inside the buffer, complete pixel
    data and no clipping inside the rectangle, [putPixels] is the fast copy
    loop. *)
Lemma putPixels_lsb_covered (clip : list ClipRect) (pixels dst : list Z)
    (dW dH x y w h : Z) :
  0 <= x -> 0 <= y -> x + w <= dW -> y + h <= dH ->
  Z.of_nat (length pixels) >= w * h * 4 ->
  (forall row col, 0 <= row < h -> 0 <= col < w -> clipped clip (x + col) (y + row) = false) ->
  putPixels false clip pixels dst dW dH x y w h = putFast pixels dst dW x y w h.
Proof.
  intros Hx Hy Hfx Hfy Hdata Hno. unfold putPixels.
  rewrite bool_decide_eq_true_2 by lia. cbn [andb negb].
  destruct (bool_decide (clip = [])); [done|].
  by apply putFastClip_noclip.
Qed.

(** What a pixel stored by PutImage from the LSB-first bytes b0 b1 b2 b3
    reads back as: the first three bytes, then 0xFF. *)
Lemma byte_testbit_high b n : 0 <= b < 256 -> 8 <= n -> Z.testbit b n = false.
Proof.
  intros Hb Hn. rewrite <- (Z.mod_small b (2 ^ 8)) by (change (2 ^ 8) with 256; lia).
  rewrite Z.testbit_mod_pow2 by lia.
  destruct (Z.ltb_spec n 8); [lia|done].
Qed.

Lemma u8_byte b : 0 <= b < 256 -> u8 b = b.
Proof.
  intros Hb. unfold u8. change 0xff with (Z.ones 8).
  rewrite Z.land_ones by lia. apply Z.mod_small. change (2 ^ 8) with 256. lia.
Qed.

Lemma opaque_mask_testbit n :
  0 <= n -> Z.testbit 0xFF000000 n = (24 <=? n) && (n <? 32).
Proof.
  intros Hn. change 0xFF000000 with (Z.shiftl (Z.ones 8) 24).
  rewrite Z.shiftl_spec by lia.
  destruct (Z.leb_spec 24 n); cbn [andb].
  - rewrite Z.testbit_ones by lia.
    destruct (Z.leb_spec 0 (n - 24)); [|lia]. cbn [andb].
    destruct (Z.ltb_spec (n - 24) 8), (Z.ltb_spec n 32); try lia; done.
  - by rewrite Z.testbit_neg_r by lia.
Qed.

Lemma store32_opaque_load32 b0 b1 b2 b3 :
  0 <= b0 < 256 -> 0 <= b1 < 256 -> 0 <= b2 < 256 -> 0 <= b3 < 256 ->
  store32 (forceOpaque (Z.lor (Z.lor (Z.lor b0 (Z.shiftl b1 8)) (Z.shiftl b2 16))
                              (Z.shiftl b3 24)))
  = [b0; b1; b2; 0xFF].
Proof.
  intros H0 H1 H2 H3. unfold store32, forceOpaque.
  assert (forall k b, 0 <= k ->
            (forall n, 0 <= n < 8 ->
               Z.testbit (Z.lor (Z.lor (Z.lor (Z.lor b0 (Z.shiftl b1 8)) (Z.shiftl b2 16))
                                       (Z.shiftl b3 24)) 0xFF000000) (n + k)
               = Z.testbit b n) ->
            0 <= b < 256 ->
            u8 (Z.shiftr (Z.lor (Z.lor (Z.lor (Z.lor b0 (Z.shiftl b1 8)) (Z.shiftl b2 16))
                                       (Z.shiftl b3 24)) 0xFF000000) k) = b) as Hbyte.
  { intros k b Hk Hbits Hb. transitivity (u8 b); [|by apply u8_byte].
    apply Z.bits_inj'. intros n Hn. rewrite !u8_testbit by lia.
    destruct (Z.ltb_spec n 8); [|done]. cbn [andb].
    rewrite Z.shiftr_spec by lia. apply Hbits. lia. }
  assert (forall n, 0 <= n ->
            Z.testbit (Z.lor (Z.lor (Z.lor (Z.lor b0 (Z.shiftl b1 8)) (Z.shiftl b2 16))
                                    (Z.shiftl b3 24)) 0xFF000000) n
            = if decide (n < 8) then Z.testbit b0 n
              else if decide (n < 16) then Z.testbit b1 (n - 8)
              else if decide (n < 24) then Z.testbit b2 (n - 16)
              else (n <? 32)) as Hall.
  { intros n Hn. rewrite !Z.lor_spec, !Z.shiftl_spec, opaque_mask_testbit by lia.
    repeat case_decide.
    - rewrite !(Z.testbit_neg_r _ (n - _)) by lia.
      destruct (Z.leb_spec 24 n); [lia|]. cbn. by rewrite !orb_false_r.
    - rewrite (byte_testbit_high b0) by lia.
      rewrite (Z.testbit_neg_r _ (n - 16)), (Z.testbit_neg_r _ (n - 24)) by lia.
      destruct (Z.leb_spec 24 n); [lia|]. cbn. by rewrite !orb_false_r.
    - rewrite (byte_testbit_high b0), (byte_testbit_high b1) by lia.
      rewrite (Z.testbit_neg_r _ (n - 24)) by lia.
      destruct (Z.leb_spec 24 n); [lia|]. cbn. by rewrite !orb_false_r.
    - rewrite (byte_testbit_high b0), (byte_testbit_high b1), (byte_testbit_high b2) by lia.
      destruct (Z.leb_spec 24 n); [|lia]. cbn.
      destruct (Z.ltb_spec n 32).
      + by rewrite orb_true_r.
      + rewrite (byte_testbit_high b3) by lia. done. }
  f_equal; [|f_equal; [|f_equal; [|f_equal]]].
  - rewrite <- (Z.shiftr_0_r (Z.lor _ _)). apply Hbyte; [lia| |done].
    intros n Hn. rewrite Hall by lia. case_decide; [|lia]. f_equal. lia.
  - apply Hbyte; [lia| |done].
    intros n Hn. rewrite Hall by lia. repeat case_decide; try lia. f_equal. lia.
  - apply Hbyte; [lia| |done].
    intros n Hn. rewrite Hall by lia. repeat case_decide; try lia. f_equal. lia.
  - apply (Hbyte 24 255); [lia| |lia].
    intros n Hn. rewrite Hall by lia. repeat case_decide; try lia.
    change 255 with (Z.ones 8). rewrite Z.testbit_ones by lia.
    destruct (Z.ltb_spec (n + 24) 32), (Z.leb_spec 0 n), (Z.ltb_spec n 8); try lia; done.
Qed.

Lemma rows_concat (F : Z -> Z) (w h : Z) :
  0 <= w -> 0 <= h ->
  flat_map (fun row => (fun col => F (row * w + col)) <$> seqZ 0 w) (seqZ 0 h)
  = F <$> seqZ 0 (h * w).
Proof.
  intros Hw Hh. rewrite <- (Z2Nat.id h Hh). generalize (Z.to_nat h) as k. clear Hh h.
  induction k as [|k IH]; [done|].
  rewrite seqZ_S, flat_map_app, IH. cbn [flat_map]. rewrite app_nil_r, Z.add_0_l.
  replace (Z.of_nat (S k) * w) with (Z.of_nat k * w + w) by lia.
  rewrite seqZ_app by nia. rewrite fmap_app. f_equal.
  rewrite Z.add_0_l.
  transitivity (F <$> (Z.add (Z.of_nat k * w) <$> seqZ 0 w)).
  - by rewrite <- list_fmap_compose.
  - by rewrite fmap_add_seqZ, Z.add_0_r.
Qed.

Lemma load32_skip4 b0 b1 b2 b3 (rest : list Z) (i : nat) :
  load32 (b0 :: b1 :: b2 :: b3 :: rest) (4 + i) = load32 rest i.
Proof. reflexivity. Qed.

Lemma opaque_chunks (n : nat) :
  forall pixels : list Z,
    length pixels = (4 * n)%nat ->
    Forall (fun b => 0 <= b < 256) pixels ->
    flat_map store32
      ((fun k => forceOpaque (load32 pixels (Z.to_nat (k * 4)))) <$> seqZ 0 (Z.of_nat n))
    = opaqueLsb pixels.
Proof.
  induction n as [|n IH]; intros pixels Hlen Hbytes.
  - destruct pixels; [done|cbn in Hlen; lia].
  - destruct pixels as [|b0 [|b1 [|b2 [|b3 rest]]]]; try (exfalso; cbn in Hlen; lia).
    apply Forall_cons in Hbytes as [H0 Hbytes].
    apply Forall_cons in Hbytes as [H1 Hbytes].
    apply Forall_cons in Hbytes as [H2 Hbytes].
    apply Forall_cons in Hbytes as [H3 Hbytes].
    rewrite seqZ_cons by lia. rewrite fmap_cons. cbn [flat_map opaqueLsb].
    replace (Z.pred (Z.of_nat (S n))) with (Z.of_nat n) by lia.
    change (Z.succ 0) with (1 + 0). rewrite <- fmap_add_seqZ, <- list_fmap_compose.
    assert (load32 (b0 :: b1 :: b2 :: b3 :: rest) (Z.to_nat (0 * 4))
            = Z.lor (Z.lor (Z.lor b0 (Z.shiftl b1 8)) (Z.shiftl b2 16)) (Z.shiftl b3 24))
      as -> by reflexivity.
    rewrite store32_opaque_load32 by done. cbn [app]. do 4 f_equal.
    rewrite <- (IH rest) by first [cbn in Hlen; lia|done].
    f_equal. apply list_fmap_ext. intros i k Hk. cbn [compose].
    apply lookup_seqZ in Hk as [-> _].
    replace (Z.to_nat ((1 + (0 + Z.of_nat i)) * 4)) with (4 + Z.to_nat ((0 + Z.of_nat i) * 4))%nat
      by lia.
    by rewrite load32_skip4.
Qed.

(** The round trip on one buffer: what the fast read path returns for the
    rectangle the fast write path has just filled. *)
Lemma getFast_putFast (pixels dst : list Z) (dW dH x y w h : Z) :
  Z.of_nat (length dst) = dW * dH ->
  0 <= x -> 0 <= y -> 0 < w -> 0 < h -> x + w <= dW -> y + h <= dH ->
  Z.of_nat (length pixels) = w * h * 4 ->
  Forall (fun b => 0 <= b < 256) pixels ->
  getFast (putFast pixels dst dW x y w h) dW x y w h = opaqueLsb pixels.
Proof.
  intros Hlen Hx Hy Hw Hh Hfx Hfy Hdata Hbytes.
  destruct (putFast_spec pixels dst dW dH x y w h) as [_ Hpix]; try done.
  unfold getFast, pixelBytes.
  assert (flat_map (fun row => pixelRun (putFast pixels dst dW x y w h)
                                        ((y + row) * dW + x) w) (seqZ 0 h)
          = flat_map (fun row =>
                        (fun col => forceOpaque
                                      (load32 pixels (Z.to_nat ((row * w + col) * 4))))
                          <$> seqZ 0 w) (seqZ 0 h)) as ->.
  { assert (forall l, (forall row, row ∈ l -> 0 <= row < h) ->
              flat_map (fun row => pixelRun (putFast pixels dst dW x y w h)
                                            ((y + row) * dW + x) w) l
              = flat_map (fun row =>
                            (fun col => forceOpaque
                                          (load32 pixels (Z.to_nat ((row * w + col) * 4))))
                              <$> seqZ 0 w) l) as Hgen.
    { induction l as [|row l IH]; intros Hl; [done|]. cbn [flat_map].
      rewrite IH by (intros r Hr; apply Hl; by right). f_equal.
      unfold pixelRun. apply list_fmap_ext. intros i col Hcol.
      apply lookup_seqZ in Hcol as [-> Hi].
      apply Hpix; [apply Hl; left|lia]. }
    apply Hgen. intros row Hrow. apply elem_of_seqZ in Hrow. lia. }
  rewrite (rows_concat (fun k => forceOpaque (load32 pixels (Z.to_nat (k * 4))))) by lia.
  replace (h * w) with (Z.of_nat (Z.to_nat (w * h))) by lia.
  apply opaque_chunks; [lia|done].
Qed.

(** ** PutImage and GetImage *)

Lemma putImage_top_level (r : PutImageReq) (pixels : list Z) (s : Impl) :
  isTopLevelDrawable (wins s) (pi_drawable r) ->
  Z.of_nat (length (framebuffer (surf s))) = fbWidth (surf s) * fbHeight (surf s) ->
  putImage r pixels s
  = setSurf (mkSurface (width (surf s)) (height (surf s))
               (putPixels (msbFirst_ s) (collectChildClip (wins s) (pi_drawable r)) pixels
                          (framebuffer (surf s)) (fbWidth (surf s)) (fbHeight (surf s))
                          (pi_x r) (pi_y r) (pi_w r) (pi_h r))
               true (originalChildW (surf s)) (originalChildH (surf s))
               (pluginWidth (surf s)) (pluginHeight (surf s)) (pixmaps (surf s))) s
  /\ drawableClip s (pi_drawable r) = collectChildClip (wins s) (pi_drawable r).
Proof.
  intros Htop Hlen. unfold putImage, drawableClip.
  rewrite (bool_decide_eq_true_2 _ Hlen).
  destruct Htop as [[rest Hcw]|[Hroot Hnin]].
  - rewrite Hcw.
    rewrite (bool_decide_eq_true_2 (pi_drawable r ∈ pi_drawable r :: rest)) by left.
    rewrite (bool_decide_eq_true_2 (pi_drawable r = pi_drawable r)) by done.
    cbn [andb orb negb]. done.
  - rewrite (bool_decide_eq_false_2 _ Hnin).
    rewrite (bool_decide_eq_true_2 _ Hroot).
    cbn [andb orb negb]. done.
Qed.

Lemma putImage_pixmap (r : PutImageReq) (pixels : list Z) (s : Impl) pd :
  pi_drawable r ∉ childWindows (wins s) -> pi_drawable r ≠ kRootWindowId ->
  pixmaps (surf s) !! pi_drawable r = Some pd ->
  putImage r pixels s
  = setSurf (mkSurface (width (surf s)) (height (surf s)) (framebuffer (surf s))
               (dirty (surf s)) (originalChildW (surf s)) (originalChildH (surf s))
               (pluginWidth (surf s)) (pluginHeight (surf s))
               (<[pi_drawable r :=
                    mkPixmapData (pm_w pd) (pm_h pd)
                      (putPixels (msbFirst_ s) [] pixels (pm_pixels pd) (pm_w pd) (pm_h pd)
                                 (pi_x r) (pi_y r) (pi_w r) (pi_h r))]>
                  (pixmaps (surf s)))) s
  /\ drawableClip s (pi_drawable r) = [].
Proof.
  intros Hnin Hroot Hpd. unfold putImage, drawableClip.
  rewrite (bool_decide_eq_false_2 _ Hnin), (bool_decide_eq_false_2 _ Hroot).
  cbn [andb orb negb]. rewrite Hpd. done.
Qed.

Lemma getImage_words (w h : Z) : (w * h * 4 + 3) / 4 = w * h.
Proof. rewrite Z.div_add_l by lia. change (3 / 4) with 0. lia. Qed.

(** C1 (as the code has it).  For an LSB-first client, a PutImage of a
    [w] x [h] rectangle, both between 1 and 4096, with its [w * h * 4] bytes
    of pixel data, at (x, y) on the top-level window or on a pixmap, the
    rectangle inside the destination buffer and not clipped by a mapped
    child window, followed by a GetImage of the same rectangle of the same
    drawable: the pixel data is consumed from the stream, and the reply
    carries the bytes written with the fourth byte of every pixel replaced
    by 0xFF. *)
Theorem putImage_getImage_roundtrip_lsb
    (s : Impl) (d x y w h dW dH seq : Z) (pixels rest : list Z) :
  msbFirst_ s = false ->
  roundTripTarget s d dW dH ->
  0 < w <= 4096 -> 0 < h <= 4096 ->
  0 <= x -> 0 <= y -> x + w <= dW -> y + h <= dH ->
  Z.of_nat (length pixels) = w * h * 4 ->
  Forall (fun b => 0 <= b < 256) pixels ->
  (forall px py, x <= px < x + w -> y <= py < y + h ->
                 clipped (drawableClip s d) px py = false) ->
  let put := receivePutImage (mkPutImageReq d w h x y) (w * h * 4) (pixels ++ rest) s in
  put.2 = rest
  /\ (getImage seq (mkGetImageReq d x y w h) put.1).2
     = [ replyGetImageHeader false seq (w * h) ++ opaqueLsb pixels ]
  /\ replyImageData (replyGetImageHeader false seq (w * h) ++ opaqueLsb pixels)
     = opaqueLsb pixels.
Proof.
  intros Hlsb Htarget Hw Hh Hx Hy Hfx Hfy Hdata Hbytes Hclip put.
  assert (put = (putImage (mkPutImageReq d w h x y) pixels s, rest)) as ->.
  { subst put. unfold receivePutImage. cbn [pi_w pi_h].
    case_decide as Hg; [|exfalso; apply Hg; lia].
    rewrite (recvAll_app pixels rest) by lia. done. }
  cbn [fst snd]. split; [done|]. split.
  2:{ unfold replyImageData. by destruct (opaqueLsb pixels). }
  assert (forall row col, 0 <= row < h -> 0 <= col < w ->
                          clipped (drawableClip s d) (x + col) (y + row) = false) as Hno.
  { intros row col Hr Hc. apply Hclip; lia. }
  unfold getImage, sendReply. cbn [snd gi_w gi_h]. f_equal.
  rewrite getImage_words. f_equal.
  - (* header: the byte order is unchanged *)
    destruct Htarget as [Htop Hlen|pd Hnin Hroot Hpd Hlen].
    + destruct (putImage_top_level (mkPutImageReq d w h x y) pixels s Htop Hlen) as [-> _].
      cbn. by rewrite Hlsb.
    + destruct (putImage_pixmap (mkPutImageReq d w h x y) pixels s pd Hnin Hroot Hpd)
        as [-> _].
      cbn. by rewrite Hlsb.
  - destruct Htarget as [Htop Hlen|pd Hnin Hroot Hpd Hlen].
    + (* top-level window: the framebuffer *)
      destruct (putImage_top_level (mkPutImageReq d w h x y) pixels s Htop Hlen)
        as [-> Hcl].
      cbn [pi_drawable pi_x pi_y pi_w pi_h] in *. rewrite Hcl in Hno. rewrite Hlsb.
      rewrite putPixels_lsb_covered by (first [done|lia]).
      destruct (putFast_spec pixels (framebuffer (surf s)) (fbWidth (surf s))
                  (fbHeight (surf s)) x y w h) as [Hl' _]; try lia.
      unfold getImageData.
      cbn [wins surf setSurf framebuffer gi_drawable gi_x gi_y gi_w gi_h].
      assert (bool_decide (d ∈ childWindows (wins s)) || bool_decide (d = kRootWindowId)
              = true) as ->.
      { destruct Htop as [[rs Hcw]|[Hr _]].
        - rewrite Hcw. rewrite (bool_decide_eq_true_2 (d ∈ d :: rs)) by left. done.
        - rewrite (bool_decide_eq_true_2 _ Hr). by rewrite orb_true_r. }
      rewrite bool_decide_eq_false_2.
      2:{ intros Hnil. rewrite Hnil in Hl'. cbn in Hl'. nia. }
      cbn [andb negb].
      assert (forall f, fbWidth (mkSurface (width (surf s)) (height (surf s)) f true
                           (originalChildW (surf s)) (originalChildH (surf s))
                           (pluginWidth (surf s)) (pluginHeight (surf s))
                           (pixmaps (surf s))) = fbWidth (surf s)) as Hfw by done.
      assert (forall f, fbHeight (mkSurface (width (surf s)) (height (surf s)) f true
                           (originalChildW (surf s)) (originalChildH (surf s))
                           (pluginWidth (surf s)) (pluginHeight (surf s))
                           (pixmaps (surf s))) = fbHeight (surf s)) as Hfh by done.
      rewrite Hfw, Hfh.
      case_decide as Hpos; [|lia].
      rewrite bool_decide_eq_true_2 by lia. cbn [andb].
      apply (getFast_putFast pixels _ _ (fbHeight (surf s))); (first [done|lia]).
    + (* pixmap *)
      destruct (putImage_pixmap (mkPutImageReq d w h x y) pixels s pd Hnin Hroot Hpd)
        as [-> Hcl].
      cbn [pi_drawable pi_x pi_y pi_w pi_h] in *. rewrite Hcl in Hno. rewrite Hlsb.
      rewrite putPixels_lsb_covered by (first [done|lia]).
      unfold getImageData.
      cbn [wins surf setSurf pixmaps gi_drawable gi_x gi_y gi_w gi_h].
      rewrite (bool_decide_eq_false_2 _ Hnin), (bool_decide_eq_false_2 _ Hroot).
      cbn [andb orb]. rewrite lookup_insert_eq. cbn [pm_pixels pm_w pm_h].
      case_decide as Hpos; [|lia].
      rewrite bool_decide_eq_true_2 by lia. cbn [andb].
      apply (getFast_putFast pixels _ _ (pm_h pd)); (first [done|lia]).
Qed.

Lemma putImage_getImage_roundtrip_lsb_witness :
  let s := stateUnmappedTop in
  let put := receivePutImage (mkPutImageReq 100 2 1 3 4) 8 [1; 2; 3; 4; 5; 6; 7; 8] s in
  put.2 = []
  /\ (getImage 9 (mkGetImageReq 100 3 4 2 1) put.1).2
     = [ replyGetImageHeader false 9 2 ++ [1; 2; 3; 255; 5; 6; 7; 255] ].
Proof.
  assert (roundTripTarget stateUnmappedTop 100 40 30) as Htarget.
  { apply (rt_window stateUnmappedTop 100).
    - left. exists []. reflexivity.
    - reflexivity. }
  destruct (putImage_getImage_roundtrip_lsb stateUnmappedTop 100 3 4 2 1 40 30 9
              [1; 2; 3; 4; 5; 6; 7; 8] [] eq_refl Htarget
              ltac:(lia) ltac:(lia) ltac:(lia) ltac:(lia) ltac:(lia) ltac:(lia)
              eq_refl ltac:(repeat constructor; lia)
              ltac:(intros px py _ _; vm_compute; reflexivity))
    as (H1 & H2 & _).
  split; [exact H1|exact H2].
Defined.

(** C1, as stated, fails by the size check of the request loop: a PutImage
    5000 pixels wide, inside a pixmap of 5000 x 1, is read and dropped, and
    GetImage returns the background the pixmap was created with. *)
Lemma putImage_wider_than_4096_is_dropped :
  let s := statePixmapWide in
  let pixels := repeat 9 (Z.to_nat 20000) in
  (exists pd, pixmaps (surf s) !! 300 = Some pd
              /\ pm_w pd = 5000 /\ pm_h pd = 1
              /\ Z.of_nat (length (pm_pixels pd)) = 5000)
  /\ Z.of_nat (length pixels) = 5000 * 1 * 4
  /\ receivePutImage (mkPutImageReq 300 5000 1 0 0) 20000 pixels s = (s, [])
  /\ match serverStep (fun n => n) (repeat 0 256%nat) s 0 widePutImage with
     | Next s' _ rest out => s' = s /\ rest = [] /\ out = []
     | _ => False
     end
  /\ take 8 (getImageData (mkGetImageReq 300 0 0 5000 1) s)
     = [0x20; 0x20; 0x30; 0xFF; 0x20; 0x20; 0x30; 0xFF]
  /\ take 8 (opaqueLsb pixels) = [9; 9; 9; 255; 9; 9; 9; 255].
Proof.
  split.
  { eexists. split; [vm_compute; reflexivity|]. vm_compute. auto. }
  vm_compute. auto 10.
Qed.

(** The two readings of C1 that the code misses by a slip, evaluated.  On an
    MSB-first connection PutImage stores the pixel [A][R][G][B] as the word
    0xFFRRGGBB, and GetImage copies the words out in host order: the bytes
    come back reversed. *)
Example putImage_getImage_msb_first :
  let s := statePixmapMsb in
  let put := receivePutImage (mkPutImageReq 300 1 1 0 0) 4 [0x11; 0x22; 0x33; 0x44] s in
  getImageData (mkGetImageReq 300 0 0 1 1) put.1 = [0x44; 0x33; 0x22; 0xFF]
  /\ opaqueMsb [0x11; 0x22; 0x33; 0x44] = [0xFF; 0x22; 0x33; 0x44].
Proof. vm_compute. auto. Qed.

(** PutImage on a mapped child window draws at the child's absolute
    position; GetImage on the same window reads at the coordinates of the
    request, without the offset (CopyArea adds it on both sides). *)
Example putImage_getImage_child_window :
  let s := stateChild in
  let put := receivePutImage (mkPutImageReq 200 1 1 0 0) 4 [1; 2; 3; 4] s in
  getAbsolutePos (wins s) 200 = (5, 5)
  /\ getImageData (mkGetImageReq 200 0 0 1 1) put.1 = [0x20; 0x20; 0x30; 0xFF]
  /\ getImageData (mkGetImageReq 200 5 5 1 1) put.1 = [1; 2; 3; 0xFF].
Proof. vm_compute. auto. Qed.

(** ** The subtree collected by MapWindow *)

Lemma subtreePass_fold (l : list (Z * WindowPos)) :
  forall (acc : gset Z) (ch : bool),
    let res := foldl (fun '(st, changed) '(cw, pos) =>
                        if decide (wp_parent pos ∈ st /\ cw ∉ st)
                        then ({[cw]} ∪ st, true) else (st, changed))
                     (acc, ch) l in
    (res.2 = false ->
       ch = false /\ res.1 = acc
       /\ forall cw pos, (cw, pos) ∈ l -> wp_parent pos ∈ acc -> cw ∈ acc)
    /\ (res.2 = true -> ch = false -> exists cw, cw ∈ res.1 /\ cw ∉ acc).
Proof.
  induction l as [|[cw pos] l IH]; intros acc ch; cbn [foldl].
  - cbn. split.
    + intros ->. split; [done|]. split; [done|]. intros ? ? Hin. by apply elem_of_nil in Hin.
    + intros -> [=].
  - destruct (decide (wp_parent pos ∈ acc /\ cw ∉ acc)) as [[Hp Hc]|Hn].
    + destruct (IH ({[cw]} ∪ acc) true) as [H1 H2]. cbn zeta in *. split.
      * intros Hf. destruct (H1 Hf) as [[=] _].
      * intros _ _. exists cw. split; [|done].
        assert (forall (k : list (Z * WindowPos)) (a : gset Z) (c : bool),
                   a ⊆ (foldl (fun '(st, changed) '(cw, pos) =>
                                 if decide (wp_parent pos ∈ st /\ cw ∉ st)
                                 then ({[cw]} ∪ st, true) else (st, changed))
                              (a, c) k).1) as Hmono.
        { induction k as [|[cw' pos'] k IHk]; intros a c; cbn [foldl]; [done|].
          case_decide; [|apply IHk].
          etrans; [|apply IHk]. set_solver. }
        apply Hmono. set_solver.
    + destruct (IH acc ch) as [H1 H2]. cbn zeta in *. split.
      * intros Hf. destruct (H1 Hf) as (-> & Hacc & Hcl). split; [done|]. split; [done|].
        intros cw' pos' Hin Hpar. apply elem_of_cons in Hin as [[= -> ->]|Hin].
        -- destruct (decide (cw ∈ acc)); [done|]. exfalso. apply Hn. done.
        -- by eapply Hcl.
      * done.
Qed.

Lemma subtreeLoop_closed (positions : gmap Z WindowPos) (n : nat) :
  forall st : gset Z,
    (size (dom positions ∖ st) < n)%nat ->
    forall cw pos, positions !! cw = Some pos ->
                   wp_parent pos ∈ subtreeLoop positions n st ->
                   cw ∈ subtreeLoop positions n st.
Proof.
  induction n as [|n IH]; intros st Hsize cw pos Hcw; [lia|].
  cbn [subtreeLoop].
  pose proof (subtreePass_bounds positions st) as [Hlo Hhi].
  pose proof (subtreePass_fold (map_to_list positions) st false) as [Hf Ht].
  fold (subtreePass positions st) in Hf, Ht. cbn zeta in Hf, Ht.
  destruct (subtreePass positions st) as [st' ch]. cbn [fst snd] in *.
  destruct ch.
  - destruct (Ht eq_refl eq_refl) as (x & Hx & Hnx).
    apply IH; [|done].
    assert (dom positions ∖ st' ⊂ dom positions ∖ st) as Hsub.
    { assert (x ∈ dom positions) by set_solver. set_solver. }
    apply subset_size in Hsub. lia.
  - destruct (Hf eq_refl) as (_ & -> & Hcl). intros Hpar.
    eapply Hcl; [|done]. by apply elem_of_map_to_list.
Qed.

(** The passes allowed by [collectSubtree] suffice: the set it returns
    contains the window and is closed under "child of". *)
Lemma collectSubtree_closed (positions : gmap Z WindowPos) (wid : Z) :
  wid ∈ collectSubtree positions wid
  /\ forall cw pos, positions !! cw = Some pos ->
                    wp_parent pos ∈ collectSubtree positions wid ->
                    cw ∈ collectSubtree positions wid.
Proof.
  split.
  - pose proof (subtreeLoop_bounds positions (S (size positions)) {[wid]}) as [H _].
    unfold collectSubtree. set_solver.
  - apply subtreeLoop_closed.
    assert (size (dom positions ∖ {[wid]}) <= size (dom positions))%nat as Hle.
    { apply subseteq_size. set_solver. }
    rewrite size_dom in Hle. lia.
Qed.

(** * Properties of the rest of the server *)

(** ** Wire codec: what is written is read back *)

Lemma u32_range v : 0 <= u32 v < 4294967296.
Proof. unfold u32. apply Z.mod_pos_bound. lia. Qed.

Lemma u8_range v : 0 <= u8 v < 256.
Proof.
  unfold u8. change 0xff with (Z.ones 8). rewrite Z.land_ones by lia.
  apply Z.mod_pos_bound. lia.
Qed.

Lemma u8_shiftr_u32 v k : 0 <= k <= 24 -> u8 (Z.shiftr (u32 v) k) = u8 (Z.shiftr v k).
Proof.
  intros Hk. apply Z.bits_inj'. intros n Hn. bits_words.
  destruct (Z_lt_le_dec n 8); bits_close.
Qed.

Lemma u8_u32 v : u8 (u32 v) = u8 v.
Proof.
  apply Z.bits_inj'. intros n Hn. bits_words.
  destruct (Z_lt_le_dec n 8); bits_close.
Qed.

Lemma u8_shiftr_u16 v k : 0 <= k <= 8 -> u8 (Z.shiftr (u16 v) k) = u8 (Z.shiftr v k).
Proof.
  intros Hk. apply Z.bits_inj'. intros n Hn. bits_words.
  destruct (Z_lt_le_dec n 8); bits_close.
Qed.

Lemma u8_u16 v : u8 (u16 v) = u8 v.
Proof.
  apply Z.bits_inj'. intros n Hn. bits_words.
  destruct (Z_lt_le_dec n 8); bits_close.
Qed.

Lemma read32_write32 msb (p : list Z) (off : nat) (val : Z) :
  (off + 4 <= length p)%nat ->
  read32 msb (write32 msb p off val) off = u32 val.
Proof.
  intros Hlen. unfold read32, write32, byteAt. destruct msb.
  - list_insert_lookup. cbn [default from_option id].
    rewrite <- (u8_shiftr_u32 val 24), <- (u8_shiftr_u32 val 16),
            <- (u8_shiftr_u32 val 8), <- (u8_u32 val) by lia.
    apply join32_be, u32_range.
  - list_insert_lookup. cbn [default from_option id].
    rewrite <- (u8_shiftr_u32 val 24), <- (u8_shiftr_u32 val 16),
            <- (u8_shiftr_u32 val 8), <- (u8_u32 val) by lia.
    apply join32_le, u32_range.
Qed.

Lemma read16_write16 msb (p : list Z) (off : nat) (val : Z) :
  (off + 2 <= length p)%nat ->
  read16 msb (write16 msb p off val) off = u16 val.
Proof.
  intros Hlen. unfold read16, write16, byteAt. destruct msb.
  - list_insert_lookup. cbn [default from_option id].
    rewrite <- (u8_shiftr_u16 val 8), <- (u8_u16 val) by lia.
    apply join16_be, u16_range.
  - list_insert_lookup. cbn [default from_option id].
    rewrite <- (u8_shiftr_u16 val 8), <- (u8_u16 val) by lia.
    apply join16_le, u16_range.
Qed.

Lemma length_write16 msb (p : list Z) off val : length (write16 msb p off val) = length p.
Proof. unfold write16. destruct msb; by rewrite !length_insert. Qed.

Lemma length_write32 msb (p : list Z) off val : length (write32 msb p off val) = length p.
Proof. unfold write32. destruct msb; by rewrite !length_insert. Qed.

Lemma write16_lookup_other msb (p : list Z) off val (i : nat) :
  (i < off \/ off + 2 <= i)%nat -> write16 msb p off val !! i = p !! i.
Proof. intros Hi. unfold write16. destruct msb; by rewrite !list_lookup_insert_ne by lia. Qed.

Lemma write32_lookup_other msb (p : list Z) off val (i : nat) :
  (i < off \/ off + 4 <= i)%nat -> write32 msb p off val !! i = p !! i.
Proof. intros Hi. unfold write32. destruct msb; by rewrite !list_lookup_insert_ne by lia. Qed.

(** X1. In either byte order, a 16-bit or 32-bit value written into a
    buffer by [write16] or [write32] at an offset that lies inside the
    buffer is read back by [read16] or [read32] at that offset (as the value
    truncated to 16 or 32 bits); the write keeps the length of the buffer and
    changes no byte outside the two or four bytes of the field. *)
Theorem codec_write_then_read (msb : bool) (p : list Z) (off : nat) (val : Z) :
  (off + 4 <= length p)%nat ->
  read16 msb (write16 msb p off val) off = u16 val
  /\ read32 msb (write32 msb p off val) off = u32 val
  /\ length (write16 msb p off val) = length p
  /\ length (write32 msb p off val) = length p
  /\ (forall i : nat, (i < off \/ off + 2 <= i)%nat ->
        write16 msb p off val !! i = p !! i)
  /\ (forall i : nat, (i < off \/ off + 4 <= i)%nat ->
        write32 msb p off val !! i = p !! i).
Proof.
  intros Hlen. repeat split.
  - apply read16_write16. lia.
  - by apply read32_write32.
  - apply length_write16.
  - apply length_write32.
  - intros i Hi. by apply write16_lookup_other.
  - intros i Hi. by apply write32_lookup_other.
Qed.

Lemma codec_write_then_read_witness :
  read16 true (write16 true [9; 9; 9; 9; 9; 9] 1 0xABCD) 1 = u16 0xABCD
  /\ read32 false (write32 false [9; 9; 9; 9; 9; 9] 2 (-2)) 2 = u32 (-2).
Proof.
  split.
  - apply (codec_write_then_read true [9; 9; 9; 9; 9; 9] 1 0xABCD). cbn. lia.
  - apply (codec_write_then_read false [9; 9; 9; 9; 9; 9] 2 (-2)). cbn. lia.
Defined.

(** ** The socket loops *)

Lemma recvAllChunks_spec (sock : list SockEvent) : forall (len : nat),
  pendingBytes sock = (recvAllChunks len sock).1.2 ++ pendingBytes (recvAllChunks len sock).2
  /\ (length (recvAllChunks len sock).1.2 <= len)%nat
  /\ ((recvAllChunks len sock).1.1 = true <-> length (recvAllChunks len sock).1.2 = len).
Proof.
  induction sock as [|e rest IH]; intros len.
  - destruct len; cbn; repeat split; try done; lia.
  - destruct len as [|len'].
    { cbn. repeat split; try done. }
    set (len := S len'). assert (len <> 0)%nat as Hlen by (subst len; lia).
    destruct e as [bytes|ready| |].
    + destruct bytes as [|b bytes'].
      { cbn. repeat split; try done; try lia. }
      set (bytes := b :: bytes').
      change (recvAllChunks len (Arrive bytes :: rest))
        with (if decide (len <= length bytes)%nat then
                (true, take len bytes,
                 match drop len bytes with
                 | [] => rest
                 | remaining => Arrive remaining :: rest
                 end)
              else
                let '(ok, data, sock') := recvAllChunks (len - length bytes) rest in
                (ok, bytes ++ data, sock')).
      case_decide as Hle.
      * cbn [fst snd]. rewrite length_take. repeat split; try lia.
        change (pendingBytes (Arrive bytes :: rest)) with (bytes ++ pendingBytes rest).
        rewrite <- (take_drop len bytes) at 1. rewrite <- app_assoc. f_equal.
        destruct (drop len bytes); done.
      * specialize (IH (len - length bytes)%nat).
        destruct (recvAllChunks (len - length bytes) rest) as [[ok data] sock'].
        cbn [fst snd] in *. destruct IH as (IH1 & IH2 & IH3).
        rewrite length_app. repeat split.
        -- change (pendingBytes (Arrive bytes :: rest)) with (bytes ++ pendingBytes rest).
           rewrite IH1. by rewrite app_assoc.
        -- lia.
        -- intros Hok. apply IH3 in Hok. lia.
        -- intros Hl. apply IH3. lia.
    + destruct ready.
      * change (recvAllChunks len (WouldBlock true :: rest)) with (recvAllChunks len rest).
        apply IH.
      * cbn. repeat split; try done; lia.
    + cbn. repeat split; try done; lia.
    + cbn. repeat split; try done; lia.
Qed.

Lemma recvAllChunks_healthy (sock : list SockEvent) : forall (len : nat),
  healthy sock ->
  ((recvAllChunks len sock).1.1 = true <-> (len <= length (pendingBytes sock))%nat).
Proof.
  induction sock as [|e rest IH]; intros len Hh.
  - destruct len; cbn; split; try done; lia.
  - destruct len as [|len'].
    { cbn. split; [lia|done]. }
    set (len := S len'). assert (len <> 0)%nat as Hlen by (subst len; lia).
    apply Forall_cons in Hh as [He Hh].
    destruct e as [bytes|ready| |]; try done.
    + destruct bytes as [|b bytes']; [done|].
      set (bytes := b :: bytes').
      change (recvAllChunks len (Arrive bytes :: rest))
        with (if decide (len <= length bytes)%nat then
                (true, take len bytes,
                 match drop len bytes with
                 | [] => rest
                 | remaining => Arrive remaining :: rest
                 end)
              else
                let '(ok, data, sock') := recvAllChunks (len - length bytes) rest in
                (ok, bytes ++ data, sock')).
      change (pendingBytes (Arrive bytes :: rest)) with (bytes ++ pendingBytes rest).
      rewrite length_app.
      case_decide as Hle.
      * cbn [fst]. split; [lia|done].
      * specialize (IH (len - length bytes)%nat Hh).
        destruct (recvAllChunks (len - length bytes) rest) as [[ok data] sock'].
        cbn [fst] in *. rewrite IH. lia.
    + subst ready.
      change (recvAllChunks len (WouldBlock true :: rest)) with (recvAllChunks len rest).
      change (pendingBytes (WouldBlock true :: rest)) with (pendingBytes rest).
      by apply IH.
Qed.

(** X2. Whatever way the kernel cuts the incoming data into chunks, and
    whether or not the socket runs dry in between, [recvAll] takes bytes
    from the socket in order and never more than [len] of them; it returns
    true exactly when it has stored [len] bytes; and as long as the peer
    keeps sending it does on the chunked socket what the request loop is
    modelled to do on the byte stream: it succeeds with the next [len]
    bytes when the peer sends that many, and fails otherwise. *)
Theorem recvAll_reads_exactly_len (len : nat) (sock : list SockEvent) :
  pendingBytes sock = (recvAllChunks len sock).1.2 ++ pendingBytes (recvAllChunks len sock).2
  /\ (length (recvAllChunks len sock).1.2 <= len)%nat
  /\ ((recvAllChunks len sock).1.1 = true <-> length (recvAllChunks len sock).1.2 = len)
  /\ (healthy sock ->
      recvAll len (pendingBytes sock)
      = if (recvAllChunks len sock).1.1
        then Some ((recvAllChunks len sock).1.2, pendingBytes (recvAllChunks len sock).2)
        else None).
Proof.
  destruct (recvAllChunks_spec sock len) as (H1 & H2 & H3).
  repeat split; try done; try apply H3.
  intros Hh. pose proof (recvAllChunks_healthy sock len Hh) as H4.
  unfold recvAll. destruct ((recvAllChunks len sock).1.1) eqn:Hok.
  - rewrite decide_True by (by apply H4).
    assert (length (recvAllChunks len sock).1.2 = len) as Hl by (by apply H3).
    f_equal. f_equal.
    + rewrite H1, take_app_le by lia. by rewrite take_ge by lia.
    + rewrite H1 at 1. rewrite drop_app_ge by lia.
      replace (len - length (recvAllChunks len sock).1.2)%nat with 0%nat by lia. done.
  - rewrite decide_False; [done|]. intros Hle. apply H4 in Hle. congruence.
Qed.

Lemma sendAll_spec (sock : list SendEvent) : forall (data : list Z),
  (sendAll data sock).1.2 `prefix_of` data
  /\ ((sendAll data sock).1.1 = true <-> (sendAll data sock).1.2 = data)
  /\ (Forall (fun e => exists n, e = Accepts (S n)) sock ->
      (length data <= length sock)%nat -> (sendAll data sock).1.1 = true).
Proof.
  induction sock as [|e rest IH]; intros data.
  - destruct data as [|d data']; cbn.
    + split; [by exists []|]. split; done.
    + split; [by exists (d :: data')|]. split; [done|]. intros _ Hl. lia.
  - destruct data as [|d data'].
    { cbn. split; [by exists []|]. split; done. }
    set (data := d :: data').
    destruct e as [n|].
    + destruct n as [|n'].
      { cbn. split; [by exists data|]. split; [done|].
        intros Hall. apply Forall_cons in Hall as [[n Hn] _]. done. }
      set (n := S n').
      change (sendAll data (Accepts n :: rest))
        with (let '(ok, sent, sock') := sendAll (drop n data) rest in
              (ok, take n data ++ sent, sock')).
      specialize (IH (drop n data)).
      destruct (sendAll (drop n data) rest) as [[ok sent] sock'].
      cbn [fst snd] in *. destruct IH as (IH1 & IH2 & IH3).
      split; [|split; [split|]].
      * destruct IH1 as [k Hk]. exists k.
        rewrite <- (take_drop n data) at 1. rewrite Hk. by rewrite app_assoc.
      * intros Hok. apply IH2 in Hok. subst sent. apply take_drop.
      * intros Heq. apply IH2.
        rewrite <- (take_drop n data) in Heq at 2. by apply app_inv_head in Heq.
      * intros Hall Hlen. apply Forall_cons in Hall as [_ Hall].
        apply IH3; [done|]. rewrite length_drop. subst data n. cbn in *. lia.
    + cbn. split; [by exists data|]. split; [done|].
      intros Hall. apply Forall_cons in Hall as [[n Hn] _]. done.
Qed.

(** X3. Whatever number of bytes each [send] accepts, [sendAll] puts the
    bytes of the packet on the wire in order, without repeating or skipping
    any; it returns true exactly when the whole packet went out (a failed
    [sendAll] leaves a proper prefix of the packet on the wire); and it does
    return true when every [send] accepts at least one byte. *)
Theorem sendAll_sends_in_order (data : list Z) (sock : list SendEvent) :
  (sendAll data sock).1.2 `prefix_of` data
  /\ ((sendAll data sock).1.1 = true <-> (sendAll data sock).1.2 = data)
  /\ (Forall (fun e => exists n, e = Accepts (S n)) sock ->
      (length data <= length sock)%nat -> (sendAll data sock).1.1 = true).
Proof. apply sendAll_spec. Qed.

(** ** The handshake *)

Lemma authPadded_exact (n : Z) :
  0 <= n <= 65532 -> authPadded n = n + (4 - n mod 4) mod 4 /\ authPadded n mod 4 = 0.
Proof.
  intros Hn. unfold authPadded, u16.
  pose proof (Z.mod_pos_bound n 4 ltac:(lia)) as Hm.
  pose proof (Z.mod_pos_bound (4 - n mod 4) 4 ltac:(lia)) as Hm'.
  assert ((n + (4 - n mod 4) mod 4) mod 4 = 0) as H4.
  { rewrite Z.add_mod_idemp_r by lia.
    replace (n + (4 - n mod 4)) with (n - n mod 4 + 1 * 4) by lia.
    rewrite Z.mod_add by lia. rewrite Zminus_mod_idemp_r. by rewrite Z.sub_diag. }
  assert (n + (4 - n mod 4) mod 4 <= 65532) as Hle.
  { destruct (Z.eq_dec ((4 - n mod 4) mod 4) 0) as [->|Hne]; [lia|].
    assert (n + (4 - n mod 4) mod 4 < 65536) as Hlt by lia.
    pose proof (Z.div_mod (n + (4 - n mod 4) mod 4) 4 ltac:(lia)) as Hd.
    rewrite H4 in Hd. lia. }
  rewrite Z.mod_small by lia. done.
Qed.

(** X4. A client opens with its 12-byte connection request, then the
    authorization name and the authorization data, each padded to a multiple
    of four bytes, then its first request.  When both strings are at most
    65532 bytes long (above that the padded length no longer fits the 16-bit
    variable of the source), the handshake consumes exactly these bytes, so
    that the request loop starts reading at the client's first request; it
    takes the byte order from the first byte of the connection request and
    answers with the setup reply in that order. *)
Theorem handshake_consumes_setup_prefix
    (req name namePad data dataPad rest body0 : list Z) (s : Impl) :
  length req = 12%nat ->
  read16 (negotiateByteOrder req) req 6 = Z.of_nat (length name) ->
  read16 (negotiateByteOrder req) req 8 = Z.of_nat (length data) ->
  Z.of_nat (length name) <= 65532 ->
  Z.of_nat (length data) <= 65532 ->
  Z.of_nat (length namePad) = (4 - Z.of_nat (length name) mod 4) mod 4 ->
  Z.of_nat (length dataPad) = (4 - Z.of_nat (length data) mod 4) mod 4 ->
  handshake body0 (req ++ name ++ namePad ++ data ++ dataPad ++ rest) s
  = Some (setMsbFirst (negotiateByteOrder req) s, rest,
          [handshakeReply req (width (surf s)) (height (surf s)) body0]).
Proof.
  intros Hreq Hn Hd Hnl Hdl Hnp Hdp. unfold handshake.
  rewrite recvAll_app by done.
  rewrite Hn, Hd.
  destruct (authPadded_exact (Z.of_nat (length name)) ltac:(lia)) as [En _].
  destruct (authPadded_exact (Z.of_nat (length data)) ltac:(lia)) as [Ed _].
  rewrite En, Ed, <- Hnp, <- Hdp.
  unfold recvIgnoringResult. cbn [snd].
  assert (forall (a b c : list Z),
            (if decide (Z.of_nat (length a) + Z.of_nat (length b) > 0)
             then drop (Z.to_nat (Z.of_nat (length a) + Z.of_nat (length b))) (a ++ b ++ c)
             else a ++ b ++ c) = c) as Hskip.
  { intros a b c. case_decide as Hpos.
    - rewrite app_assoc. rewrite drop_app_length'; [done|].
      rewrite length_app. lia.
    - destruct a; [|cbn in Hpos; lia]. destruct b; [|cbn in Hpos; lia]. done. }
  rewrite Hskip. rewrite Hskip. done.
Qed.

Lemma handshake_consumes_setup_prefix_witness :
  handshake (repeat 0 120)
            ([0x6c; 0; 11; 0; 0; 0; 2; 0; 5; 0; 0; 0] ++ [77; 73] ++ [0; 0]
             ++ [1; 2; 3; 4; 5] ++ [0; 0; 0] ++ [14; 0; 2; 0])
            (initialImpl 64 48 true)
  = Some (setMsbFirst false (initialImpl 64 48 true), [14; 0; 2; 0],
          [handshakeReply [0x6c; 0; 11; 0; 0; 0; 2; 0; 5; 0; 0; 0] 64 48 (repeat 0 120)]).
Proof.
  apply (handshake_consumes_setup_prefix
           [0x6c; 0; 11; 0; 0; 0; 2; 0; 5; 0; 0; 0] [77; 73] [0; 0]
           [1; 2; 3; 4; 5] [0; 0; 0] [14; 0; 2; 0] (repeat 0 120) (initialImpl 64 48 true));
    try reflexivity; cbn; lia.
Defined.

(** ** [swapRB_neon] *)

Lemma swapRB_testbit p n :
  0 <= n ->
  Z.testbit (swapRB p) n
  = if decide (n < 8) then Z.testbit p (n + 16)
    else if decide (n < 16) then Z.testbit p n
    else if decide (n < 24) then Z.testbit p (n - 16)
    else if decide (n < 32) then Z.testbit p n
    else false.
Proof.
  intros Hn. unfold swapRB.
  change 0xFF00FF00 with (Z.lor (Z.shiftl (Z.ones 8) 8) (Z.shiftl (Z.ones 8) 24)).
  change 0xFF with (Z.ones 8).
  repeat case_decide; bits_close.
Qed.

Lemma load32_bytes_testbit a b c d n :
  0 <= n ->
  Z.testbit (load32 [u8 a; u8 b; u8 c; u8 d] 0) n
  = if decide (n < 8) then Z.testbit a n
    else if decide (n < 16) then Z.testbit b (n - 8)
    else if decide (n < 24) then Z.testbit c (n - 16)
    else if decide (n < 32) then Z.testbit d (n - 24)
    else false.
Proof.
  intros Hn. unfold load32, byteAt. cbn [lookup list_lookup default from_option id Nat.add].
  bits_words. repeat case_decide; bits_close.
Qed.

Lemma swapRB_as_bytes p :
  swapRB p = load32 [u8 (Z.shiftr p 16); u8 (Z.shiftr p 8); u8 p; u8 (Z.shiftr p 24)] 0.
Proof.
  apply Z.bits_inj'. intros n Hn.
  rewrite swapRB_testbit, load32_bytes_testbit by lia.
  repeat case_decide; bits_close.
Qed.

Lemma swapRB_neon_scalar_aux (k : nat) : forall (src : list Z),
  (length src <= k)%nat -> swapRB_neon src = swapRB <$> src.
Proof.
  induction k as [|k IH]; intros src Hlen.
  - destruct src; [done|cbn in Hlen; lia].
  - destruct src as [|p0 [|p1 [|p2 [|p3 rest]]]]; try done.
    cbn [swapRB_neon]. rewrite IH by (cbn in Hlen; lia).
    cbn [fmap list_fmap app]. f_equal; [|f_equal; [|f_equal; [|f_equal]]].
    all: rewrite swapRB_as_bytes; reflexivity.
Qed.

(** X5. The two branches of [swapRB_neon] compute the same pixels: the
    NEON branch, which permutes the bytes of four pixels at a time through
    its index table and finishes with the scalar formula, returns for every
    pixel array what the portable branch returns.  On every pixel the result
    has the first and the third byte exchanged and the other two kept, and
    swapping twice gives the pixel back (in 32 bits). *)
Theorem swapRB_neon_agrees_with_scalar (src : list Z) (p : Z) :
  swapRB_neon src = swapRB_scalar src
  /\ store32 (swapRB p)
     = [ u8 (Z.shiftr p 16); u8 (Z.shiftr p 8); u8 p; u8 (Z.shiftr p 24) ]
  /\ swapRB (swapRB p) = u32 p.
Proof.
  repeat split.
  - by apply (swapRB_neon_scalar_aux (length src)).
  - unfold store32. f_equal; [|f_equal; [|f_equal; [|f_equal]]].
    all: apply Z.bits_inj'; intros n Hn; bits_words;
      destruct (Z_lt_le_dec n 8); repeat bits_step;
      rewrite ?swapRB_testbit by lia; repeat case_decide; bits_close.
  - apply Z.bits_inj'. intros n Hn.
    rewrite swapRB_testbit by lia.
    repeat case_decide; rewrite ?swapRB_testbit by lia; repeat case_decide;
      bits_words; bits_close.
Qed.

(** ** Packets *)

Lemma join16_be_any v :
  u16 (Z.lor (Z.shiftl (u8 (Z.shiftr v 8)) 8) (u8 v)) = u16 v.
Proof.
  rewrite <- (u8_shiftr_u16 v 8), <- (u8_u16 v) by lia. apply join16_be, u16_range.
Qed.

Lemma join16_le_any v :
  u16 (Z.lor (u8 v) (Z.shiftl (u8 (Z.shiftr v 8)) 8)) = u16 v.
Proof.
  rewrite <- (u8_shiftr_u16 v 8), <- (u8_u16 v) by lia. apply join16_le, u16_range.
Qed.

Lemma join32_be_any v :
  u32 (Z.lor (Z.lor (Z.lor (Z.shiftl (u8 (Z.shiftr v 24)) 24)
                           (Z.shiftl (u8 (Z.shiftr v 16)) 16))
                    (Z.shiftl (u8 (Z.shiftr v 8)) 8))
             (u8 v)) = u32 v.
Proof.
  rewrite <- (u8_shiftr_u32 v 24), <- (u8_shiftr_u32 v 16),
          <- (u8_shiftr_u32 v 8), <- (u8_u32 v) by lia.
  apply join32_be, u32_range.
Qed.

Lemma join32_le_any v :
  u32 (Z.lor (Z.lor (Z.lor (u8 v) (Z.shiftl (u8 (Z.shiftr v 8)) 8))
                    (Z.shiftl (u8 (Z.shiftr v 16)) 16))
             (Z.shiftl (u8 (Z.shiftr v 24)) 24)) = u32 v.
Proof.
  rewrite <- (u8_shiftr_u32 v 24), <- (u8_shiftr_u32 v 16),
          <- (u8_shiftr_u32 v 8), <- (u8_u32 v) by lia.
  apply join32_le, u32_range.
Qed.

Lemma u16_u16 v : u16 (u16 v) = u16 v.
Proof. unfold u16. by rewrite Z.mod_mod by lia. Qed.

Lemma u32_small v : 0 <= v < 4294967296 -> u32 v = v.
Proof. intros Hv. unfold u32. by apply Z.mod_small. Qed.

Lemma u16_small v : 0 <= v < 65536 -> u16 v = v.
Proof. intros Hv. unfold u16. by apply Z.mod_small. Qed.

Lemma length_memset0 (n : nat) : forall (p : list Z) (start : nat),
  length (memset0 p start n) = length p.
Proof.
  induction n as [|n IH]; intros p start; cbn; [done|].
  by rewrite IH, length_insert.
Qed.

Lemma runBufStep_length msb (st : list Z * nat) (step : BufStep) :
  length (runBufStep msb st step).1 = length st.1.
Proof.
  destruct st as [body off]. destruct step; cbn [runBufStep fst].
  - by rewrite length_insert.
  - by rewrite length_insert.
  - apply length_write16.
  - apply length_write32.
  - apply length_memset0.
  - done.
Qed.

Lemma length_buildPacket msb (n : nat) (steps : list BufStep) :
  length (buildPacket msb n steps) = n.
Proof.
  unfold buildPacket.
  assert (forall st, length (foldl (runBufStep msb) st steps).1 = length st.1) as H.
  { induction steps as [|step steps IH]; intros st; cbn [foldl]; [done|].
    by rewrite IH, runBufStep_length. }
  rewrite H. cbn. apply repeat_length.
Qed.

(** *** Events *)

Lemma exposeEvent_ok msb evtSeq wid w h : eventOK msb evtSeq (exposeEvent msb evtSeq wid w h).
Proof.
  unfold eventOK, exposeEvent. split; [|split].
  - by destruct msb.
  - destruct msb; packet_compute; [apply join16_be_any|apply join16_le_any].
  - apply length_buildPacket.
Qed.

Lemma configureNotifyEvent_ok msb evtSeq wid w h :
  eventOK msb evtSeq (configureNotifyEvent msb evtSeq wid w h).
Proof.
  unfold eventOK, configureNotifyEvent. split; [|split].
  - by destruct msb.
  - destruct msb; packet_compute; [apply join16_be_any|apply join16_le_any].
  - apply length_buildPacket.
Qed.

(** *** Replies *)

Lemma genericReply_ok msb seq : replyOK msb seq (genericReply msb seq).
Proof.
  unfold replyOK, genericReply. split; [|split].
  - by destruct msb.
  - destruct msb; packet_compute; [apply join16_be_any|apply join16_le_any].
  - rewrite length_buildPacket. by destruct msb.
Qed.

Lemma replyGetGeometry_ok msb seq root x y w h :
  replyOK msb seq (replyGetGeometry msb seq root x y w h).
Proof.
  unfold replyOK, replyGetGeometry. split; [|split].
  - by destruct msb.
  - destruct msb; packet_compute; [apply join16_be_any|apply join16_le_any].
  - rewrite length_buildPacket. by destruct msb.
Qed.

Lemma replyInternAtom_ok msb seq atomId : replyOK msb seq (replyInternAtom msb seq atomId).
Proof.
  unfold replyOK, replyInternAtom. split; [|split].
  - by destruct msb.
  - destruct msb; packet_compute; [apply join16_be_any|apply join16_le_any].
  - rewrite length_buildPacket. by destruct msb.
Qed.

Lemma replyGetWindowAttributes_ok msb seq isUnmapped :
  replyOK msb seq (replyGetWindowAttributes msb seq isUnmapped).
Proof.
  unfold replyOK, replyGetWindowAttributes. split; [|split].
  - by destruct msb.
  - destruct msb; packet_compute; [apply join16_be_any|apply join16_le_any].
  - rewrite length_buildPacket. by destruct msb.
Qed.

Lemma replyQueryExtension_ok msb seq isGLX :
  replyOK msb seq (replyQueryExtension msb seq isGLX).
Proof.
  unfold replyOK, replyQueryExtension. split; [|split].
  - by destruct msb, isGLX.
  - destruct msb, isGLX; packet_compute; first [apply join16_be_any|apply join16_le_any].
  - rewrite length_buildPacket. by destruct msb, isGLX.
Qed.

Lemma replyListExtensions_ok msb seq : replyOK msb seq (replyListExtensions msb seq).
Proof.
  unfold replyOK. split; [|split].
  - by destruct msb.
  - destruct msb; packet_compute; [apply join16_be_any|apply join16_le_any].
  - by destruct msb.
Qed.

Lemma replyTranslateCoordinates_ok msb seq dstX dstY :
  replyOK msb seq (replyTranslateCoordinates msb seq dstX dstY).
Proof.
  unfold replyOK, replyTranslateCoordinates. split; [|split].
  - by destruct msb.
  - destruct msb; packet_compute; [apply join16_be_any|apply join16_le_any].
  - rewrite length_buildPacket. by destruct msb.
Qed.

Lemma replyQueryPointer_ok msb seq ptr : replyOK msb seq (replyQueryPointer msb seq ptr).
Proof.
  unfold replyOK, replyQueryPointer. split; [|split].
  - by destruct msb.
  - destruct msb; packet_compute; [apply join16_be_any|apply join16_le_any].
  - rewrite length_buildPacket. by destruct msb.
Qed.

Lemma glxReply_ok msb seq glxMinor reply :
  glxReply msb seq glxMinor = Some reply -> replyOK msb seq reply.
Proof.
  unfold glxReply. intros H.
  repeat case_decide; simplify_eq; unfold replyOK.
  all: split; [by destruct msb|split];
    [destruct msb; packet_compute; first [apply join16_be_any|apply join16_le_any]
    |by destruct msb].
Qed.

(** *** GetImage replies *)

Lemma length_store32 v : length (store32 v) = 4%nat.
Proof. done. Qed.

Lemma length_pixelBytes (img : list Z) : length (pixelBytes img) = (4 * length img)%nat.
Proof.
  unfold pixelBytes. induction img as [|p img IH]; [done|].
  cbn [flat_map]. rewrite length_app, IH. cbn. lia.
Qed.

Lemma length_pixelRun src start gw : length (pixelRun src start gw) = Z.to_nat gw.
Proof. unfold pixelRun. by rewrite length_fmap, length_seqZ. Qed.

Lemma length_flat_map_const {A B : Type} (f : A -> list B) (l : list A) (k : nat) :
  (forall a, a ∈ l -> length (f a) = k) -> length (flat_map f l) = (length l * k)%nat.
Proof.
  induction l as [|a l IH]; intros Hf; [done|].
  cbn [flat_map]. rewrite length_app, IH, Hf.
  - cbn. lia.
  - left.
  - intros b Hb. apply Hf. by right.
Qed.

Lemma length_copyInto (p : list Z) (off : nat) (src : list Z) :
  (off + length src <= length p)%nat -> length (copyInto p off src) = length p.
Proof.
  intros Hfit. unfold copyInto. rewrite !length_app, length_take, length_drop. lia.
Qed.

Lemma length_getFast src srcW gx gy gw gh :
  0 <= gw -> 0 <= gh -> length (getFast src srcW gx gy gw gh) = Z.to_nat (gw * gh * 4).
Proof.
  intros Hw Hh. unfold getFast. rewrite length_pixelBytes.
  rewrite (length_flat_map_const _ _ (Z.to_nat gw)).
  - rewrite length_seqZ. nia.
  - intros row _. apply length_pixelRun.
Qed.

Lemma length_getPartial useShadow src srcW srcH gx gy gw gh :
  0 <= gw -> 0 <= gh ->
  length (getPartial useShadow src srcW srcH gx gy gw gh) = Z.to_nat (gw * gh * 4).
Proof.
  intros Hw Hh. unfold getPartial. rewrite length_pixelBytes.
  enough (length (if decide (Z.max 0 (- gy) < Z.min gh (srcH - gy)
                             /\ Z.max 0 (- gx) < Z.min gw (srcW - gx))
                  then forRange (Z.min gh (srcH - gy) - Z.max 0 (- gy))
                         (fun i img =>
                            copyInto img
                              (Z.to_nat ((Z.max 0 (- gy) + i) * gw + Z.max 0 (- gx)))
                              (if useShadow
                               then pixelRun src
                                      ((gy + (Z.max 0 (- gy) + i)) * srcW
                                       + (gx + Z.max 0 (- gx)))
                                      (Z.min gw (srcW - gx) - Z.max 0 (- gx))
                               else swapRB <$>
                                    pixelRun src
                                      ((gy + (Z.max 0 (- gy) + i)) * srcW
                                       + (gx + Z.max 0 (- gx)))
                                      (Z.min gw (srcW - gx) - Z.max 0 (- gx))))
                         (repeat 0 (Z.to_nat (gw * gh)))
                  else repeat 0 (Z.to_nat (gw * gh)))
          = Z.to_nat (gw * gh)) as Hl.
  { cbv zeta. rewrite Hl. nia. }
  case_decide as Hc; [|apply repeat_length].
  set (P := fun (_ : Z) (img : list Z) => length img = Z.to_nat (gw * gh)).
  apply (forRange_ind P); subst P; cbn beta; [lia|apply repeat_length|].
  intros i img Hi Hlen.
  rewrite length_copyInto; [done|].
  assert (length (if useShadow
                  then pixelRun src
                         ((gy + (Z.max 0 (- gy) + i)) * srcW + (gx + Z.max 0 (- gx)))
                         (Z.min gw (srcW - gx) - Z.max 0 (- gx))
                  else swapRB <$>
                       pixelRun src
                         ((gy + (Z.max 0 (- gy) + i)) * srcW + (gx + Z.max 0 (- gx)))
                         (Z.min gw (srcW - gx) - Z.max 0 (- gx)))
          = Z.to_nat (Z.min gw (srcW - gx) - Z.max 0 (- gx))) as ->.
  { destruct useShadow; rewrite ?length_fmap; apply length_pixelRun. }
  rewrite Hlen. nia.
Qed.

Lemma length_getSlowMsb src srcW srcH gx gy gw gh :
  0 <= gw -> 0 <= gh ->
  length (getSlowMsb src srcW srcH gx gy gw gh) = Z.to_nat (gw * gh * 4).
Proof.
  intros Hw Hh. unfold getSlowMsb.
  set (P := fun (_ : Z) (dst : list Z) => length dst = Z.to_nat (gw * gh * 4)).
  apply (forRange_ind P); subst P; cbn beta; [lia|apply repeat_length|].
  intros row dst Hrow Hlen.
  set (P := fun (_ : Z) (d : list Z) => length d = Z.to_nat (gw * gh * 4)).
  apply (forRange_ind P); subst P; cbn beta; [lia|done|].
  intros col d Hcol Hl. case_decide; [|done]. by rewrite !length_insert.
Qed.

Lemma length_getImageData r s :
  0 <= gi_w r -> 0 <= gi_h r ->
  length (getImageData r s) = Z.to_nat (gi_w r * gi_h r * 4).
Proof.
  intros Hw Hh. unfold getImageData.
  repeat case_match; simplify_eq;
    try apply repeat_length;
    try (by apply length_getFast);
    try (by apply length_getPartial);
    try (by apply length_getSlowMsb).
  all: unfold getFastSwap; rewrite length_pixelBytes,
         (length_flat_map_const _ _ (Z.to_nat (gi_w r)));
         [rewrite length_seqZ; nia
         |intros row _; rewrite length_fmap; apply length_pixelRun].
Qed.

Lemma read16_range msb p off : 0 <= read16 msb p off < 65536.
Proof. unfold read16. destruct msb; apply u16_range. Qed.

Lemma read32_range msb p off : 0 <= read32 msb p off < 4294967296.
Proof. unfold read32. destruct msb; apply u32_range. Qed.

Lemma read16_app_l msb (p q : list Z) (off : nat) :
  (off + 2 <= length p)%nat -> read16 msb (p ++ q) off = read16 msb p off.
Proof. intros H. unfold read16, byteAt. by rewrite !lookup_app_l by lia. Qed.

Lemma read32_app_l msb (p q : list Z) (off : nat) :
  (off + 4 <= length p)%nat -> read32 msb (p ++ q) off = read32 msb p off.
Proof. intros H. unfold read32, byteAt. by rewrite !lookup_app_l by lia. Qed.

Lemma byteAt_app_l (p q : list Z) (i : nat) :
  (i < length p)%nat -> byteAt (p ++ q) i = byteAt p i.
Proof. intros H. unfold byteAt. by rewrite lookup_app_l by lia. Qed.

Lemma replyGetImageHeader_fields msb seq imgWords :
  byteAt (replyGetImageHeader msb seq imgWords) 0 = 1
  /\ read16 msb (replyGetImageHeader msb seq imgWords) 2 = u16 seq
  /\ read32 msb (replyGetImageHeader msb seq imgWords) 4 = u32 imgWords
  /\ length (replyGetImageHeader msb seq imgWords) = 32%nat.
Proof.
  unfold replyGetImageHeader. split; [|split; [|split]].
  - by destruct msb.
  - destruct msb; packet_compute; [apply join16_be_any|apply join16_le_any].
  - destruct msb; packet_compute;
      [rewrite join32_be_any|rewrite join32_le_any]; unfold u32; by rewrite Z.mod_mod by lia.
  - apply length_buildPacket.
Qed.

Lemma getImage_reply_ok seq r s :
  0 <= gi_w r < 65536 -> 0 <= gi_h r < 65536 ->
  replyOK (msbFirst_ s) seq
    (replyGetImageHeader (msbFirst_ s) seq ((gi_w r * gi_h r * 4 + 3) / 4)
     ++ getImageData r s).
Proof.
  intros Hw Hh.
  destruct (replyGetImageHeader_fields (msbFirst_ s) seq ((gi_w r * gi_h r * 4 + 3) / 4))
    as (H0 & H2 & H4 & Hl).
  set (hdr := replyGetImageHeader (msbFirst_ s) seq ((gi_w r * gi_h r * 4 + 3) / 4)) in *.
  unfold replyOK. split; [|split].
  - rewrite byteAt_app_l by lia. done.
  - rewrite read16_app_l by lia. done.
  - rewrite read32_app_l by lia. rewrite H4, getImage_words.
    rewrite u32_small by nia.
    rewrite length_app, Hl, length_getImageData by lia. nia.
Qed.

(** *** GetAtomName replies *)

Lemma replyGetAtomName_ok msb seq (name : list Z) :
  (length name <= 256)%nat -> replyOK msb seq (replyGetAtomName msb seq name).
Proof.
  intros Hlen. unfold replyGetAtomName.
  rewrite (u16_small (Z.of_nat (length name))) by lia.
  set (L := Z.of_nat (length name)).
  set (pad := (4 - L mod 4) mod 4).
  assert (0 <= pad < 4) as Hpad by (apply Z.mod_pos_bound; lia).
  assert ((L + pad) mod 4 = 0) as Hmod.
  { subst pad. rewrite Z.add_mod_idemp_r by lia.
    replace (L + (4 - L mod 4)) with (L - L mod 4 + 1 * 4) by lia.
    rewrite Z.mod_add by lia. rewrite Zminus_mod_idemp_r. by rewrite Z.sub_diag. }
  assert (4 * ((L + pad) / 4) = L + pad) as Hdiv.
  { pose proof (Z.div_mod (L + pad) 4 ltac:(lia)). lia. }
  replace (Z.to_nat (32 + L + pad)) with (32 + Z.to_nat (L + pad))%nat by lia.
  rewrite buildPacket_atomName_reply.
  set (hdr := buildPacket msb 32 [PutAt 0 1; W16 2 seq; W32 4 ((L + pad) / 4); W16 8 L]).
  assert (length hdr = 32%nat) as Hhl by apply length_buildPacket.
  assert (byteAt hdr 0 = 1) as Hb0 by (by destruct msb).
  assert (read16 msb hdr 2 = u16 seq) as Hs.
  { subst hdr. destruct msb; packet_compute; [apply join16_be_any|apply join16_le_any]. }
  assert (read32 msb hdr 4 = (L + pad) / 4) as Hf.
  { subst hdr. destruct msb; packet_compute;
      [rewrite join32_be_any|rewrite join32_le_any]; apply u32_small; lia. }
  assert (forall body : list Z,
            length body = (32 + Z.to_nat (L + pad))%nat ->
            take 32 body = hdr ->
            replyOK msb seq body) as Hok.
  { intros body Hbl Hbh. unfold replyOK.
    rewrite <- (take_drop 32 body), Hbh.
    rewrite byteAt_app_l, read16_app_l, read32_app_l by lia.
    rewrite Hb0, Hs, Hf. repeat split.
    rewrite length_app, length_drop, Hbl, Hhl. lia. }
  case_decide as Hpos.
  - apply Hok.
    + rewrite length_copyInto; [by rewrite length_app, Hhl, repeat_length|].
      rewrite length_take, length_app, Hhl, repeat_length. lia.
    + unfold copyInto. rewrite (take_app_length' hdr) by done.
      by rewrite (take_app_length' hdr) by done.
  - apply Hok.
    + by rewrite length_app, Hhl, repeat_length.
    + by rewrite take_app_length' by done.
Qed.

(** *** Handlers *)

Lemma sendReply_ok (s s0 : Impl) (seq : Z) (reply : list Z) :
  msbFirst_ s0 = msbFirst_ s ->
  atomNamesShort (atoms s0) ->
  replyOK (msbFirst_ s) seq reply ->
  handlerOK s seq (sendReply reply seq s0).
Proof.
  intros Hm Ha Hr. unfold handlerOK, sendReply. cbn [fst snd]. split; [|split].
  - left. exists reply. done.
  - done.
  - done.
Qed.

Lemma events_ok (s s' : Impl) (seq : Z) (out : Packets) :
  msbFirst_ s' = msbFirst_ s ->
  lastReplySeq_ s' = lastReplySeq_ s ->
  atomNamesShort (atoms s') ->
  Forall (eventOK (msbFirst_ s) (lastReplySeq_ s)) out ->
  handlerOK s seq (s', out).
Proof.
  intros Hm Hl Ha Hout. unfold handlerOK. cbn [fst snd]. split; [|done].
  right. done.
Qed.

Lemma createWindow_ok r s seq :
  atomNamesShort (atoms s) -> handlerOK s seq (createWindow r s).
Proof.
  intros Ha. unfold createWindow. apply events_ok; try done.
  apply Forall_singleton, exposeEvent_ok.
Qed.

Lemma mapWindow_ok wid s seq :
  atomNamesShort (atoms s) -> handlerOK s seq (mapWindow wid s).
Proof.
  intros Ha. unfold mapWindow.
  destruct (match windowSizes (wins s) !! wid with
            | Some sz => sz
            | None => (width (surf s), height (surf s))
            end) as [expW expH].
  apply events_ok; try done. apply Forall_singleton, exposeEvent_ok.
Qed.

Lemma unmapWindow_ok umWid s seq :
  atomNamesShort (atoms s) -> handlerOK s seq (unmapWindow umWid s).
Proof.
  intros Ha. unfold unmapWindow. apply events_ok; try done.
  repeat case_match; try apply Forall_nil_2; apply Forall_singleton, exposeEvent_ok.
Qed.

Lemma destroyWindow_ok window s seq :
  atomNamesShort (atoms s) -> handlerOK s seq (destroyWindow window s).
Proof. intros Ha. unfold destroyWindow. apply events_ok; try done. Qed.

Lemma configureWindow_ok r s seq :
  atomNamesShort (atoms s) -> handlerOK s seq (configureWindow r s).
Proof.
  intros Ha. rewrite configureWindow_unfold. apply events_ok; try done.
  apply Forall_app. split.
  - case_match; [|apply Forall_nil_2].
    apply Forall_cons. split; [apply configureNotifyEvent_ok|].
    apply Forall_singleton, exposeEvent_ok.
  - destruct (exposeTopInfo (wins s) (configurePos r (windowPositions (wins s))).2)
      as [[topWid topW] topH].
    case_match; [|apply Forall_nil_2]. apply Forall_singleton, exposeEvent_ok.
Qed.

Lemma getGeometry_ok scaleToInt seq drawable s :
  atomNamesShort (atoms s) -> handlerOK s seq (getGeometry scaleToInt seq drawable s).
Proof.
  intros Ha. unfold getGeometry.
  destruct (geometrySize scaleToInt drawable s) as [gw gh].
  destruct (geometryPos drawable s) as [gx gy].
  apply sendReply_ok; try done. apply replyGetGeometry_ok.
Qed.

Lemma handleInternAtom_ok seq buf s :
  atomNamesShort (atoms s) -> handlerOK s seq (handleInternAtom seq buf s).
Proof.
  intros Ha. rewrite handleInternAtom_unfold.
  change (handlerOK s seq
            (sendReply (replyInternAtom (msbFirst_ s) seq
                          (internAtom (byteAt buf 1) (internAtomName (msbFirst_ s) buf)
                                      (atoms s)).2) seq
               (setAtoms (internAtom (byteAt buf 1) (internAtomName (msbFirst_ s) buf)
                                     (atoms s)).1 s))).
  apply sendReply_ok; [done| |apply replyInternAtom_ok].
  cbn [atoms setAtoms]. unfold internAtom.
  destruct (atomNameToId (atoms s) !! internAtomName (msbFirst_ s) buf); [done|].
  case_decide; [|done]. cbn [fst].
  intros id name Hl. cbn [atomIdToName] in Hl.
  apply lookup_insert_Some in Hl as [[_ <-]|[_ Hl]].
  - apply internAtomName_length.
  - by apply (Ha id).
Qed.

Lemma handleGetAtomName_ok seq buf s :
  atomNamesShort (atoms s) -> handlerOK s seq (handleGetAtomName seq buf s).
Proof.
  intros Ha. unfold handleGetAtomName. apply sendReply_ok; try done.
  apply replyGetAtomName_ok. unfold getAtomName.
  destruct (atomIdToName (atoms s) !! read32 (msbFirst_ s) buf 4) as [name|] eqn:Hl.
  - cbn. by apply (Ha _ _ Hl).
  - cbn. lia.
Qed.

Lemma handleGetImage_ok seq buf s :
  atomNamesShort (atoms s) -> handlerOK s seq (handleGetImage seq buf s).
Proof.
  intros Ha. unfold handleGetImage, getImage. apply sendReply_ok; try done.
  apply getImage_reply_ok; cbn [parseGetImage gi_w gi_h]; apply read16_range.
Qed.

Lemma createPixmap_ok pid pw ph s seq :
  atomNamesShort (atoms s) -> handlerOK s seq (createPixmap pid pw ph s).
Proof. intros Ha. unfold createPixmap. apply events_ok; try done. Qed.

Lemma freePixmap_ok pid s seq :
  atomNamesShort (atoms s) -> handlerOK s seq (freePixmap pid s).
Proof. intros Ha. unfold freePixmap. apply events_ok; try done. Qed.

Lemma handleGetWindowAttributes_ok seq buf s :
  atomNamesShort (atoms s) -> handlerOK s seq (handleGetWindowAttributes seq buf s).
Proof.
  intros Ha. unfold handleGetWindowAttributes, getWindowAttributes.
  apply sendReply_ok; try done. apply replyGetWindowAttributes_ok.
Qed.

Lemma handleQueryExtension_ok seq buf s :
  atomNamesShort (atoms s) -> handlerOK s seq (handleQueryExtension seq buf s).
Proof.
  intros Ha. unfold handleQueryExtension.
  apply sendReply_ok; try done. apply replyQueryExtension_ok.
Qed.

Lemma handleListExtensions_ok seq s :
  atomNamesShort (atoms s) -> handlerOK s seq (handleListExtensions seq s).
Proof.
  intros Ha. unfold handleListExtensions.
  apply sendReply_ok; try done. apply replyListExtensions_ok.
Qed.

Lemma handleTranslateCoordinates_ok seq buf s :
  atomNamesShort (atoms s) -> handlerOK s seq (handleTranslateCoordinates seq buf s).
Proof.
  intros Ha. unfold handleTranslateCoordinates.
  destruct (translateCoordinates _ _ _ _ _) as [dstX dstY].
  apply sendReply_ok; try done. apply replyTranslateCoordinates_ok.
Qed.

Lemma handleGLX_ok seq buf s :
  atomNamesShort (atoms s) -> handlerOK s seq (handleGLX seq buf s).
Proof.
  intros Ha. unfold handleGLX.
  destruct (glxReply (msbFirst_ s) seq (byteAt buf 1)) as [reply|] eqn:Hr.
  - apply sendReply_ok; try done. by apply (glxReply_ok _ _ (byteAt buf 1)).
  - apply events_ok; done.
Qed.

Lemma u8_lor_0x80_ne_1 b : u8 (Z.lor b 0x80) <> 1.
Proof.
  intros H. assert (Z.testbit (u8 (Z.lor b 0x80)) 7 = Z.testbit 1 7) as Hb by (by rewrite H).
  rewrite u8_testbit, Z.lor_spec in Hb by lia.
  change (Z.testbit 0x80 7) with true in Hb. rewrite orb_true_r in Hb.
  cbn in Hb. done.
Qed.

Lemma handleSendEvent_ok seq (buf : list Z) s :
  (44 <= length buf)%nat ->
  atomNamesShort (atoms s) -> handlerOK s seq (handleSendEvent buf s).
Proof.
  intros Hlen Ha. unfold handleSendEvent. apply events_ok; try done.
  apply Forall_singleton.
  assert (length (take 32 (drop 12 buf)) = 32%nat) as Hl.
  { rewrite length_take, length_drop. lia. }
  unfold eventOK. split; [|split].
  - unfold byteAt at 1.
    rewrite list_lookup_insert_eq by (rewrite length_write16; lia).
    cbn [default from_option id]. apply u8_lor_0x80_ne_1.
  - unfold read16, byteAt. rewrite !list_lookup_insert_ne by lia.
    apply (read16_write16 (msbFirst_ s) (take 32 (drop 12 buf)) 2 (lastReplySeq_ s)). lia.
  - by rewrite length_insert, length_write16.
Qed.

Lemma changeWindowAttributes_ok length seq buf stream s :
  atomNamesShort (atoms s) ->
  handlerOK s seq ((changeWindowAttributes length buf stream s).1, []).
Proof.
  intros Ha. unfold changeWindowAttributes.
  repeat case_match; apply events_ok; done.
Qed.

Lemma queryPointer_ok length seq stream ptr s :
  atomNamesShort (atoms s) ->
  handlerOK s seq ((queryPointer length seq stream ptr s).1.1,
                   (queryPointer length seq stream ptr s).2).
Proof.
  intros Ha. unfold queryPointer.
  repeat case_match; simplify_eq; cbn [fst snd];
    first [ by apply events_ok
          | apply (sendReply_ok s s); try done; apply replyQueryPointer_ok ].
Qed.

Lemma copyArea_keeps r s :
  atoms (copyArea r s) = atoms s
  /\ msbFirst_ (copyArea r s) = msbFirst_ s
  /\ lastReplySeq_ (copyArea r s) = lastReplySeq_ s
  /\ wins (copyArea r s) = wins s.
Proof. unfold copyArea. repeat case_match; done. Qed.

Lemma handleCopyArea_ok seq buf s :
  atomNamesShort (atoms s) -> handlerOK s seq (handleCopyArea buf s).
Proof.
  intros Ha. unfold handleCopyArea.
  destruct (copyArea_keeps (parseCopyArea (msbFirst_ s) buf) s) as (H1 & H2 & H3 & _).
  apply events_ok; try done. by rewrite H1.
Qed.

Lemma putImage_keeps r pixels s :
  atoms (putImage r pixels s) = atoms s
  /\ msbFirst_ (putImage r pixels s) = msbFirst_ s
  /\ lastReplySeq_ (putImage r pixels s) = lastReplySeq_ s
  /\ wins (putImage r pixels s) = wins s.
Proof. unfold putImage. repeat case_match; done. Qed.

(** *** The dispatcher *)

Lemma dispatch_ok scaleToInt opcode seq (buf stream : list Z) s :
  atomNamesShort (atoms s) ->
  match dispatch scaleToInt opcode seq buf stream s with
  | Next s' seq' stream' out => seq' = seq /\ handlerOK s seq (s', out)
  | Closed => False
  | NotEmbedded => opcode ∈ notEmbeddedOpcodes
  end.
Proof.
  intros Ha. unfold dispatch.
  repeat case_decide; cbn beta; try (split; [done|]);
    try match goal with |- handlerOK _ _ (?r.1, ?r.2) => rewrite <- (surjective_pairing r) end.
  - by apply createWindow_ok.
  - by apply mapWindow_ok.
  - by apply unmapWindow_ok.
  - destruct (recvAll 4 stream) as [[body stream']|]; (split; [done|]).
    + rewrite <- surjective_pairing. by apply destroyWindow_ok.
    + by apply events_ok.
  - by apply configureWindow_ok.
  - by apply getGeometry_ok.
  - by apply handleInternAtom_ok.
  - by apply handleGetAtomName_ok.
  - by apply handleGetImage_ok.
  - by apply createPixmap_ok.
  - by apply freePixmap_ok.
  - apply sendReply_ok; try done. apply genericReply_ok.
  - done.
  - by apply events_ok.
Qed.

Lemma dispatchRest_ok opcode length seq (buf stream : list Z) ptr s :
  (44 <= List.length buf)%nat ->
  atomNamesShort (atoms s) ->
  opcode ∈ notEmbeddedOpcodes ->
  match dispatchRest opcode length seq buf stream ptr s with
  | Next s' seq' stream' out => seq' = seq /\ handlerOK s seq (s', out)
  | _ => False
  end.
Proof.
  intros Hlen Ha Hop. unfold dispatchRest.
  repeat case_decide; cbn beta; try (split; [done|]);
    try match goal with |- handlerOK _ _ (?r.1, ?r.2) => rewrite <- (surjective_pairing r) end.
  - by apply changeWindowAttributes_ok.
  - by apply handleGetWindowAttributes_ok.
  - by apply handleSendEvent_ok.
  - by apply queryPointer_ok.
  - by apply handleTranslateCoordinates_ok.
  - by apply handleCopyArea_ok.
  - by apply handleQueryExtension_ok.
  - by apply handleListExtensions_ok.
  - by apply handleGLX_ok.
  - unfold notEmbeddedOpcodes in Hop.
    repeat (apply elem_of_cons in Hop as [->|Hop]; [done|]).
    by apply elem_of_nil in Hop.
Qed.

(** *** One request *)

Lemma recvAll_Some n (stream a b : list Z) :
  recvAll n stream = Some (a, b) -> length a = n /\ stream = a ++ b.
Proof.
  unfold recvAll. case_decide as Hn; [|done]. intros [= <- <-].
  rewrite length_take, take_drop. split; [lia|done].
Qed.

Lemma receivePutImage_ok r pixelDataLen stream s seq :
  atomNamesShort (atoms s) ->
  handlerOK s seq ((receivePutImage r pixelDataLen stream s).1, []).
Proof.
  intros Ha. unfold receivePutImage.
  repeat case_match; simplify_eq; cbn [fst]; try (by apply events_ok).
  destruct (putImage_keeps r l s) as (H1 & H2 & H3 & _).
  apply events_ok; try done. by rewrite H1.
Qed.

Lemma serverStep_cases scaleToInt (buf0 : list Z) s seq stream :
  atomNamesShort (atoms s) ->
  match serverStep scaleToInt buf0 s seq stream with
  | Next s' seq' stream' out => seq' = u16 (seq + 1) /\ handlerOK s seq' (s', out)
  | Closed => True
  | NotEmbedded =>
      exists opcode length buf stream',
        readRequest (msbFirst_ s) buf0 stream = Some (opcode, length, buf, stream')
        /\ opcode ∈ notEmbeddedOpcodes
        /\ (List.length buf0 = 256%nat -> (44 <= List.length buf)%nat)
  end.
Proof.
  intros Ha. unfold serverStep, readRequest.
  destruct (recvAll 4 stream) as [[hdr stream1]|] eqn:Hr; [|done].
  apply recvAll_Some in Hr as [Hhl _].
  cbv zeta.
  set (buf := copyInto buf0 0 hdr).
  set (opcode := byteAt buf 0).
  set (length := read16 (msbFirst_ s) buf 2).
  assert (List.length buf0 = 256%nat -> List.length buf = 256%nat) as Hbl.
  { intros H0. subst buf. rewrite length_copyInto; [done|]. lia. }
  case_decide as Hz.
  { destruct (recvAll 4 stream1) as [[ext stream2]|]; [|done].
    split; [done|]. by apply events_ok. }
  case_decide as Hput.
  { destruct (recvAll 20 stream1) as [[body stream2]|]; [|done].
    pose proof (receivePutImage_ok
                  (parsePutImage (msbFirst_ s) (copyInto buf 4 body))
                  (if decide (length >= 6) then length * 4 - 24 else 0)
                  stream2 s (u16 (seq + 1)) Ha) as Hok.
    destruct (receivePutImage _ _ _ _) as [s' stream3]. split; [done|]. exact Hok. }
  match goal with
  | |- context [let '(b, st) := ?e in dispatch _ _ _ b st _] =>
      destruct e as [buf' stream'] eqn:Hb
  end.
  pose proof (dispatch_ok scaleToInt opcode (u16 (seq + 1)) buf' stream' s Ha) as Hd.
  destruct (dispatch scaleToInt opcode (u16 (seq + 1)) buf' stream' s) as [|s' seq' st' out|];
    [done|by destruct Hd as [-> Hd]|].
  exists opcode, length, buf', stream'. split; [done|]. split; [done|].
  intros H0. specialize (Hbl H0).
  revert Hb. case_decide as Hc.
  - unfold recvIgnoringResult. case_decide as Hbig.
    + intros [= <- _]. lia.
    + intros [= <- _]. rewrite length_copyInto; [lia|].
      rewrite length_take. lia.
  - intros [= <- _]. lia.
Qed.

Lemma serverTurn_ok scaleToInt (buf0 : list Z) ptr s seq stream :
  length buf0 = 256%nat ->
  atomNamesShort (atoms s) ->
  match serverTurn scaleToInt buf0 ptr s seq stream with
  | Next s' seq' stream' out => seq' = u16 (seq + 1) /\ handlerOK s seq' (s', out)
  | Closed => True
  | NotEmbedded => False
  end.
Proof.
  intros Hlen Ha. unfold serverTurn.
  pose proof (serverStep_cases scaleToInt buf0 s seq stream Ha) as Hs.
  destruct (serverStep scaleToInt buf0 s seq stream); try done.
  destruct Hs as (opcode & length & buf & stream' & -> & Hop & Hbl).
  pose proof (dispatchRest_ok opcode length (u16 (seq + 1)) buf stream' ptr s
                (Hbl Hlen) Ha Hop) as Hd.
  destruct (dispatchRest _ _ _ _ _ _ _) as [|s' seq' st' out|]; try done.
  by destruct Hd as [-> Hd].
Qed.

Lemma handlerOK_wellFramed s seq s' out :
  handlerOK s seq (s', out) -> Forall (wellFramed (msbFirst_ s)) out.
Proof.
  unfold handlerOK, turnOK. cbn [fst snd].
  intros [[(reply & -> & (H0 & _ & Hl) & _)|[Hev _]] _].
  - apply Forall_singleton. unfold wellFramed. by rewrite decide_True.
  - eapply Forall_impl; [exact Hev|]. intros pkt (H0 & _ & Hl).
    unfold wellFramed. by rewrite decide_False.
Qed.

Lemma serverTurns_wellFramed scaleToInt (turns : list (list Z * Pointer)) :
  Forall (fun turn => length turn.1 = 256%nat) turns ->
  forall s seq stream out,
    atomNamesShort (atoms s) ->
    Forall (wellFramed (msbFirst_ s)) out ->
    Forall (wellFramed (msbFirst_ s))
           (serverTurns scaleToInt turns s seq stream out).2.
Proof.
  induction turns as [|[buf0 ptr] turns IH]; intros Hlen s seq stream out Ha Hout; [done|].
  apply Forall_cons in Hlen as [Hlen0 Hlen]. cbn [fst] in Hlen0.
  cbn [serverTurns].
  pose proof (serverTurn_ok scaleToInt buf0 ptr s seq stream Hlen0 Ha) as Hok.
  destruct (serverTurn scaleToInt buf0 ptr s seq stream) as [|s' seq' stream' out'|];
    [done| |done].
  destruct Hok as [_ Hok].
  pose proof (handlerOK_wellFramed _ _ _ _ Hok) as Hwf.
  destruct Hok as (_ & Ha' & Hm). cbn [fst] in Ha', Hm.
  rewrite <- Hm. apply IH; [done|done|]. rewrite Hm. apply Forall_app. done.
Qed.





(** ** The request loop keeps in step with the request stream *)

Lemma dispatch_stream scaleToInt opcode seq (buf stream : list Z) s :
  opcode ≠ X11Op.DestroyWindow ->
  match dispatch scaleToInt opcode seq buf stream s with
  | Next _ seq' stream' _ => seq' = seq /\ stream' = stream
  | _ => True
  end.
Proof. intros Hop. unfold dispatch. repeat case_decide; done. Qed.

Lemma dispatchRest_stream opcode len seq (buf stream : list Z) ptr s :
  opcode ≠ X11Op.ChangeWindowAttributes -> opcode ≠ X11Op.QueryPointer ->
  match dispatchRest opcode len seq buf stream ptr s with
  | Next _ seq' stream' _ => seq' = seq /\ stream' = stream
  | _ => True
  end.
Proof. intros H2 H38. unfold dispatchRest. repeat case_decide; done. Qed.

Lemma changeWindowAttributes_stream len (buf body rest : list Z) s :
  1 <= len -> Z.of_nat (length body) = (len - 1) * 4 ->
  (changeWindowAttributes len buf (body ++ rest) s).2 = rest.
Proof.
  intros Hlen Hb. unfold changeWindowAttributes, recvIgnoringResult.
  assert (Z.to_nat ((len - 1) * 4) = length body) as Hn by lia.
  repeat case_decide; cbn [snd]; try lia.
  - by rewrite Hn, drop_app_length.
  - assert (body = []) as -> by (apply nil_length_inv; lia). done.
  - by rewrite Hn, drop_app_length.
  - by rewrite Hn, recvAll_app.
Qed.

Lemma queryPointer_stream len seq (body rest : list Z) ptr s :
  1 <= len -> Z.of_nat (length body) = (len - 1) * 4 ->
  (queryPointer len seq (body ++ rest) ptr s).1.2 = rest.
Proof.
  intros Hlen Hb. unfold queryPointer.
  assert (Z.to_nat ((len - 1) * 4) = length body) as Hn by lia.
  repeat case_decide; cbn [fst snd]; try lia.
  all: first [ by rewrite Hn, recvAll_app
             | by (assert (body = []) as -> by (apply nil_length_inv; lia)) ].
Qed.

Lemma receivePutImage_stream r (pixels rest : list Z) s :
  (receivePutImage r (Z.of_nat (length pixels)) (pixels ++ rest) s).2 = rest.
Proof.
  unfold receivePutImage, recvIgnoringResult. rewrite Nat2Z.id.
  repeat case_decide; cbn [snd].
  - by rewrite recvAll_app.
  - by rewrite drop_app_length.
  - assert (pixels = []) as -> by (apply nil_length_inv; lia). done.
Qed.


Lemma readRequest_hdr msb (buf0 hdr tl : list Z) :
  length hdr = 4%nat ->
  readRequest msb buf0 (hdr ++ tl) =
    let buf := copyInto buf0 0 hdr in
    let opcode := byteAt hdr 0 in
    let len := read16 msb hdr 2 in
    let '(buf, stream) :=
      if decide (len > 0 /\ opcode ≠ 2 /\ opcode ≠ 4 /\ opcode ≠ 38) then
        let extra := (len - 1) * 4 in
        let extra := if decide (extra > 65536) then 65536 else extra in
        let '(body, stream) := recvIgnoringResult (Z.to_nat extra) tl in
        if decide (extra > 256 - 4)
        then (buf, stream)
        else (copyInto buf 4 body, stream)
      else (buf, tl) in
    Some (opcode, len, buf, stream).
Proof.
  intros Hl. unfold readRequest. rewrite (recvAll_app hdr tl 4 Hl). cbv zeta.
  destruct (header_in_buf msb buf0 hdr Hl) as [-> ->]. done.
Qed.

Lemma serverStep_hdr scaleToInt msb (buf0 hdr tl : list Z) s seq :
  length hdr = 4%nat -> msb = msbFirst_ s ->
  serverStep scaleToInt buf0 s seq (hdr ++ tl) =
    let buf := copyInto buf0 0 hdr in
    let opcode := byteAt hdr 0 in
    let len := read16 msb hdr 2 in
    if decide (len = 0) then
      match recvAll 4 tl with
      | None => Closed
      | Some (extLenBuf, stream) =>
          let bigLength := read32 msb extLenBuf 0 in
          let stream :=
            if decide (bigLength > 2)
            then drop (Z.to_nat ((bigLength - 2) * 4)) stream
            else stream in
          Next s (u16 (seq + 1)) stream []
      end
    else
      let seq := u16 (seq + 1) in
      if decide (opcode = X11Op.PutImage) then
        match recvAll 20 tl with
        | None => Closed
        | Some (body, stream) =>
            let buf := copyInto buf 4 body in
            let r := parsePutImage msb buf in
            let pixelDataLen := if decide (len >= 6) then len * 4 - 24 else 0 in
            let '(s', stream) := receivePutImage r pixelDataLen stream s in
            Next s' seq stream []
        end
      else
        let '(buf, stream) :=
          if decide (len > 0 /\ opcode ≠ 2 /\ opcode ≠ 4 /\ opcode ≠ 38) then
            let extra := (len - 1) * 4 in
            let extra := if decide (extra > 65536) then 65536 else extra in
            let '(body, stream) := recvIgnoringResult (Z.to_nat extra) tl in
            if decide (extra > 256 - 4)
            then (buf, stream)
            else (copyInto buf 4 body, stream)
          else (buf, tl) in
        dispatch scaleToInt opcode seq buf stream s.
Proof.
  intros Hl ->. unfold serverStep. rewrite (recvAll_app hdr tl 4 Hl). cbv zeta.
  destruct (header_in_buf (msbFirst_ s) buf0 hdr Hl) as [-> ->]. done.
Qed.

Lemma read32_drop msb (p : list Z) (k off : nat) :
  read32 msb (drop k p) off = read32 msb p (k + off).
Proof.
  unfold read32, byteAt. rewrite !lookup_drop.
  by replace (k + off + 1)%nat with (k + (off + 1))%nat by lia;
     replace (k + off + 2)%nat with (k + (off + 2))%nat by lia;
     replace (k + off + 3)%nat with (k + (off + 3))%nat by lia.
Qed.

Lemma read32_take msb (p : list Z) (k off : nat) :
  (off + 4 <= k)%nat -> read32 msb (take k p) off = read32 msb p off.
Proof.
  intros H. unfold read32, byteAt. by rewrite !lookup_take_lt by lia.
Qed.

Lemma dispatch_notEmbedded scaleToInt opcode seq (buf stream : list Z) s :
  opcode ∈ notEmbeddedOpcodes -> dispatch scaleToInt opcode seq buf stream s = NotEmbedded.
Proof.
  intros Hin. unfold notEmbeddedOpcodes in Hin.
  repeat (apply elem_of_cons in Hin as [->|Hin]); try (by apply elem_of_nil in Hin);
    reflexivity.
Qed.

Lemma dispatchRest_total opcode len seq (buf stream : list Z) ptr s :
  opcode ∈ notEmbeddedOpcodes ->
  match dispatchRest opcode len seq buf stream ptr s with
  | Next _ _ _ _ => True
  | _ => False
  end.
Proof.
  intros Hin. unfold notEmbeddedOpcodes in Hin.
  repeat (apply elem_of_cons in Hin as [->|Hin]); try (by apply elem_of_nil in Hin);
    exact I.
Qed.

Lemma serverTurn_in_step scaleToInt (buf0 : list Z) ptr s seq (hdr body rest : list Z) :
  length hdr = 4%nat ->
  Z.of_nat (length (hdr ++ body)) = 4 * requestWords (msbFirst_ s) (hdr ++ body) ->
  followsLength (msbFirst_ s) (hdr ++ body) ->
  exists s' out,
    serverTurn scaleToInt buf0 ptr s seq (hdr ++ body ++ rest)
    = Next s' (u16 (seq + 1)) rest out.
Proof.
  intros Hl Hlen Hf.
  unfold requestWords, followsLength in *. cbv zeta in Hf.
  rewrite byteAt_app_l in Hf by lia.
  rewrite read16_app_l in Hlen, Hf by lia.
  rewrite length_app, Hl in Hlen.
  pose proof (read16_range (msbFirst_ s) hdr 2) as Hr.
  unfold serverTurn.
  rewrite (serverStep_hdr scaleToInt (msbFirst_ s)), readRequest_hdr by done.
  cbv zeta.
  set (opcode := byteAt hdr 0) in *.
  set (len := read16 (msbFirst_ s) hdr 2) in *.
  destruct (decide (len = 0)) as [Hz|Hz].
  { (* BigRequests form *)
    replace (read32 (msbFirst_ s) (hdr ++ body) 4)
      with (read32 (msbFirst_ s) (take 4 body) 0) in *.
    2:{ rewrite read32_take by lia.
        rewrite <- (read32_drop _ (hdr ++ body) 4 0).
        by rewrite drop_app_length' by done. }
    set (big := read32 (msbFirst_ s) (take 4 body) 0) in *.
    replace (body ++ rest) with (take 4 body ++ drop 4 body ++ rest)
      by (by rewrite app_assoc, take_drop).
    rewrite recvAll_app by (rewrite length_take; lia).
    exists s, []. f_equal.
    case_decide.
    - rewrite drop_app_length'; [done|]. rewrite length_drop. lia.
    - assert (drop 4 body = []) as -> by (apply nil_length_inv; rewrite length_drop; lia).
      done. }
  destruct Hf as (Hdw & Hpi & Hcap).
  assert (opcode = X11Op.PutImage \/ ~ opcode = X11Op.PutImage) as [Hp|Hp]
    by (destruct (decide (opcode = X11Op.PutImage)); auto).
  { (* PutImage reads its 20 bytes and its pixels *)
    specialize (Hpi Hp).
    rewrite (decide_True (P := opcode = X11Op.PutImage)) by done.
    replace (body ++ rest) with (take 20 body ++ drop 20 body ++ rest)
      by (by rewrite app_assoc, take_drop).
    rewrite recvAll_app by (rewrite length_take; lia).
    rewrite decide_True by lia.
    replace (len * 4 - 24) with (Z.of_nat (length (drop 20 body)))
      by (rewrite length_drop; lia).
    match goal with
    | |- context [receivePutImage ?r _ _ _] =>
        pose proof (receivePutImage_stream r (drop 20 body) rest s) as Hs;
        destruct (receivePutImage r (Z.of_nat (length (drop 20 body)))
                                  (drop 20 body ++ rest) s) as [s' stream']
    end.
    cbn [snd] in Hs. subst stream'. by exists s', []. }
  rewrite (decide_False (P := opcode = X11Op.PutImage)) by done.
  assert (opcode = X11Op.DestroyWindow \/ ~ opcode = X11Op.DestroyWindow) as [Hd|Hd]
    by (destruct (decide (opcode = X11Op.DestroyWindow)); auto).
  { specialize (Hdw Hd).
    rewrite decide_False by (intros (_ & _ & H4 & _); by apply H4).
    rewrite Hd. unfold dispatch.
    rewrite recvAll_app by lia.
    repeat case_decide; try done. eexists _, _. reflexivity. }
  assert (opcode = X11Op.ChangeWindowAttributes \/ ~ opcode = X11Op.ChangeWindowAttributes)
    as [Hc|Hc] by (destruct (decide (opcode = X11Op.ChangeWindowAttributes)); auto).
  { rewrite decide_False by (intros (_ & H2 & _); by apply H2).
    rewrite Hc.
    rewrite dispatch_notEmbedded
      by (apply list_elem_of_In; cbv; auto 12).
    unfold dispatchRest. rewrite decide_True by done.
    rewrite changeWindowAttributes_stream by lia.
    eexists _, _. reflexivity. }
  assert (opcode = X11Op.QueryPointer \/ ~ opcode = X11Op.QueryPointer) as [Hq|Hq]
    by (destruct (decide (opcode = X11Op.QueryPointer)); auto).
  { rewrite decide_False by (intros (_ & _ & _ & H2); by apply H2).
    rewrite Hq.
    rewrite dispatch_notEmbedded
      by (apply list_elem_of_In; cbv; auto 12).
    unfold dispatchRest.
    rewrite (decide_False (P := X11Op.QueryPointer = X11Op.ChangeWindowAttributes)) by done.
    rewrite (decide_False (P := X11Op.QueryPointer = X11Op.GetWindowAttributes)) by done.
    rewrite (decide_False (P := X11Op.QueryPointer = X11Op.SendEvent)) by done.
    rewrite (decide_True (P := X11Op.QueryPointer = X11Op.QueryPointer)) by done.
    rewrite queryPointer_stream by lia.
    eexists _, _. reflexivity. }
  (* every other opcode: the generic body read *)
  specialize (Hcap Hc Hq Hp).
  rewrite !(decide_True (P := len > 0 /\ _)) by (repeat split; first [lia|done]).
  rewrite !(decide_False (P := (len - 1) * 4 > 65536)) by lia.
  unfold recvIgnoringResult.
  replace (Z.to_nat ((len - 1) * 4)) with (length body) by lia.
  rewrite drop_app_length, take_app_length.
  destruct (decide ((len - 1) * 4 > 256 - 4)) as [Hbig|Hbig].
  all: match goal with
  | |- context [dispatch _ _ _ ?b _ _] =>
      pose proof (dispatch_stream scaleToInt opcode (u16 (seq + 1)) b rest s Hd) as Hs;
      pose proof (dispatch_ok scaleToInt opcode (u16 (seq + 1)) b rest s) as _;
      destruct (dispatch scaleToInt opcode (u16 (seq + 1)) b rest s)
        as [|s' seq' stream' out|] eqn:Hdis
  end.
  all: try (exfalso; revert Hdis; unfold dispatch; repeat case_decide; done).
  all: try (destruct Hs as [-> ->]; by exists s', out).
  all: assert (opcode ∈ notEmbeddedOpcodes) as Hin
    by (revert Hdis; unfold dispatch; repeat case_decide; done).
  all: match goal with
    | |- context [dispatchRest _ _ _ ?b _ _ _] =>
        pose proof (dispatchRest_stream opcode len (u16 (seq + 1)) b rest ptr s Hc Hq) as Hr2;
        pose proof (dispatchRest_total opcode len (u16 (seq + 1)) b rest ptr s Hin) as Hr3;
        destruct (dispatchRest opcode len (u16 (seq + 1)) b rest ptr s)
          as [|s' seq' stream' out|]
    end; try done.
    all: destruct Hr2 as [-> ->]; by exists s', out.
Qed.



(** ** The display states of the JNI bridge *)

(** X9. A detach that is signalled for a display while its plugin UI is
    being created (after [nativeBeginCreatePluginUI], before
    [nativeCreatePluginUI] has finished) tears nothing down:
    [nativeSignalDetachSurfaceFromDisplay] only notes it, and
    [nativeDetachAndDestroyX11DisplayIfExists] leaves the display, its state
    record and the phase [Creating] as they are.  When the creation then
    succeeds, [nativeCreatePluginUI] destroys the plugin UI it has just
    created and leaves the display in phase [None]; when it fails there is
    nothing to destroy.  Without such a detach a successful creation ends in
    phase [Ready] and destroys nothing. *)
Theorem detach_during_creation_is_deferred
    (displayNumber pluginIdx : Z) (result : bool) (b : Bridge) :
  let b1 := nativeBeginCreatePluginUI displayNumber pluginIdx b in
  let b2 := (nativeSignalDetachSurfaceFromDisplay displayNumber b1).1 in
  let b3 := nativeDetachAndDestroyX11DisplayIfExists displayNumber b2 in
  let r := nativeCreatePluginUI pluginIdx displayNumber true result b3 in
  (getDisplayPhase displayNumber b3 = Creating
   /\ br_displays b3 = br_displays b
   /\ br_actions b3 = br_actions b
   /\ br_displayStates b3 !! displayNumber = Some (mkDisplayState Creating pluginIdx true))
  /\ (br_actions r.1
      = br_actions b ++ ActCreatePluginUI pluginIdx displayNumber
                        :: (if result then [ActDestroyPluginUI pluginIdx] else [])
      /\ getDisplayPhase displayNumber r.1 = PhaseNone
      /\ br_displays r.1 = br_displays b
      /\ br_creatingPluginUI r.1 = false
      /\ r.2 = result)
  /\ (getDisplayPhase displayNumber
        (nativeCreatePluginUI pluginIdx displayNumber true true b1).1 = Ready
      /\ br_actions (nativeCreatePluginUI pluginIdx displayNumber true true b1).1
         = br_actions b ++ [ActCreatePluginUI pluginIdx displayNumber]).
Proof.
  destruct b as [m cr ds acts]. cbv zeta.
  cbn [br_displays br_actions].
  change (nativeBeginCreatePluginUI displayNumber pluginIdx (mkBridge m cr ds acts))
    with (mkBridge (<[displayNumber := mkDisplayState Creating pluginIdx false]> m)
                   true ds acts).
  assert ((nativeSignalDetachSurfaceFromDisplay displayNumber
             (mkBridge (<[displayNumber := mkDisplayState Creating pluginIdx false]> m)
                       true ds acts)).1
          = mkBridge (<[displayNumber := mkDisplayState Creating pluginIdx true]> m)
                     true ds acts) as ->.
  { unfold nativeSignalDetachSurfaceFromDisplay, getDisplayPhase.
    cbn [br_displayStates]. rewrite lookup_insert_eq. cbn [phase fst].
    cbn [br_displayStates br_creatingPluginUI br_displays br_actions pluginIndex].
    by rewrite insert_insert_eq. }
  assert (nativeDetachAndDestroyX11DisplayIfExists displayNumber
            (mkBridge (<[displayNumber := mkDisplayState Creating pluginIdx true]> m)
                      true ds acts)
          = mkBridge (<[displayNumber := mkDisplayState Creating pluginIdx true]> m)
                     true ds acts) as ->.
  { unfold nativeDetachAndDestroyX11DisplayIfExists, getDisplayPhase.
    cbn [br_displayStates]. by rewrite lookup_insert_eq. }
  split.
  { unfold getDisplayPhase. cbn [br_displayStates br_displays br_actions].
    by rewrite lookup_insert_eq. }
  split.
  - unfold nativeCreatePluginUI. cbn [negb br_displayStates br_actions br_displays
                                      br_creatingPluginUI].
    rewrite lookup_insert_eq. cbn [detachPending pluginIndex andb].
    destruct result.
    + unfold setDisplayPhase, getDisplayPhase.
      cbn [br_displayStates br_actions br_displays br_creatingPluginUI fst snd].
      rewrite !lookup_insert_eq. cbn [default phase].
      rewrite ?lookup_insert_eq. cbn [phase]. by rewrite <- app_assoc.
    + unfold getDisplayPhase.
      cbn [br_displayStates br_actions br_displays br_creatingPluginUI fst snd].
      by rewrite lookup_insert_eq.
  - unfold nativeCreatePluginUI, getDisplayPhase.
    cbn [negb br_displayStates br_actions br_displays br_creatingPluginUI].
    rewrite lookup_insert_eq.
    cbn [detachPending andb br_displayStates br_actions br_displays br_creatingPluginUI
         fst snd].
    by rewrite lookup_insert_eq.
Qed.

(** ** Graceful teardown *)

Lemma destroyNotifyEvent_ok msb evtSeq wid :
  eventOK msb evtSeq (destroyNotifyEvent msb evtSeq wid).
Proof.
  unfold eventOK, destroyNotifyEvent. split; [|split].
  - by destruct msb.
  - destruct msb; packet_compute; [apply join16_be_any|apply join16_le_any].
  - apply length_buildPacket.
Qed.

Lemma teardownRun_quiet closeStartTime s (nows : list Z) c out :
  destroyNotifySent c = true \/ childWindows (wins s) = [] ->
  teardownRun closeStartTime s nows c out
  = (c, out, bool_decide (Exists (fun now => now - closeStartTime > 2000000000) nows)).
Proof.
  intros Hq. revert out. induction nows as [|now nows IH]; intros out.
  - reflexivity.
  - cbn [teardownRun]. unfold teardownTurn.
    assert (negb (destroyNotifySent c) && negb (bool_decide (childWindows (wins s) = []))
            = false) as ->.
    { destruct Hq as [-> | ->]; [done|]. by rewrite andb_false_r. }
    rewrite app_nil_r.
    destruct (bool_decide (now - closeStartTime > 2000000000)) eqn:Hnow.
    + apply bool_decide_eq_true_1 in Hnow.
      rewrite bool_decide_eq_true_2; [done|]. by apply Exists_cons_hd.
    + apply bool_decide_eq_false_1 in Hnow. rewrite IH. do 2 f_equal.
      apply bool_decide_ext. rewrite Exists_cons. tauto.
Qed.

(** X10. Once the graceful close has begun, the request loop sends one
    DestroyNotify event for every window of the window list, in list order,
    in its first iteration, and none in any later iteration, however long
    the teardown lasts; each event is a 32-byte event stamped with the
    sequence number of the last reply, and the request counter advances by
    one per window.  The loop is left at the first iteration that finds more
    than two seconds elapsed since the close began, and not before. *)
Theorem teardown_notifies_each_window_once
    (closeStartTime : Z) (s : Impl) (nows : list Z) (c : Closing) :
  destroyNotifySent c = false ->
  nows ≠ [] ->
  let ws := childWindows (wins s) in
  let r := teardownRun closeStartTime s nows c [] in
  r.1.2 = (fun wid => destroyNotifyEvent (msbFirst_ s) (lastReplySeq_ s) wid) <$> ws
  /\ Forall (eventOK (msbFirst_ s) (lastReplySeq_ s)) r.1.2
  /\ r.1.1 = (if bool_decide (ws = []) then c
              else mkClosing true (u16 (cl_seq c + Z.of_nat (length ws))))
  /\ r.2 = bool_decide (Exists (fun now => now - closeStartTime > 2000000000) nows).
Proof.
  intros Hsent Hnows ws r. subst r.
  destruct nows as [|now nows]; [done|]. clear Hnows.
  assert (Forall (eventOK (msbFirst_ s) (lastReplySeq_ s))
            ((fun wid => destroyNotifyEvent (msbFirst_ s) (lastReplySeq_ s) wid) <$> ws))
    as Hev.
  { apply Forall_fmap, Forall_forall. intros wid _. apply destroyNotifyEvent_ok. }
  destruct (decide (ws = [])) as [Hempty|Hne].
  - rewrite teardownRun_quiet by (by right). cbn [fst snd].
    rewrite Hempty. rewrite bool_decide_eq_true_2 by done. done.
  - cbn [teardownRun]. unfold teardownTurn. fold ws.
    rewrite Hsent, (bool_decide_eq_false_2 _ Hne). cbn [negb andb app].
    destruct (bool_decide (now - closeStartTime > 2000000000)) eqn:Hnow.
    + apply bool_decide_eq_true_1 in Hnow. cbn [fst snd].
      split; [done|]. split; [done|]. split; [done|].
      rewrite bool_decide_eq_true_2; [done|]. by apply Exists_cons_hd.
    + apply bool_decide_eq_false_1 in Hnow.
      rewrite teardownRun_quiet by (by left). cbn [fst snd].
      split; [done|]. split; [done|]. split; [done|].
      apply bool_decide_ext. rewrite Exists_cons. tauto.
Qed.

Lemma teardown_notifies_each_window_once_witness :
  let r := teardownRun 1000 stateChild [5000; 1500000000; 2500000000; 2600000000]
                       (mkClosing false 7) [] in
  r.1.2 = (fun wid => destroyNotifyEvent false 0 wid) <$> [100; 200]
  /\ Forall (eventOK false 0) r.1.2
  /\ r.1.1 = mkClosing true (u16 (7 + 2))
  /\ r.2 = bool_decide (Exists (fun now => now - 1000 > 2000000000)
                               [5000; 1500000000; 2500000000; 2600000000]).
Proof.
  apply (teardown_notifies_each_window_once 1000 stateChild
           [5000; 1500000000; 2500000000; 2600000000] (mkClosing false 7)).
  - reflexivity.
  - discriminate.
Defined.

(** ** GetWindowAttributes and TranslateCoordinates *)

Lemma replyMapState_reply msb seq isUnmapped :
  replyMapState (replyGetWindowAttributes msb seq isUnmapped)
  = if isUnmapped then 0 else 2.
Proof. by destruct msb, isUnmapped. Qed.

Lemma mapStateOf_unfold seq wid s :
  mapStateOf seq wid s = if bool_decide (wid ∈ unmappedWindows (wins s)) then 0 else 2.
Proof. unfold mapStateOf, getWindowAttributes, sendReply. cbn. apply replyMapState_reply. Qed.

Lemma mapWindow_unmapped wid s :
  unmappedWindows (wins (mapWindow wid s).1) = unmappedWindows (wins s) ∖ {[wid]}.
Proof.
  unfold mapWindow. by destruct (windowSizes (wins s) !! wid) as [[? ?]|].
Qed.

(** X11. The map state GetWindowAttributes reports for a window follows the
    window's requests: 0 (Unmapped) once the window is created and until it
    is mapped, 2 (Viewable) after MapWindow, 0 again after UnmapWindow; a
    request on one window does not change what is reported for another.
    No check is made that the window exists: for a window that has been
    destroyed, and for any ID at all when a client has just been accepted,
    the reply says Viewable. *)
Theorem getWindowAttributes_map_state (seq wid : Z) (r : CreateWindowReq) (s : Impl) :
  mapStateOf seq (cw_wid r) (createWindow r s).1 = 0
  /\ mapStateOf seq wid (mapWindow wid s).1 = 2
  /\ mapStateOf seq wid (unmapWindow wid s).1 = 0
  /\ mapStateOf seq wid (destroyWindow wid s).1 = 2
  /\ (forall other, other ≠ wid ->
        mapStateOf seq other (mapWindow wid s).1 = mapStateOf seq other s
        /\ mapStateOf seq other (unmapWindow wid s).1 = mapStateOf seq other s
        /\ mapStateOf seq other (destroyWindow wid s).1 = mapStateOf seq other s)
  /\ (forall other, other ≠ cw_wid r ->
        mapStateOf seq other (createWindow r s).1 = mapStateOf seq other s)
  /\ mapStateOf seq wid (acceptClient s) = 2.
Proof.
  rewrite !mapStateOf_unfold.
  assert (forall (P : Prop) `{Decision P}, P -> (if bool_decide P then 0 else 2) = 0) as Hyes
    by (intros P ? HP; by rewrite bool_decide_eq_true_2).
  assert (forall (P : Prop) `{Decision P}, ~ P -> (if bool_decide P then 0 else 2) = 2) as Hno
    by (intros P ? HP; by rewrite bool_decide_eq_false_2).
  split; [apply Hyes; unfold createWindow; cbn; set_solver|].
  split; [apply Hno; rewrite mapWindow_unmapped; set_solver|].
  split; [apply Hyes; unfold unmapWindow; cbn; set_solver|].
  split; [apply Hno; unfold destroyWindow; cbn; set_solver|].
  split; [|split].
  - intros other Hne. rewrite !mapStateOf_unfold.
    rewrite mapWindow_unmapped.
    unfold unmapWindow, destroyWindow. cbn.
    repeat split; (erewrite bool_decide_ext; [reflexivity|set_solver]).
  - intros other Hne. rewrite !mapStateOf_unfold. unfold createWindow. cbn.
    erewrite bool_decide_ext; [reflexivity|set_solver].
  - apply Hno. cbn. set_solver.
Qed.

Lemma s16_range v : -32768 <= s16 v < 32768.
Proof. unfold s16. pose proof (u16_range v). case_decide; lia. Qed.

Lemma s16_u16 v : s16 (u16 v) = s16 v.
Proof. unfold s16. by rewrite u16_u16. Qed.

Lemma s16_exact v : -32768 <= v < 32768 -> s16 v = v.
Proof.
  intros Hv. unfold s16, u16. case_decide as Hc; revert Hc;
    Z.div_mod_to_equations; lia.
Qed.

Lemma s16_shift v k : s16 (v + 65536 * k) = s16 v.
Proof.
  unfold s16, u16.
  by replace ((v + 65536 * k) mod 65536) with (v mod 65536)
    by (rewrite Z.mul_comm, Z.mod_add; lia).
Qed.

Lemma s16_congr v : exists k, s16 v = v + 65536 * k.
Proof.
  unfold s16, u16. case_decide.
  - exists (- (v / 65536)). Z.div_mod_to_equations. lia.
  - exists (- (v / 65536) - 1). Z.div_mod_to_equations. lia.
Qed.

Lemma replyDstXY_reply msb seq dstX dstY :
  replyDstXY msb (replyTranslateCoordinates msb seq dstX dstY) = (s16 dstX, s16 dstY).
Proof.
  unfold replyDstXY, replyTranslateCoordinates.
  assert (forall v, s16 (u16 (u16 v)) = s16 v) as Hs
    by (intros v; by rewrite u16_u16, s16_u16).
  destruct msb; packet_compute;
    rewrite ?join16_be_any, ?join16_le_any, !Hs; reflexivity.
Qed.

Lemma translatedXY_unfold seq buf s :
  translatedXY seq buf s
  = let msb := msbFirst_ s in
    let t := translateCoordinates (wins s) (read32 msb buf 4) (read32 msb buf 8)
                                  (s16 (read16 msb buf 12)) (s16 (read16 msb buf 14)) in
    (s16 t.1, s16 t.2).
Proof.
  unfold translatedXY, handleTranslateCoordinates. cbv zeta.
  destruct (translateCoordinates _ _ _ _ _) as [dstX dstY]. cbn [sendReply snd head default].
  apply replyDstXY_reply.
Qed.


